(** * git-who: time-bucketed tallies (internal/tally/bucket.go)

    A shallow embedding of [bucket.go] and the properties of its bucket
    series: the resolution selector [calcResolution], the series builder
    [TallyCommitsByDate], and the merges [TimeBucket.Combine] and
    [TimeSeries.Combine].

    The program is embedded twice.
    - [Zoned] is the program over the times of package [time]: a
      [time.Time] is an instant (a [Z] counting nanoseconds since the Unix
      epoch) together with the [*Location] it carries and the monotonic
      clock reading it may have; a Location is what its [lookup] returns,
      so [time.Local] may have any transitions; [t.Date()] reads a time in
      the Location the time carries, [time.Date] looks the offset up as Go
      does, and [==] on times compares the structs.
    - The section [Bucket] is the program where [time.Local] has the fixed
      offset [zone] (seconds east of UTC) and every time carries
      [time.Local] and no monotonic reading, so that a time is its
      instant.  Part III proves that [Zoned] is this program when
      [time.Local] has a fixed offset and the dates of the commits carry
      it ([TallyCommitsByDate_fixed], [TimeSeries_Combine_fixed]).

    Conventions of both.
    - The seconds of a time do not overflow [int64].
    - A Go [int] is a [Z] kept in the signed 64-bit range by [wrap].
    - A Go map is a reference: a [TimeBucket] holds the address of its
      [tallies] map in a [heap]; a nil map is an address the heap has no
      cell for.  The [fileset] of a [Tally] is only written by
      [TallyCommitsByDate], on tallies it has just read from a map it
      owns and writes back at once, so it is carried by value.
    - A panic is the outcome [Panic]; a loop that ran out of the fuel of
      its model is [OutOfFuel].
    - The commit iterator is the finite list of the pairs it yields. *)

From stdpp Require Import gmap strings list fin_maps sorting.
From Stdlib Require Import ZArith Lia Ascii.

Local Open Scope Z_scope.

(** * Part I: definitions *)

(** ** The proleptic Gregorian calendar of package [time] *)

Module Calendar.

Definition isLeap (year : Z) : bool :=
  (year mod 4 =? 0) && (negb (year mod 100 =? 0) || (year mod 400 =? 0)).

(** Days from 1970-01-01 to January 1st of [year]. *)
Definition daysSinceEpoch (year : Z) : Z :=
  let p := year - 1 in
  365 * (year - 1970) + (p / 4 - p / 100 + p / 400) - 477.

(** Days of a non-leap year before the first of month [m] (1..13). *)
Definition daysBefore (m : Z) : Z :=
  nth (Z.to_nat (m - 1))
    [0; 31; 59; 90; 120; 151; 181; 212; 243; 273; 304; 334; 365] 0.

Definition leapAdj (leap : bool) (m : Z) : Z :=
  if leap && (3 <=? m) then 1 else 0.

(** The day number of [time.Date(year, month, day, ...)]: the month is
    normalised into the year first, the day is added as it is, so that
    day 0 or day 32 roll into the neighbouring month. *)
Definition daysFromCivil (year month day : Z) : Z :=
  let m0 := month - 1 in
  let year := year + m0 / 12 in
  let month := m0 mod 12 + 1 in
  daysSinceEpoch year + daysBefore month + leapAdj (isLeap year) month
  + (day - 1).

(** Year and day of the year (from 0) of day number [n], by 400-year,
    100-year, 4-year and 1-year cycles from 0001-01-01. *)
Definition yearDay (n : Z) : Z * Z :=
  let d := n + 719162 in
  let n400 := d / 146097 in
  let d := d - 146097 * n400 in
  let n100 := d / 36524 in
  let n100 := n100 - n100 / 4 in
  let d := d - 36524 * n100 in
  let n4 := d / 1461 in
  let d := d - 1461 * n4 in
  let n1 := d / 365 in
  let n1 := n1 - n1 / 4 in
  let d := d - 365 * n1 in
  (1 + 400 * n400 + 100 * n100 + 4 * n4 + n1, d).

(** Month and day of the month of the day [yday] of a year. *)
Definition monthDay (leap : bool) (yday : Z) : Z * Z :=
  if leap && (yday =? 31 + 29 - 1) then (2, 29)
  else
    let day := if leap && (31 + 29 - 1 <? yday) then yday - 1 else yday in
    let month := day / 31 in
    let end_ := daysBefore (month + 2) in
    if end_ <=? day then (month + 2, day - end_ + 1)
    else (month + 1, day - daysBefore (month + 1) + 1).

(** [t.Date()] of a time on day number [n]. *)
Definition civilFromDays (n : Z) : Z * Z * Z :=
  let '(year, yday) := yearDay n in
  let '(month, day) := monthDay (isLeap year) yday in
  (year, month, day).

(** First day of the month [M], months counted from January of year 0. *)
Definition monthStart (M : Z) : Z := daysFromCivil 0 (M + 1) 1.

Definition monthIndex (n : Z) : Z :=
  let '(year, month, _) := civilFromDays n in 12 * year + (month - 1).

Definition yearIndex (n : Z) : Z :=
  let '(year, _, _) := civilFromDays n in year.

(** A checked range: [check] holds on [i, i + fuel). *)
Fixpoint allFrom (check : Z -> bool) (fuel : nat) (i : Z) : bool :=
  match fuel with
  | O => true
  | S f => check i && allFrom check f (i + 1)
  end.

Definition monthDayOk (leap : bool) (yday : Z) : bool :=
  let '(m, d) := monthDay leap yday in
  (1 <=? m) && (m <=? 12) && (1 <=? d)
  && (daysBefore m + leapAdj leap m + (d - 1) =? yday)
  && (yday <? daysBefore (m + 1) + leapAdj leap (m + 1)).

End Calendar.

(** ** Go integers, errors and outcomes *)

(** A Go [int] (64 bits, two's complement). *)
Definition wrap (z : Z) : Z := (z + 2 ^ 63) mod 2 ^ 64 - 2 ^ 63.

Definition int_add (a b : Z) : Z := wrap (a + b).

(** [errors.New] and [fmt.Errorf("<prefix>%w", err)]. *)
Inductive error : Type :=
  | errors_New (msg : string)
  | fmt_Errorf (prefix : string) (wrapped : error).

Fixpoint Error (e : error) : string :=
  match e with
  | errors_New msg => msg
  | fmt_Errorf prefix wrapped => prefix +:+ Error wrapped
  end.

(** [errors.Unwrap], repeated: the chain of errors below [e]. *)
Fixpoint chain (e : error) : list error :=
  e :: match e with
       | errors_New _ => []
       | fmt_Errorf _ wrapped => chain wrapped
       end.

Inductive outcome (A : Type) : Type :=
  | Done (a : A)
  | Panic (msg : string)
  | OutOfFuel.
Arguments Done {A} a.
Arguments Panic {A} msg.
Arguments OutOfFuel {A}.

Definition bind {A B} (o : outcome A) (k : A -> outcome B) : outcome B :=
  match o with
  | Done a => k a
  | Panic msg => Panic msg
  | OutOfFuel => OutOfFuel
  end.

Notation "x ←! o ; k" := (bind o (fun x => k))
  (at level 20, o at level 100, k at level 200, right associativity,
   only parsing).

(** The outcome seen through [f]. *)
Definition outcome_map {A B} (f : A -> B) (o : outcome A) : outcome B :=
  match o with
  | Done a => Done (f a)
  | Panic msg => Panic msg
  | OutOfFuel => OutOfFuel
  end.

(** ** Times *)

Module time.

Definition Time : Type := Z.

Definition Second : Z := 1000000000.
Definition Hour : Z := 3600 * Second.

Definition minDuration : Z := - 2 ^ 63.
Definition maxDuration : Z := 2 ^ 63 - 1.

(** [t.Sub(u)]: saturates at the ends of [Duration]. *)
Definition Sub (t u : Time) : Z :=
  Z.max minDuration (Z.min maxDuration (t - u)).

Definition After (t u : Time) : bool := u <? t.
Definition Equal (t u : Time) : bool := t =? u.
Definition Unix (t : Time) : Z := t / Second.

End time.

Definition nsPerDay : Z := 24 * time.Hour.

(** ** Formatting *)

Definition digitChar (d : Z) : ascii := ascii_of_N (Z.to_N (48 + d)).

Fixpoint utoa (fuel : nat) (u : Z) (acc : string) : string :=
  match fuel with
  | O => acc
  | S f =>
      let acc' := String (digitChar (u mod 10)) acc in
      if u <? 10 then acc' else utoa f (u / 10) acc'
  end.

Fixpoint zeros (n : nat) : string :=
  match n with
  | O => EmptyString
  | S n' => String "0"%char (zeros n')
  end.

(** [appendInt(b, x, width)] of package [time]. *)
Definition appendInt (x : Z) (width : nat) : string :=
  let digits := utoa 20 (Z.abs x) EmptyString in
  (if x <? 0 then "-" else "")
  +:+ zeros (width - String.length digits) +:+ digits.

Definition monthName (m : Z) : string :=
  nth (Z.to_nat (m - 1))
    ["Jan"; "Feb"; "Mar"; "Apr"; "May"; "Jun";
     "Jul"; "Aug"; "Sep"; "Oct"; "Nov"; "Dec"]%string EmptyString.

(** The layouts "2006", "Jan 2006" and "2006-01-02" on a date. *)
Definition format2006 (date : Z * Z * Z) : string :=
  let '(year, _, _) := date in appendInt year 4.

Definition formatJan2006 (date : Z * Z * Z) : string :=
  let '(year, month, _) := date in
  monthName month +:+ " " +:+ appendInt year 4.

Definition formatDateOnly (date : Z * Z * Z) : string :=
  let '(year, month, day) := date in
  appendInt year 4 +:+ "-" +:+ appendInt month 2 +:+ "-" +:+ appendInt day 2.

(** The labels of [n] days from the day numbered [k]. *)
Fixpoint dayNames (k : Z) (n : nat) : list string :=
  match n with
  | O => []
  | S n' => formatDateOnly (Calendar.civilFromDays k) :: dayNames (k + 1) n'
  end.

(** ** Commits and tallies *)

(** Modelled from the spec: [git.FileDiff] and [git.Commit] are declared in
    package [git]; these are the fields [bucket.go] reads. *)
Module git.

Record FileDiff : Type := {
  Path : string;
  LinesAdded : Z;
  LinesRemoved : Z
}.

Record Commit : Type := {
  AuthorName : string;
  AuthorEmail : string;
  Date : time.Time;
  FileDiffs : list FileDiff
}.

End git.

(** Modelled from the spec: [Tally] is declared in [tally.go]; these are
    the fields [bucket.go] writes.  [fileset] is a [map[string]bool]. *)
Record Tally : Type := {
  name : string;
  email : string;
  numTallied : Z;
  added : Z;
  removed : Z;
  fileset : gmap string bool
}.


(** Modelled from the spec: [FinalTally] is declared in [tally.go]. *)
Record FinalTally : Type := {
  AuthorName : string;
  AuthorEmail : string;
  Commits : Z;
  LinesAdded : Z;
  LinesRemoved : Z;
  FileCount : Z
}.

Definition FinalTally_zero : FinalTally :=
  {| AuthorName := ""; AuthorEmail := ""; Commits := 0;
     LinesAdded := 0; LinesRemoved := 0; FileCount := 0 |}.

(** Modelled from the spec: [TallyMode] and [TallyOpts] are declared in
    [tally.go]. *)
Inductive TallyMode : Type :=
  | CommitMode
  | FilesMode
  | LinesMode
  | LastModifiedMode.

Record TallyOpts : Type := {
  Mode : TallyMode;
  Key : git.Commit -> string
}.

Definition TallyMode_eqb (a b : TallyMode) : bool :=
  match a, b with
  | CommitMode, CommitMode | FilesMode, FilesMode
  | LinesMode, LinesMode | LastModifiedMode, LastModifiedMode => true
  | _, _ => false
  end.

(** ** Buckets *)

(** The maps the program has made, by address. *)
Abbreviation heap := (list (gmap string Tally)).

Record TimeBucket : Type := {
  Name : string;
  Time : time.Time;
  Tally_ : FinalTally;      (* Winning author's tally *)
  TotalTally : FinalTally;  (* Overall tally for all authors *)
  tallies : nat
}.

(** What [b.tallies] holds: a nil map reads as the empty map. *)
Definition contents (h : heap) (b : TimeBucket) : gmap string Tally :=
  default ∅ (h !! tallies b).

(** [map[string]Tally{}]: a new map, at the next free address. *)
Definition newMap (h : heap) : nat * heap := (length h, h ++ [∅]).

Definition newBucket (name : string) (t : time.Time) (h : heap)
  : TimeBucket * heap :=
  let '(l, h') := newMap h in
  ({| Name := name; Time := t; Tally_ := FinalTally_zero;
      TotalTally := FinalTally_zero; tallies := l |}, h').

Definition TimeBucket_Value (b : TimeBucket) (mode : TallyMode) : outcome Z :=
  match mode with
  | CommitMode => Done (Commits (Tally_ b))
  | FilesMode => Done (FileCount (Tally_ b))
  | LinesMode => Done (int_add (LinesAdded (Tally_ b)) (LinesRemoved (Tally_ b)))
  | _ => Panic "unrecognized tally mode in switch"
  end.

Definition TimeBucket_TotalValue (b : TimeBucket) (mode : TallyMode)
  : outcome Z :=
  match mode with
  | CommitMode => Done (Commits (TotalTally b))
  | FilesMode => Done (FileCount (TotalTally b))
  | LinesMode =>
      Done (int_add (LinesAdded (TotalTally b)) (LinesRemoved (TotalTally b)))
  | _ => Panic "unrecognized tally mode in switch"
  end.

(** The commit iterator: the pairs [(commit, err)] it yields, in order. *)
Abbreviation stream := (list (git.Commit * option error)).

(** What a call of [TallyCommitsByDate] leaves: the two results, the part
    of the iterator it did not pull, and the maps. *)
Record TallyResult : Type := {
  buckets : list TimeBucket;
  err : option error;
  unread : stream;
  store : heap
}.

(** Resolution for a time series.

    apply - Truncate time to its time bucket
    label - Format the date to a label for the bucket
    next - Get next time in series, given a time *)
Record resolution : Type := {
  apply : time.Time -> time.Time;
  label : time.Time -> string;
  next : time.Time -> time.Time
}.

(** The three tiers, for statements about which one was chosen. *)
Inductive tier : Type := Yearly | Monthly | Daily.

(** ** The program over the times of package [time]

    [Zoned] is [bucket.go] over times as Go has them: a [time.Time]
    carries, besides its instant, the [*Location] its date is read in and
    for some times a monotonic clock reading, and [time.Local] is any
    Location.  The section [Bucket] below is the same program where
    [time.Local] has one fixed offset and every time carries it. *)
Module Zoned.

Module time.

Definition Second : Z := time.Second.
Definition Hour : Z := time.Hour.
Definition minDuration : Z := time.minDuration.
Definition maxDuration : Z := time.maxDuration.

(** A [*Location]: [ptr] is the pointer, [lookup sec] what
    [l.lookup(sec)] returns for the Unix time [sec]: the offset in use
    (seconds east of UTC) and the Unix times [start, end) between which it
    is in use. *)
Record Location : Type := {
  ptr : nat;
  lookup : Z -> Z * Z * Z
}.

(** [inst] is the instant, in nanoseconds since the Unix epoch; [mono] is
    the monotonic clock reading of the times that have one. *)
Record Time : Type := {
  inst : Z;
  mono : option Z;
  loc : Location
}.

(** The ends of time of [lookup]. *)
Definition alpha : Z := - 2 ^ 63.
Definition omega : Z := 2 ^ 63 - 1.

(** [time.UTC] and what [time.FixedZone(name, offset)] returns. *)
Definition UTC : Location :=
  {| ptr := 0; lookup := fun _ => (0, alpha, omega) |}.

Definition FixedZone (p : nat) (offset : Z) : Location :=
  {| ptr := p; lookup := fun _ => (offset, alpha, omega) |}.

Definition saturate (d : Z) : Z := Z.max minDuration (Z.min maxDuration d).

(** [t.Sub(u)], [t.After(u)], [t.Equal(u)]: on the monotonic readings
    when both times have one, else on the instants. *)
Definition Sub (t u : Time) : Z :=
  match mono t, mono u with
  | Some mt, Some mu => saturate (mt - mu)
  | _, _ => saturate (inst t - inst u)
  end.

Definition After (t u : Time) : bool :=
  match mono t, mono u with
  | Some mt, Some mu => mu <? mt
  | _, _ => inst u <? inst t
  end.

Definition Equal (t u : Time) : bool :=
  match mono t, mono u with
  | Some mt, Some mu => mt =? mu
  | _, _ => inst t =? inst u
  end.

Definition Unix (t : Time) : Z := inst t / Second.

(** [t == u] on the structs: the same instant, the same monotonic
    reading, the same Location pointer. *)
Definition eqb (t u : Time) : bool :=
  (inst t =? inst u)
  && match mono t, mono u with
     | Some mt, Some mu => mt =? mu
     | None, None => true
     | _, _ => false
     end
  && (ptr (loc t) =? ptr (loc u))%nat.

(** [t.Date()]: the date of the instant, read with the offset its
    Location has then. *)
Definition Time_Date (t : Time) : Z * Z * Z :=
  let sec := Unix t in
  let '(offset, _, _) := lookup (loc t) sec in
  Calendar.civilFromDays ((sec + offset) / 86400).

(** [time.Date(year, month, day, 0, 0, 0, 0, loc)]: the offset is looked
    up at the wanted wall time taken for a Unix time, and once more at the
    time that gives when that one falls outside the range of the first. *)
Definition Date (year month day : Z) (l : Location) : Time :=
  let unix := Calendar.daysFromCivil year month day * 86400 in
  let '(offset, start, end_) := lookup l unix in
  let unix :=
    if negb (offset =? 0) then
      let utc := unix - offset in
      let offset :=
        if (utc <? start) || (end_ <=? utc) then (lookup l utc).1.1
        else offset in
      unix - offset
    else unix in
  {| inst := unix * Second; mono := None; loc := l |}.

Definition Format_2006 (t : Time) : string := format2006 (Time_Date t).
Definition Format_Jan_2006 (t : Time) : string := formatJan2006 (Time_Date t).
Definition Format_DateOnly (t : Time) : string := formatDateOnly (Time_Date t).

End time.

Module git.

Record Commit : Type := {
  AuthorName : string;
  AuthorEmail : string;
  Date : time.Time;
  FileDiffs : list git.FileDiff
}.

End git.

Record TallyOpts : Type := {
  Mode : TallyMode;
  Key : git.Commit -> string
}.

Record TimeBucket : Type := {
  Name : string;
  Time : time.Time;
  Tally_ : FinalTally;      (* Winning author's tally *)
  TotalTally : FinalTally;  (* Overall tally for all authors *)
  tallies : nat
}.

Definition contents (h : heap) (b : TimeBucket) : gmap string Tally :=
  default ∅ (h !! tallies b).

Definition newBucket (name : string) (t : time.Time) (h : heap)
  : TimeBucket * heap :=
  let '(l, h') := newMap h in
  ({| Name := name; Time := t; Tally_ := FinalTally_zero;
      TotalTally := FinalTally_zero; tallies := l |}, h').

Abbreviation stream := (list (git.Commit * option error)).

Record TallyResult : Type := {
  buckets : list TimeBucket;
  err : option error;
  unread : stream;
  store : heap
}.

Record resolution : Type := {
  apply : time.Time -> time.Time;
  label : time.Time -> string;
  next : time.Time -> time.Time
}.

Section Program.

(** [time.Local], and [Tally.Combine] of [tally.go]. *)
Variable Local : time.Location.
Variable Tally_Combine : Tally -> Tally -> Tally.

(** *** calcResolution *)

Definition yearlyApply (t : time.Time) : time.Time :=
  let '(year, _, _) := time.Time_Date t in
  time.Date year 1 1 Local.

Definition yearlyNext (t : time.Time) : time.Time :=
  let t := yearlyApply t in
  let '(year, _, _) := time.Time_Date t in
  time.Date (year + 1) 1 1 Local.

Definition yearlyLabel (t : time.Time) : string :=
  time.Format_2006 (yearlyApply t).

Definition yearly : resolution :=
  {| apply := yearlyApply; next := yearlyNext; label := yearlyLabel |}.

Definition monthlyApply (t : time.Time) : time.Time :=
  let '(year, month, _) := time.Time_Date t in
  time.Date year month 1 Local.

Definition monthlyNext (t : time.Time) : time.Time :=
  let t := monthlyApply t in
  let '(year, month, _) := time.Time_Date t in
  time.Date year (month + 1) 1 Local.

Definition monthlyLabel (t : time.Time) : string :=
  time.Format_Jan_2006 (monthlyApply t).

Definition monthly : resolution :=
  {| apply := monthlyApply; next := monthlyNext; label := monthlyLabel |}.

Definition dailyApply (t : time.Time) : time.Time :=
  let '(year, month, day) := time.Time_Date t in
  time.Date year month day Local.

Definition dailyNext (t : time.Time) : time.Time :=
  let t := dailyApply t in
  let '(year, month, day) := time.Time_Date t in
  time.Date year month (day + 1) Local.

Definition dailyLabel (t : time.Time) : string :=
  time.Format_DateOnly (dailyApply t).

Definition daily : resolution :=
  {| apply := dailyApply; next := dailyNext; label := dailyLabel |}.

Definition calcResolution (start end_ : time.Time) : resolution :=
  let duration := time.Sub end_ start in
  let day := time.Hour * 24 in
  let year := day * 365 in
  if year * 5 <? duration then yearly
  else if day * 60 <? duration then monthly
  else daily.

Definition tierOf (start end_ : time.Time) : tier :=
  let duration := time.Sub end_ start in
  if time.Hour * 24 * 365 * 5 <? duration then Yearly
  else if time.Hour * 24 * 60 <? duration then Monthly
  else Daily.

Definition resolutionOf (r : tier) : resolution :=
  match r with
  | Yearly => yearly
  | Monthly => monthly
  | Daily => daily
  end.

(** *** TimeBucket.Combine *)

Definition mergeEntry (key : string) (tally : Tally)
    (acc : gmap string Tally) : gmap string Tally :=
  match acc !! key with
  | Some existing => <[key := Tally_Combine existing tally]> acc
  | None => <[key := tally]> acc
  end.

Definition TimeBucket_Combine (a b : TimeBucket) (h : heap)
  : outcome (TimeBucket * heap) :=
  if negb (String.eqb (Name a) (Name b)) then
    Panic "cannot combine buckets whose names do not match"
  else if negb (time.eqb (Time a) (Time b)) then
    Panic "cannot combine buckets whose times do not match"
  else
    let merged := a in
    let entries := contents h b in
    if bool_decide (entries = ∅) then Done (merged, h)
    else
      match h !! tallies merged with
      | None => Panic "assignment to entry in nil map"
      | Some ma =>
          Done (merged, <[tallies merged := map_fold mergeEntry ma entries]> h)
      end.

(** *** TimeSeries.Combine *)

Definition bucketKey (b : TimeBucket) : Z := time.Unix (Time b).

Definition putAll (a : list TimeBucket) (m : gmap Z TimeBucket)
  : gmap Z TimeBucket :=
  foldl (fun m bucket => <[bucketKey bucket := bucket]> m) m a.

Fixpoint mergeAll (b : list TimeBucket) (m : gmap Z TimeBucket) (h : heap)
  : outcome (gmap Z TimeBucket * heap) :=
  match b with
  | [] => Done (m, h)
  | bucket :: b' =>
      match m !! bucketKey bucket with
      | Some existing =>
          ch ←! TimeBucket_Combine existing bucket h;
          mergeAll b' (<[bucketKey bucket := ch.1]> m) ch.2
      | None => mergeAll b' (<[bucketKey bucket := bucket]> m) h
      end
  end.

Definition sortedKeys (m : gmap Z TimeBucket) : list Z :=
  merge_sort Z.le (map fst (map_to_list m)).

Definition TimeSeries_Combine (a b : list TimeBucket) (h : heap)
  : outcome (list TimeBucket * heap) :=
  mh ←! mergeAll b (putAll a ∅) h;
  Done (omap (fun key => mh.1 !! key) (sortedKeys mh.1), mh.2).

(** *** TallyCommitsByDate *)

(** The loop that makes the empty buckets, [fuel] rounds of it at most:
    in some Locations it does not end. *)
Fixpoint initBuckets (fuel : nat) (res : resolution) (end_ t : time.Time)
    (bs : list TimeBucket) (h : heap) : outcome (list TimeBucket * heap) :=
  match fuel with
  | O => OutOfFuel
  | S fuel' =>
      if time.After end_ t then
        let '(bucket, h') := newBucket (label res t) (apply res t) h in
        initBuckets fuel' res end_ (next res t) (bs ++ [bucket]) h'
      else Done (bs, h)
  end.

Fixpoint seek (bucketedCommitTime : time.Time) (i : nat)
    (bucket : TimeBucket) (rest : list TimeBucket)
  : outcome (nat * TimeBucket) :=
  if negb (time.Equal bucketedCommitTime (Time bucket)) then
    match rest with
    | [] => Panic "index out of range"
    | bucket' :: rest' => seek bucketedCommitTime (S i) bucket' rest'
    end
  else Done (i, bucket).

Definition addDiff (tally : Tally) (diff : git.FileDiff) : Tally :=
  {| name := name tally; email := email tally;
     numTallied := numTallied tally;
     added := int_add (added tally) (git.LinesAdded diff);
     removed := int_add (removed tally) (git.LinesRemoved diff);
     fileset := <[git.Path diff := true]> (fileset tally) |}.

Definition tallyCommit (opts : TallyOpts) (commit : git.Commit)
    (m : gmap string Tally) : gmap string Tally :=
  let key := Key opts commit in
  let tally :=
    match m !! key with
    | Some tally => tally
    | None =>
        {| name := git.AuthorName commit; email := git.AuthorEmail commit;
           numTallied := 0; added := 0; removed := 0; fileset := ∅ |}
    end in
  let tally :=
    {| name := name tally; email := email tally;
       numTallied := int_add (numTallied tally) 1;
       added := added tally; removed := removed tally;
       fileset := fileset tally |} in
  let tally := foldl addDiff tally (git.FileDiffs commit) in
  <[key := tally]> m.

Fixpoint tallyLoop (res : resolution) (opts : TallyOpts)
    (bs : list TimeBucket) (i : nat) (commits : stream) (h : heap)
  : outcome TallyResult :=
  match commits with
  | [] => Done {| buckets := bs; err := None; unread := []; store := h |}
  | (_, Some e) :: rest =>
      Done {| buckets := bs;
              err := Some (fmt_Errorf "error iterating commits: " e);
              unread := rest; store := h |}
  | (commit, None) :: rest =>
      let bucketedCommitTime := apply res (git.Date commit) in
      match bs !! i with
      | None => Panic "index out of range"
      | Some bucket =>
          ib ←! (if time.After bucketedCommitTime (Time bucket)
                 then seek bucketedCommitTime i bucket (drop (S i) bs)
                 else Done (i, bucket));
          let '(i, bucket) := ib in
          match h !! tallies bucket with
          | None => Panic "assignment to entry in nil map"
          | Some m =>
              tallyLoop res opts (<[i := bucket]> bs) i rest
                (<[tallies bucket := tallyCommit opts commit m]> h)
          end
      end
  end.

Definition deferred (r : TallyResult) : TallyResult :=
  {| buckets := buckets r;
     err := match err r with
            | Some e =>
                Some (fmt_Errorf "error while tallying commits by date: " e)
            | None => None
            end;
     unread := unread r; store := store r |}.

(** [fuel] bounds the rounds of the loop that makes the buckets. *)
Definition TallyCommitsByDate (fuel : nat) (commits : stream)
    (opts : TallyOpts) (end_ : time.Time) (h : heap) : outcome TallyResult :=
  r ←! (if TallyMode_eqb (Mode opts) LastModifiedMode then
          Done {| buckets := [];
                  err := Some (errors_New "Last modified mode not implemented");
                  unread := commits; store := h |}
        else
          match commits with
          | [] =>
              Done {| buckets := []; err := None; unread := []; store := h |}
          | (_, Some e) :: rest =>
              Done {| buckets := []; err := Some e; unread := rest;
                      store := h |}
          | (firstCommit, None) :: rest =>
              let resolution := calcResolution (git.Date firstCommit) end_ in
              let t := apply resolution (git.Date firstCommit) in
              bh ←! initBuckets fuel resolution end_ t [] h;
              tallyLoop resolution opts bh.1 0 rest bh.2
          end);
  Done (deferred r).

(** *** Notions the statements use *)

(** [time.Local] has the offset [zone] at all times. *)
Definition fixedOffset (zone : Z) : Prop :=
  forall sec, (time.lookup Local sec).1.1 = zone.

(** The time of an instant as [time.Date] and [time.Unix] return it: it
    carries [time.Local] and no monotonic reading. *)
Definition atInstant (i : Z) : time.Time :=
  {| time.inst := i; time.mono := None; time.loc := Local |}.

Definition plain (t : time.Time) : Prop :=
  time.loc t = Local /\ time.mono t = None.

Definition plainBucket (b : TimeBucket) : Prop := plain (Time b).

Fixpoint okPrefix (s : stream) : list git.Commit :=
  match s with
  | (commit, None) :: s' => commit :: okPrefix s'
  | _ => []
  end.

Definition yieldAll (cs : list git.Commit) : stream :=
  map (fun c => (c, None)) cs.

End Program.

End Zoned.

Section Bucket.

(** The offset of [time.Local], in seconds east of UTC. *)
Variable zone : Z.

(** [Tally.Combine], [Tally.Final] and [Rank] are declared in [tally.go],
    which is not part of the sources: they are parameters here. *)
Variable Tally_Combine : Tally -> Tally -> Tally.
Variable Tally_Final : Tally -> FinalTally.
Variable Rank : gmap string Tally -> TallyMode -> list FinalTally.

(** The local calendar day a time falls on. *)
Definition localDay (t : time.Time) : Z :=
  (t + zone * time.Second) / nsPerDay.

(** [t.Date()]. *)
Definition Time_Date (t : time.Time) : Z * Z * Z :=
  Calendar.civilFromDays (localDay t).

(** [time.Date(year, month, day, 0, 0, 0, 0, time.Local)]. *)
Definition time_Date (year month day : Z) : time.Time :=
  Calendar.daysFromCivil year month day * nsPerDay - zone * time.Second.

(** [t.Format("2006")], [t.Format("Jan 2006")], [t.Format(time.DateOnly)]. *)
Definition Format_2006 (t : time.Time) : string :=
  format2006 (Time_Date t).

Definition Format_Jan_2006 (t : time.Time) : string :=
  formatJan2006 (Time_Date t).

Definition Format_DateOnly (t : time.Time) : string :=
  formatDateOnly (Time_Date t).

(** *** calcResolution *)

Definition yearlyApply (t : time.Time) : time.Time :=
  let '(year, _, _) := Time_Date t in
  time_Date year 1 1.

Definition yearlyNext (t : time.Time) : time.Time :=
  let t := yearlyApply t in
  let '(year, _, _) := Time_Date t in
  time_Date (year + 1) 1 1.

Definition yearlyLabel (t : time.Time) : string :=
  Format_2006 (yearlyApply t).

(** Yearly buckets *)
Definition yearly : resolution :=
  {| apply := yearlyApply; next := yearlyNext; label := yearlyLabel |}.

Definition monthlyApply (t : time.Time) : time.Time :=
  let '(year, month, _) := Time_Date t in
  time_Date year month 1.

Definition monthlyNext (t : time.Time) : time.Time :=
  let t := monthlyApply t in
  let '(year, month, _) := Time_Date t in
  time_Date year (month + 1) 1.

Definition monthlyLabel (t : time.Time) : string :=
  Format_Jan_2006 (monthlyApply t).

(** Monthly buckets *)
Definition monthly : resolution :=
  {| apply := monthlyApply; next := monthlyNext; label := monthlyLabel |}.

Definition dailyApply (t : time.Time) : time.Time :=
  let '(year, month, day) := Time_Date t in
  time_Date year month day.

Definition dailyNext (t : time.Time) : time.Time :=
  let t := dailyApply t in
  let '(year, month, day) := Time_Date t in
  time_Date year month (day + 1).

Definition dailyLabel (t : time.Time) : string :=
  Format_DateOnly (dailyApply t).

(** Daily buckets *)
Definition daily : resolution :=
  {| apply := dailyApply; next := dailyNext; label := dailyLabel |}.

Definition calcResolution (start end_ : time.Time) : resolution :=
  let duration := time.Sub end_ start in
  let day := time.Hour * 24 in
  let year := day * 365 in
  if year * 5 <? duration then yearly
  else if day * 60 <? duration then monthly
  else daily.

Definition tierOf (start end_ : time.Time) : tier :=
  let duration := time.Sub end_ start in
  if time.Hour * 24 * 365 * 5 <? duration then Yearly
  else if time.Hour * 24 * 60 <? duration then Monthly
  else Daily.

Definition resolutionOf (r : tier) : resolution :=
  match r with
  | Yearly => yearly
  | Monthly => monthly
  | Daily => daily
  end.

(** *** TimeBucket.Combine *)

(** One round of the loop over [b.tallies]: [acc] is the receiver's map. *)
Definition mergeEntry (key : string) (tally : Tally)
    (acc : gmap string Tally) : gmap string Tally :=
  match acc !! key with
  | Some existing => <[key := Tally_Combine existing tally]> acc
  | None => <[key := tally]> acc
  end.

Definition TimeBucket_Combine (a b : TimeBucket) (h : heap)
  : outcome (TimeBucket * heap) :=
  if negb (String.eqb (Name a) (Name b)) then
    Panic "cannot combine buckets whose names do not match"
  else if negb (Time a =? Time b) then
    Panic "cannot combine buckets whose times do not match"
  else
    let merged := a in
    let entries := contents h b in
    if bool_decide (entries = ∅) then Done (merged, h)
    else
      match h !! tallies merged with
      | None => Panic "assignment to entry in nil map"
      | Some ma =>
          Done (merged, <[tallies merged := map_fold mergeEntry ma entries]> h)
      end.

(** *** TimeBucket.Rank *)


(** *** TimeSeries.Combine *)

Definition bucketKey (b : TimeBucket) : Z := time.Unix (Time b).

(** The first loop: [buckets[bucket.Time.Unix()] = bucket]. *)
Definition putAll (a : list TimeBucket) (m : gmap Z TimeBucket)
  : gmap Z TimeBucket :=
  foldl (fun m bucket => <[bucketKey bucket := bucket]> m) m a.

(** The second loop. *)
Fixpoint mergeAll (b : list TimeBucket) (m : gmap Z TimeBucket) (h : heap)
  : outcome (gmap Z TimeBucket * heap) :=
  match b with
  | [] => Done (m, h)
  | bucket :: b' =>
      match m !! bucketKey bucket with
      | Some existing =>
          ch ←! TimeBucket_Combine existing bucket h;
          mergeAll b' (<[bucketKey bucket := ch.1]> m) ch.2
      | None => mergeAll b' (<[bucketKey bucket := bucket]> m) h
      end
  end.

(** [slices.Sorted(maps.Keys(buckets))]. *)
Definition sortedKeys (m : gmap Z TimeBucket) : list Z :=
  merge_sort Z.le (map fst (map_to_list m)).

Definition TimeSeries_Combine (a b : list TimeBucket) (h : heap)
  : outcome (list TimeBucket * heap) :=
  mh ←! mergeAll b (putAll a ∅) h;
  Done (omap (fun key => mh.1 !! key) (sortedKeys mh.1), mh.2).

(** *** TallyCommitsByDate *)

(** The loop that makes the empty buckets, [fuel] rounds of it at most. *)
Fixpoint initBuckets (fuel : nat) (res : resolution) (end_ t : time.Time)
    (bs : list TimeBucket) (h : heap) : outcome (list TimeBucket * heap) :=
  match fuel with
  | O => OutOfFuel
  | S fuel' =>
      if time.After end_ t then
        let '(bucket, h') := newBucket (label res t) (apply res t) h in
        initBuckets fuel' res end_ (next res t) (bs ++ [bucket]) h'
      else Done (bs, h)
  end.

(** Every round moves [t] on by a day at least. *)
Definition initFuel (end_ t : time.Time) : nat :=
  (Z.to_nat ((end_ - t) / nsPerDay) + 2)%nat.

(** The loop that skips buckets: [rest] is [buckets[i+1:]]. *)
Fixpoint seek (bucketedCommitTime : time.Time) (i : nat)
    (bucket : TimeBucket) (rest : list TimeBucket)
  : outcome (nat * TimeBucket) :=
  if negb (time.Equal bucketedCommitTime (Time bucket)) then
    match rest with
    | [] => Panic "index out of range"
    | bucket' :: rest' => seek bucketedCommitTime (S i) bucket' rest'
    end
  else Done (i, bucket).

(** The loop over [commit.FileDiffs]. *)
Definition addDiff (tally : Tally) (diff : git.FileDiff) : Tally :=
  {| name := name tally; email := email tally;
     numTallied := numTallied tally;
     added := int_add (added tally) (git.LinesAdded diff);
     removed := int_add (removed tally) (git.LinesRemoved diff);
     fileset := <[git.Path diff := true]> (fileset tally) |}.

(** What one commit does to the map of its bucket. *)
Definition tallyCommit (opts : TallyOpts) (commit : git.Commit)
    (m : gmap string Tally) : gmap string Tally :=
  let key := Key opts commit in
  let tally :=
    match m !! key with
    | Some tally => tally
    | None =>
        {| name := git.AuthorName commit; email := git.AuthorEmail commit;
           numTallied := 0; added := 0; removed := 0; fileset := ∅ |}
    end in
  let tally :=
    {| name := name tally; email := email tally;
       numTallied := int_add (numTallied tally) 1;
       added := added tally; removed := removed tally;
       fileset := fileset tally |} in
  let tally := foldl addDiff tally (git.FileDiffs commit) in
  <[key := tally]> m.

(** The tallying loop, [i] its cursor. *)
Fixpoint tallyLoop (res : resolution) (opts : TallyOpts)
    (bs : list TimeBucket) (i : nat) (commits : stream) (h : heap)
  : outcome TallyResult :=
  match commits with
  | [] => Done {| buckets := bs; err := None; unread := []; store := h |}
  | (_, Some e) :: rest =>
      Done {| buckets := bs;
              err := Some (fmt_Errorf "error iterating commits: " e);
              unread := rest; store := h |}
  | (commit, None) :: rest =>
      let bucketedCommitTime := apply res (git.Date commit) in
      match bs !! i with
      | None => Panic "index out of range"
      | Some bucket =>
          ib ←! (if time.After bucketedCommitTime (Time bucket)
                 then seek bucketedCommitTime i bucket (drop (S i) bs)
                 else Done (i, bucket));
          let '(i, bucket) := ib in
          match h !! tallies bucket with
          | None => Panic "assignment to entry in nil map"
          | Some m =>
              tallyLoop res opts (<[i := bucket]> bs) i rest
                (<[tallies bucket := tallyCommit opts commit m]> h)
          end
      end
  end.

(** The deferred function: it wraps the error of a return. *)
Definition deferred (r : TallyResult) : TallyResult :=
  {| buckets := buckets r;
     err := match err r with
            | Some e =>
                Some (fmt_Errorf "error while tallying commits by date: " e)
            | None => None
            end;
     unread := unread r; store := store r |}.

Definition TallyCommitsByDate (commits : stream) (opts : TallyOpts)
    (end_ : time.Time) (h : heap) : outcome TallyResult :=
  r ←! (if TallyMode_eqb (Mode opts) LastModifiedMode then
          Done {| buckets := [];
                  err := Some (errors_New "Last modified mode not implemented");
                  unread := commits; store := h |}
        else
          match commits with
          | [] =>
              Done {| buckets := []; err := None; unread := []; store := h |}
          | (_, Some e) :: rest =>
              Done {| buckets := []; err := Some e; unread := rest;
                      store := h |}
          | (firstCommit, None) :: rest =>
              let resolution := calcResolution (git.Date firstCommit) end_ in
              let t := apply resolution (git.Date firstCommit) in
              bh ←! initBuckets (initFuel end_ t) resolution end_ t [] h;
              tallyLoop resolution opts bh.1 0 rest bh.2
          end);
  Done (deferred r).

(** *** Notions the statements use *)

(** The bucket starts of a tier, numbered: days since the epoch, months
    and years since year 0, each at local midnight. *)
Definition gridStart (r : tier) (k : Z) : time.Time :=
  match r with
  | Daily => k * nsPerDay - zone * time.Second
  | Monthly => Calendar.monthStart k * nsPerDay - zone * time.Second
  | Yearly => Calendar.monthStart (12 * k) * nsPerDay - zone * time.Second
  end.

(** The number of the bucket a time falls in. *)
Definition gridIndex (r : tier) (t : time.Time) : Z :=
  match r with
  | Daily => localDay t
  | Monthly => Calendar.monthIndex (localDay t)
  | Yearly => Calendar.yearIndex (localDay t)
  end.

(** The empty buckets of a series: [n] of them, from bucket number [k],
    their maps at the addresses from [l] on. *)
Definition gridBucket (r : tier) (k : Z) (l : nat) : TimeBucket :=
  {| Name := label (resolutionOf r) (gridStart r k); Time := gridStart r k;
     Tally_ := FinalTally_zero; TotalTally := FinalTally_zero;
     tallies := l |}.

Fixpoint gridBuckets (r : tier) (k : Z) (l : nat) (n : nat)
  : list TimeBucket :=
  match n with
  | O => []
  | S n' => gridBucket r k l :: gridBuckets r (k + 1) (S l) n'
  end.

(** The commits a stream yields before its first error. *)
Fixpoint okPrefix (s : stream) : list git.Commit :=
  match s with
  | (commit, None) :: s' => commit :: okPrefix s'
  | _ => []
  end.

(** Commits come in the order of their buckets, in the buckets numbered
    from [lo] to below [hi]. *)
Fixpoint inOrder (r : tier) (lo hi : Z) (cs : list git.Commit) : Prop :=
  match cs with
  | [] => True
  | c :: cs' =>
      lo <= gridIndex r (git.Date c) < hi
      /\ inOrder r (gridIndex r (git.Date c)) hi cs'
  end.

(** The map of bucket number [k] after the commits [cs] that fall in it. *)
Definition routeFold (opts : TallyOpts) (r : tier) (cs : list git.Commit)
    (k : Z) (m : gmap string Tally) : gmap string Tally :=
  foldl (fun m c =>
           if gridIndex r (git.Date c) =? k then tallyCommit opts c m else m)
        m cs.

(** The first error a stream yields, and what the stream yields after it. *)
Fixpoint firstErr (s : stream) : option error :=
  match s with
  | [] => None
  | (_, Some e) :: _ => Some e
  | (_, None) :: s' => firstErr s'
  end.

Fixpoint afterErr (s : stream) : stream :=
  match s with
  | [] => []
  | (_, Some _) :: s' => s'
  | (_, None) :: s' => afterErr s'
  end.

(** A stream that yields the commits [cs] and no error. *)
Definition yieldAll (cs : list git.Commit) : stream :=
  map (fun c => (c, None)) cs.

(** The receiver's map after [Combine]: per author key, both tallies
    combined where both maps have the key, else the one there is. *)
Definition mergeMaps (ma mb : gmap string Tally) : gmap string Tally :=
  union_with (fun existing tally => Some (Tally_Combine existing tally)) ma mb.

(** The buckets of a series by time key. *)
Definition byKey (s : list TimeBucket) : gmap Z TimeBucket :=
  list_to_map ((fun b => (bucketKey b, b)) <$> s).

(** Well-formed operands of [Combine]: no two buckets of a series share a
    time key; every bucket has a map of its own; buckets that share a
    time key agree on name and time. *)
Definition distinctKeys (s : list TimeBucket) : Prop :=
  NoDup (bucketKey <$> s).

Definition allocated (h : heap) (s : list TimeBucket) : Prop :=
  Forall (fun x => (tallies x < length h)%nat) s.

Definition separate (s : list TimeBucket) : Prop :=
  NoDup (tallies <$> s).

Definition compatible (s : list TimeBucket) : Prop :=
  forall x y, x ∈ s -> y ∈ s -> bucketKey x = bucketKey y ->
              Name x = Name y /\ Time x = Time y.

(** The map of the bucket with key [k] in [s], empty if there is none. *)
Definition partner (h : heap) (s : list TimeBucket) (k : Z)
  : gmap string Tally :=
  match byKey s !! k with
  | Some y => contents h y
  | None => ∅
  end.

(** What is counted in a tally: commits, lines added, lines removed (as
    Go ints), and the files touched. *)
Abbreviation Counts := (Z * Z * Z * gset string)%type.

Definition counts (t : Tally) : Counts :=
  (wrap (numTallied t), wrap (added t), wrap (removed t), dom (fileset t)).

Definition counts_add (c1 c2 : Counts) : Counts :=
  (int_add c1.1.1.1 c2.1.1.1, int_add c1.1.1.2 c2.1.1.2,
   int_add c1.1.2 c2.1.2, c1.2 ∪ c2.2).

Definition mergeCounts (m1 m2 : gmap string Counts) : gmap string Counts :=
  union_with (fun c1 c2 => Some (counts_add c1 c2)) m1 m2.

(** What a bucket shows of its tallies: name, time, counts by author. *)
Definition shown (h : heap) (b : TimeBucket)
  : string * time.Time * gmap string Counts :=
  (Name b, Time b, counts <$> contents h b).

Definition shownMap (h : heap) (s : list TimeBucket)
  : gmap Z (string * time.Time * gmap string Counts) :=
  shown h <$> byKey s.

Definition mergeShown (v1 v2 : string * time.Time * gmap string Counts)
  : option (string * time.Time * gmap string Counts) :=
  Some (v1.1, mergeCounts v1.2 v2.2).

(** What one commit adds to the counts of its author. *)
Definition commitCounts (c : git.Commit) : Counts :=
  (1,
   wrap (foldr Z.add 0 (git.LinesAdded <$> git.FileDiffs c)),
   wrap (foldr Z.add 0 (git.LinesRemoved <$> git.FileDiffs c)),
   list_to_set (git.Path <$> git.FileDiffs c)).

(** What a commit adds to the bucket numbered [k]: its counts under its
    author key if it falls in the bucket, nothing if not. *)
Definition contrib (opts : TallyOpts) (r : tier) (k : Z) (c : git.Commit)
  : gmap string Counts :=
  if gridIndex r (git.Date c) =? k then {[Key opts c := commitCounts c]}
  else ∅.

(** The counts by author of the commits [cs] that fall in bucket [k]. *)
Definition total (opts : TallyOpts) (r : tier) (k : Z) (cs : list git.Commit)
  : gmap string Counts :=
  foldr (fun c acc => mergeCounts (contrib opts r k c) acc) ∅ cs.

(** *** The program over Go's times, seen from here

    What a commit, a bucket and a result of [Zoned] are when only the
    instants of their times are kept, and the commit an instant stands
    for: one whose date carries [time.Local] and no monotonic reading. *)
Definition eraseCommit (c : Zoned.git.Commit) : git.Commit :=
  {| git.AuthorName := Zoned.git.AuthorName c;
     git.AuthorEmail := Zoned.git.AuthorEmail c;
     git.Date := Zoned.time.inst (Zoned.git.Date c);
     git.FileDiffs := Zoned.git.FileDiffs c |}.

Definition liftCommit (Local : Zoned.time.Location) (c : git.Commit)
  : Zoned.git.Commit :=
  {| Zoned.git.AuthorName := git.AuthorName c;
     Zoned.git.AuthorEmail := git.AuthorEmail c;
     Zoned.git.Date := Zoned.atInstant Local (git.Date c);
     Zoned.git.FileDiffs := git.FileDiffs c |}.

Definition eraseStream (s : Zoned.stream) : stream :=
  map (fun p => (eraseCommit p.1, p.2)) s.

Definition eraseOpts (Local : Zoned.time.Location) (opts : Zoned.TallyOpts)
  : TallyOpts :=
  {| Mode := Zoned.Mode opts;
     Key := fun c => Zoned.Key opts (liftCommit Local c) |}.

Definition eraseBucket (b : Zoned.TimeBucket) : TimeBucket :=
  {| Name := Zoned.Name b; Time := Zoned.time.inst (Zoned.Time b);
     Tally_ := Zoned.Tally_ b; TotalTally := Zoned.TotalTally b;
     tallies := Zoned.tallies b |}.

Definition eraseResult (r : Zoned.TallyResult) : TallyResult :=
  {| buckets := eraseBucket <$> Zoned.buckets r; err := Zoned.err r;
     unread := eraseStream (Zoned.unread r); store := Zoned.store r |}.

(** A time whose Location has the offset [zone] when it is read, and the
    midnight at that offset of the day the time reads as. *)
Definition readsLocal (t : Zoned.time.Time) : Prop :=
  (Zoned.time.lookup (Zoned.time.loc t) (Zoned.time.Unix t)).1.1 = zone.


(** The instant of a commit's date, and a date that carries [Local]. *)
Definition dateOf (c : Zoned.git.Commit) : Z :=
  Zoned.time.inst (Zoned.git.Date c).

Definition datedLocal (Local : Zoned.time.Location) (c : Zoned.git.Commit)
  : Prop :=
  Zoned.plain Local (Zoned.git.Date c).

(** *** Sample data, with UTC for the local zone *)

(** Modelled from the spec: [Tally.Combine] is declared in [tally.go], which
    is not part of the sources.  "Per author key, sum Tallys": the counts
    add up and the file sets unite; the name and email of the receiver
    stay. *)
Definition Tally_Combine_sum (a b : Tally) : Tally :=
  {| name := name a; email := email a;
     numTallied := int_add (numTallied a) (numTallied b);
     added := int_add (added a) (added b);
     removed := int_add (removed a) (removed b);
     fileset := fileset a ∪ fileset b |}.

(** Midnight UTC of a date. *)
Definition utc (year month day : Z) : time.Time :=
  Calendar.daysFromCivil year month day * nsPerDay.

Definition commitBy (author : string) (date : time.Time) : git.Commit :=
  {| git.AuthorName := author;
     git.AuthorEmail := author +:+ "@example.com";
     git.Date := date;
     git.FileDiffs :=
       [ {| git.Path := "main.go"; git.LinesAdded := 3;
            git.LinesRemoved := 1 |} ] |}.

Definition byEmail (mode : TallyMode) : TallyOpts :=
  {| Mode := mode; Key := git.AuthorEmail |}.

(** The example of the spec. *)
Definition jan05 : git.Commit := commitBy "ann" (utc 2024 1 5).
Definition jan20 : git.Commit := commitBy "bob" (utc 2024 1 20).
Definition feb02 : git.Commit := commitBy "ann" (utc 2024 2 2).

(** Two parts of one history that choose different tiers: the whole spans
    100 days to [utc 2024 4 10], the second part nine. *)
Definition partA : list git.Commit :=
  [commitBy "ann" (utc 2024 1 1); commitBy "bob" (utc 2024 1 2)].
Definition partB : list git.Commit :=
  [commitBy "ann" (utc 2024 4 1); commitBy "bob" (utc 2024 4 2)].

(** Two parts of one history in one tier, and the whole in order. *)
Definition first1 : git.Commit := commitBy "ann" (utc 2024 1 1).
Definition rest1 : list git.Commit := [commitBy "bob" (utc 2024 1 3)].
Definition first2 : git.Commit := commitBy "cat" (utc 2024 1 2).
Definition rest2 : list git.Commit := [commitBy "ann" (utc 2024 1 3)].
Definition whole : list git.Commit :=
  [commitBy "cat" (utc 2024 1 2); commitBy "bob" (utc 2024 1 3);
   commitBy "ann" (utc 2024 1 3)].

Definition oneTally (author : string) (n : Z) : Tally :=
  {| name := author; email := author +:+ "@example.com"; numTallied := n;
     added := 2 * n; removed := n; fileset := {[ "main.go" := true ]} |}.

Definition bucketAt (label : string) (t : time.Time) (winner : FinalTally)
    (l : nat) : TimeBucket :=
  {| Name := label; Time := t; Tally_ := winner;
     TotalTally := FinalTally_zero; tallies := l |}.

Definition winnerOf (author : string) (n : Z) : FinalTally :=
  {| AuthorName := author; AuthorEmail := author +:+ "@example.com";
     Commits := n; LinesAdded := 2 * n; LinesRemoved := n; FileCount := 1 |}.

(** Four maps, and three series over them. *)
Definition sampleHeap : heap :=
  [ {[ "ann@example.com" := oneTally "ann" 2 ]};
    {[ "ann@example.com" := oneTally "ann" 1;
       "bob@example.com" := oneTally "bob" 4 ]};
    {[ "bob@example.com" := oneTally "bob" 1 ]};
    {[ "cat@example.com" := oneTally "cat" 5 ]} ]%string.

Definition seriesA : list TimeBucket :=
  [bucketAt "2024-01-01" (utc 2024 1 1) FinalTally_zero 0].
Definition seriesB : list TimeBucket :=
  [bucketAt "2024-01-01" (utc 2024 1 1) FinalTally_zero 1;
   bucketAt "2024-01-02" (utc 2024 1 2) FinalTally_zero 2].
Definition seriesC : list TimeBucket :=
  [bucketAt "2024-01-02" (utc 2024 1 2) FinalTally_zero 3].

(** Two ranked buckets of one day: their cached winners differ. *)
Definition rankedA : TimeBucket :=
  bucketAt "2024-01-01" (utc 2024 1 1) (winnerOf "ann" 2) 0.
Definition rankedB : TimeBucket :=
  bucketAt "2024-01-01" (utc 2024 1 1) (winnerOf "bob" 4) 1.

(** *** Sample data over Go's times *)

(** America/Santiago about its transition of 2024-09-08, when the clocks
    went from 24:00 of the 7th to 01:00 of the 8th: UTC-4 until 04:00 UTC
    of the 8th, UTC-3 from then on.  The other transitions of the zone
    are left out. *)
Definition santiago : Zoned.time.Location :=
  {| Zoned.time.ptr := 1;
     Zoned.time.lookup := fun sec =>
       if sec <? 1725768000 then (-14400, Zoned.time.alpha, 1725768000)
       else (-10800, 1725768000, Zoned.time.omega) |}.

(** A zone seven hours west of UTC, all year. *)
Definition mountain : Zoned.time.Location := Zoned.time.FixedZone 1 (-25200).

(** The time of an instant in a Location, with no monotonic reading. *)
Definition timeIn (l : Zoned.time.Location) (i : Z) : Zoned.time.Time :=
  {| Zoned.time.inst := i; Zoned.time.mono := None; Zoned.time.loc := l |}.

Definition commitIn (l : Zoned.time.Location) (author : string) (i : Z)
  : Zoned.git.Commit :=
  {| Zoned.git.AuthorName := author;
     Zoned.git.AuthorEmail := author +:+ "@example.com";
     Zoned.git.Date := timeIn l i;
     Zoned.git.FileDiffs :=
       [ {| git.Path := "main.go"; git.LinesAdded := 3;
            git.LinesRemoved := 1 |} ] |}.

Definition keyedByEmail (mode : TallyMode) : Zoned.TallyOpts :=
  {| Zoned.Mode := mode; Zoned.Key := Zoned.git.AuthorEmail |}.

(** Midnights of September 2024 in Santiago before the transition, the
    last hour before it (23:00 of the 7th), an afternoon after it (13:00
    of the 8th), and midnight of the 10th. *)
Definition santiagoDay (day : Z) : Zoned.time.Time :=
  timeIn santiago (utc 2024 9 day + 4 * time.Hour).
Definition santiagoLastHour : Zoned.time.Time :=
  timeIn santiago (utc 2024 9 8 + 3 * time.Hour).
Definition santiagoEnd : Zoned.time.Time :=
  timeIn santiago (utc 2024 9 10 + 3 * time.Hour).

(** Two commits whose dates carry UTC, at noon of January 5th and at
    01:00 of January 7th, and midnight of January 7th seven hours west. *)
Definition utcNoon : Zoned.git.Commit :=
  commitIn Zoned.time.UTC "ann" (utc 2024 1 5 + 12 * time.Hour).
Definition utcNight : Zoned.git.Commit :=
  commitIn Zoned.time.UTC "bob" (utc 2024 1 7 + 1 * time.Hour).

(** A bucket over Go's times that holds the map at address [l]. *)
Definition zonedBucketAt (label : string) (t : Zoned.time.Time) (l : nat)
  : Zoned.TimeBucket :=
  {| Zoned.Name := label; Zoned.Time := t; Zoned.Tally_ := FinalTally_zero;
     Zoned.TotalTally := FinalTally_zero; Zoned.tallies := l |}.

(** * Part II: theorems *)

(** ** The calendar *)

Ltac dlia := Z.div_mod_to_equations; lia.

Lemma allFrom_spec check fuel i :
  Calendar.allFrom check fuel i = true ->
  forall k, i <= k < i + Z.of_nat fuel -> check k = true.
Proof.
  revert i. induction fuel as [|f IH]; intros i H k Hk; [lia|].
  simpl in H. apply andb_true_iff in H as [H0 H1].
  destruct (Z.eq_dec k i) as [->|Hne]; [done|].
  apply (IH (i + 1)); [done|lia].
Qed.

(** The year of a day: the day lies in it. *)
Lemma yearDay_spec n (y yd : Z) :
  Calendar.yearDay n = (y, yd) ->
  Calendar.daysSinceEpoch y + yd = n /\
  0 <= yd < 365 + (if Calendar.isLeap y then 1 else 0).
Proof.
  unfold Calendar.yearDay. cbv zeta.
  set (d0 := n + 719162).
  set (n400 := d0 / 146097).
  set (d1 := d0 - 146097 * n400).
  assert (H1 : 0 <= d1 < 146097) by (subst d1 n400; dlia).
  set (c := d1 / 36524).
  assert (Hc : 0 <= c <= 4) by (subst c; dlia).
  set (n100 := c - c / 4).
  assert (Hn100 : 0 <= n100 <= 3 /\ 36524 * n100 <= d1 /\
                  (d1 < 36524 * (n100 + 1) \/ n100 = 3)) by (subst n100 c; dlia).
  set (d2 := d1 - 36524 * n100).
  assert (H2 : 0 <= d2 <= 36524 /\ (d2 < 36524 \/ n100 = 3)) by (subst d2; dlia).
  set (n4 := d2 / 1461).
  assert (Hn4 : 0 <= n4 <= 24) by (subst n4; dlia).
  set (d3 := d2 - 1461 * n4).
  assert (H3 : 0 <= d3 < 1461 /\ (n4 = 24 -> d3 < 1460 \/ n100 = 3))
    by (subst d3 n4; dlia).
  set (e := d3 / 365).
  assert (He : 0 <= e <= 4) by (subst e; dlia).
  set (n1 := e - e / 4).
  assert (Hn1 : 0 <= n1 <= 3 /\ 365 * n1 <= d3 /\
                (d3 < 365 * (n1 + 1) \/ n1 = 3)) by (subst n1 e; dlia).
  intros [= <- <-].
  set (y := 1 + 400 * n400 + 100 * n100 + 4 * n4 + n1).
  assert (Hp4 : (y - 1) / 4 = 100 * n400 + 25 * n100 + n4) by (subst y; dlia).
  assert (Hp100 : (y - 1) / 100 = 4 * n400 + n100) by (subst y; dlia).
  assert (Hp400 : (y - 1) / 400 = n400) by (subst y; dlia).
  assert (Hm4 : y mod 4 = (1 + n1) mod 4) by (subst y; dlia).
  assert (Hm100 : y mod 100 = (1 + 4 * n4 + n1) mod 100) by (subst y; dlia).
  assert (Hm400 : y mod 400 = (1 + 100 * n100 + 4 * n4 + n1) mod 400)
    by (subst y; dlia).
  split.
  - unfold Calendar.daysSinceEpoch. cbv zeta. rewrite Hp4, Hp100, Hp400.
    subst y d3 d2 d1 d0. lia.
  - unfold Calendar.isLeap. rewrite Hm4, Hm100, Hm400.
    destruct (Z.eqb_spec ((1 + n1) mod 4) 0) as [E4|E4];
    destruct (Z.eqb_spec ((1 + 4 * n4 + n1) mod 100) 0) as [E100|E100];
    destruct (Z.eqb_spec ((1 + 100 * n100 + 4 * n4 + n1) mod 400) 0)
      as [E400|E400];
    simpl; dlia.
Qed.

Lemma monthDayOk_all :
  Calendar.allFrom (Calendar.monthDayOk false) 365%nat 0
  && Calendar.allFrom (Calendar.monthDayOk true) 366%nat 0 = true.
Proof. vm_compute. reflexivity. Qed.

Lemma monthDay_spec (leap : bool) yday (m d : Z) :
  0 <= yday < 365 + (if leap then 1 else 0) ->
  Calendar.monthDay leap yday = (m, d) ->
  1 <= m <= 12 /\ 1 <= d /\
  Calendar.daysBefore m + Calendar.leapAdj leap m + (d - 1) = yday /\
  yday < Calendar.daysBefore (m + 1) + Calendar.leapAdj leap (m + 1).
Proof.
  intros Hy Hmd.
  pose proof monthDayOk_all as Hall. apply andb_true_iff in Hall as [Hf Ht].
  assert (Hok : Calendar.monthDayOk leap yday = true).
  { destruct leap.
    - apply (allFrom_spec _ _ _ Ht). lia.
    - apply (allFrom_spec _ _ _ Hf). lia. }
  unfold Calendar.monthDayOk in Hok. rewrite Hmd in Hok.
  repeat (apply andb_true_iff in Hok as [Hok ?]). lia.
Qed.

Lemma daysSinceEpoch_succ y :
  Calendar.daysSinceEpoch (y + 1) =
  Calendar.daysSinceEpoch y + 365 + (if Calendar.isLeap y then 1 else 0).
Proof.
  unfold Calendar.daysSinceEpoch, Calendar.isLeap. cbv zeta.
  replace (y + 1 - 1) with y by lia.
  destruct (Z.eqb_spec (y mod 4) 0); destruct (Z.eqb_spec (y mod 100) 0);
    destruct (Z.eqb_spec (y mod 400) 0); simpl; dlia.
Qed.

(** The month overflows into the year: only [12 * year + month] counts. *)
Lemma daysFromCivil_norm y m d :
  Calendar.daysFromCivil y m d = Calendar.daysFromCivil 0 (12 * y + m) d.
Proof.
  unfold Calendar.daysFromCivil. cbv zeta.
  replace (12 * y + m - 1) with (m - 1 + y * 12) by lia.
  rewrite Z_div_plus_full, Z_mod_plus_full by lia.
  replace (0 + ((m - 1) / 12 + y)) with (y + (m - 1) / 12) by lia.
  reflexivity.
Qed.

Lemma daysFromCivil_month y m d :
  1 <= m <= 13 ->
  Calendar.daysFromCivil y m d =
  Calendar.daysSinceEpoch y + Calendar.daysBefore m
  + Calendar.leapAdj (Calendar.isLeap y) m + (d - 1).
Proof.
  intros Hm. destruct (Z.eq_dec m 13) as [->|Hne].
  - unfold Calendar.daysFromCivil. cbv zeta.
    change ((13 - 1) / 12) with 1. change ((13 - 1) mod 12 + 1) with 1.
    rewrite daysSinceEpoch_succ. unfold Calendar.leapAdj.
    change (3 <=? 1) with false. change (3 <=? 13) with true.
    rewrite !andb_false_r, andb_true_r.
    change (Calendar.daysBefore 1) with 0.
    change (Calendar.daysBefore 13) with 365. lia.
  - unfold Calendar.daysFromCivil. cbv zeta.
    replace ((m - 1) / 12) with 0 by dlia.
    replace ((m - 1) mod 12 + 1) with m by dlia.
    rewrite Z.add_0_r. reflexivity.
Qed.

(** [t.Date()] names the month the day lies in, and the day in it. *)
Lemma civilFromDays_spec n (y m d : Z) :
  Calendar.civilFromDays n = (y, m, d) ->
  1 <= m <= 12 /\ 1 <= d /\ Calendar.daysFromCivil y m d = n /\
  n < Calendar.daysFromCivil y (m + 1) 1.
Proof.
  unfold Calendar.civilFromDays.
  destruct (Calendar.yearDay n) as [y' yd] eqn:Hyd.
  destruct (Calendar.monthDay (Calendar.isLeap y') yd) as [m' d'] eqn:Hmd.
  intros [= -> -> ->].
  apply yearDay_spec in Hyd as [Hn Hr].
  apply monthDay_spec in Hmd as (Hm & Hd & He & Hlt); [|done].
  rewrite !daysFromCivil_month by lia. lia.
Qed.

Lemma daysFromCivil_day y m d :
  Calendar.daysFromCivil y m d = Calendar.daysFromCivil y m 1 + (d - 1).
Proof. unfold Calendar.daysFromCivil. lia. Qed.

Lemma monthStart_civil y m :
  Calendar.daysFromCivil y m 1 = Calendar.monthStart (12 * y + m - 1).
Proof.
  unfold Calendar.monthStart. rewrite daysFromCivil_norm. f_equal. lia.
Qed.

(** No month is shorter than 28 days. *)
Lemma monthStart_step M :
  Calendar.monthStart M + 28 <= Calendar.monthStart (M + 1).
Proof.
  set (q := M / 12). set (r := M mod 12).
  assert (HM : M = 12 * q + r) by (subst q r; dlia).
  assert (Hr : 0 <= r < 12) by (subst r; dlia).
  clearbody q r. subst M.
  replace (12 * q + r) with (12 * q + (r + 1) - 1) at 1 by lia.
  replace (12 * q + r + 1) with (12 * q + (r + 2) - 1) by lia.
  rewrite <- !monthStart_civil, !daysFromCivil_month by lia.
  generalize (Calendar.daysSinceEpoch q). intros e.
  assert (Hcases : r = 0 \/ r = 1 \/ r = 2 \/ r = 3 \/ r = 4 \/ r = 5 \/
                   r = 6 \/ r = 7 \/ r = 8 \/ r = 9 \/ r = 10 \/ r = 11) by lia.
  destruct (Calendar.isLeap q);
    repeat (destruct Hcases as [->|Hcases]; [unfold Calendar.daysBefore, Calendar.leapAdj; simpl; lia|]);
    subst r; unfold Calendar.daysBefore, Calendar.leapAdj; simpl; lia.
Qed.

Lemma monthStart_lt a b :
  a < b -> Calendar.monthStart a < Calendar.monthStart b.
Proof.
  intros Hab.
  assert (H : forall n : nat,
             Calendar.monthStart a < Calendar.monthStart (a + 1 + Z.of_nat n)).
  { induction n as [|n IH].
    - pose proof (monthStart_step a). replace (a + 1 + Z.of_nat 0) with (a + 1) by lia.
      lia.
    - pose proof (monthStart_step (a + 1 + Z.of_nat n)).
      replace (a + 1 + Z.of_nat (S n)) with (a + 1 + Z.of_nat n + 1) by lia. lia. }
  specialize (H (Z.to_nat (b - a - 1))).
  replace (a + 1 + Z.of_nat (Z.to_nat (b - a - 1))) with b in H by lia. done.
Qed.

Lemma monthStart_le a b :
  a <= b -> Calendar.monthStart a <= Calendar.monthStart b.
Proof.
  intros Hab. destruct (Z.eq_dec a b) as [->|]; [lia|].
  pose proof (monthStart_lt a b). lia.
Qed.

Lemma monthIndex_spec n :
  Calendar.monthStart (Calendar.monthIndex n) <= n
  < Calendar.monthStart (Calendar.monthIndex n + 1).
Proof.
  unfold Calendar.monthIndex.
  destruct (Calendar.civilFromDays n) as [[y m] d] eqn:Hc.
  apply civilFromDays_spec in Hc as (Hm & Hd & Hn & Hlt).
  rewrite daysFromCivil_day, monthStart_civil in Hn.
  rewrite monthStart_civil in Hlt.
  replace (12 * y + (m - 1)) with (12 * y + m - 1) by lia.
  replace (12 * y + m - 1 + 1) with (12 * y + (m + 1) - 1) by lia. lia.
Qed.

Lemma yearIndex_spec n :
  Calendar.monthStart (12 * Calendar.yearIndex n) <= n
  < Calendar.monthStart (12 * (Calendar.yearIndex n + 1)).
Proof.
  pose proof (monthIndex_spec n) as Hm.
  unfold Calendar.yearIndex, Calendar.monthIndex in *.
  destruct (Calendar.civilFromDays n) as [[y m] d] eqn:Hc.
  apply civilFromDays_spec in Hc as (Hr & _).
  pose proof (monthStart_le (12 * y) (12 * y + (m - 1))).
  pose proof (monthStart_le (12 * y + (m - 1) + 1) (12 * (y + 1))).
  lia.
Qed.

(** ** Resolutions are grids *)

Lemma localDay_gridStart_raw d :
  localDay (d * nsPerDay - zone * time.Second) = d.
Proof.
  unfold localDay.
  replace (d * nsPerDay - zone * time.Second + zone * time.Second)
    with (d * nsPerDay) by lia.
  apply Z.div_mul. done.
Qed.

Lemma localDay_spec t :
  localDay t * nsPerDay - zone * time.Second <= t
  < (localDay t + 1) * nsPerDay - zone * time.Second.
Proof.
  unfold localDay. generalize (t + zone * time.Second) (zone * time.Second).
  intros u z. assert (Hu : exists t', t' = u - z) by eauto.
  change nsPerDay with 86400000000000. dlia.
Qed.

(** Buckets are a day long at least. *)
Lemma gridStart_step r k : gridStart r k + nsPerDay <= gridStart r (k + 1).
Proof.
  destruct r; unfold gridStart.
  - pose proof (monthStart_lt (12 * k) (12 * (k + 1))).
    change nsPerDay with 86400000000000. lia.
  - pose proof (monthStart_step k). change nsPerDay with 86400000000000. lia.
  - lia.
Qed.

Lemma gridStart_lt r a b : a < b -> gridStart r a < gridStart r b.
Proof.
  intros Hab.
  assert (H : forall n : nat, gridStart r a < gridStart r (a + 1 + Z.of_nat n)).
  { assert (0 < nsPerDay) by done.
    induction n as [|n IH].
    - pose proof (gridStart_step r a).
      replace (a + 1 + Z.of_nat 0) with (a + 1) by lia. lia.
    - pose proof (gridStart_step r (a + 1 + Z.of_nat n)).
      replace (a + 1 + Z.of_nat (S n)) with (a + 1 + Z.of_nat n + 1) by lia.
      lia. }
  specialize (H (Z.to_nat (b - a - 1))).
  replace (a + 1 + Z.of_nat (Z.to_nat (b - a - 1))) with b in H by lia. done.
Qed.

Lemma gridStart_le r a b : a <= b -> gridStart r a <= gridStart r b.
Proof.
  intros Hab. destruct (Z.eq_dec a b) as [->|]; [lia|].
  pose proof (gridStart_lt r a b). lia.
Qed.

Lemma gridStart_lt_inv r a b : gridStart r a < gridStart r b -> a < b.
Proof.
  intros H. destruct (Z_lt_le_dec a b) as [|Hle]; [done|].
  pose proof (gridStart_le r b a Hle). lia.
Qed.

Lemma gridStart_inj r a b : gridStart r a = gridStart r b -> a = b.
Proof.
  intros H. destruct (Z.lt_trichotomy a b) as [Hlt|[->|Hlt]]; [|done|];
    apply (gridStart_lt r) in Hlt; lia.
Qed.

(** A time lies in the bucket of its number. *)
Lemma gridIndex_spec r t :
  gridStart r (gridIndex r t) <= t < gridStart r (gridIndex r t + 1).
Proof.
  pose proof (localDay_spec t) as Ht.
  destruct r; unfold gridStart, gridIndex.
  - pose proof (yearIndex_spec (localDay t)).
    change nsPerDay with 86400000000000 in *. lia.
  - pose proof (monthIndex_spec (localDay t)).
    change nsPerDay with 86400000000000 in *. lia.
  - done.
Qed.

Lemma gridIndex_unique r t k :
  gridStart r k <= t < gridStart r (k + 1) -> gridIndex r t = k.
Proof.
  intros Hk. pose proof (gridIndex_spec r t) as Hi.
  assert (gridIndex r t < k + 1) by (apply (gridStart_lt_inv r); lia).
  assert (k < gridIndex r t + 1) by (apply (gridStart_lt_inv r); lia).
  lia.
Qed.

Lemma gridIndex_start r k : gridIndex r (gridStart r k) = k.
Proof.
  apply gridIndex_unique. pose proof (gridStart_lt r k (k + 1)). lia.
Qed.

Lemma gridIndex_mono r t u : t <= u -> gridIndex r t <= gridIndex r u.
Proof.
  intros Htu. pose proof (gridIndex_spec r t). pose proof (gridIndex_spec r u).
  assert (gridIndex r t < gridIndex r u + 1)
    by (apply (gridStart_lt_inv r); lia).
  lia.
Qed.

(** [apply] truncates to the start of the bucket. *)
Lemma apply_grid r t :
  apply (resolutionOf r) t = gridStart r (gridIndex r t).
Proof.
  destruct r; cbn [resolutionOf apply yearly monthly daily];
    unfold gridStart, gridIndex.
  - unfold yearlyApply, Calendar.yearIndex, Time_Date, time_Date.
    destruct (Calendar.civilFromDays (localDay t)) as [[y m] d].
    rewrite monthStart_civil. do 3 f_equal. lia.
  - unfold monthlyApply, Calendar.monthIndex, Time_Date, time_Date.
    destruct (Calendar.civilFromDays (localDay t)) as [[y m] d].
    rewrite monthStart_civil. do 3 f_equal. lia.
  - unfold dailyApply, Time_Date, time_Date.
    destruct (Calendar.civilFromDays (localDay t)) as [[y m] d] eqn:Hc.
    apply civilFromDays_spec in Hc as (_ & _ & -> & _). done.
Qed.

(** [next] is the start of the bucket after. *)
Lemma rawNext_yearly u k :
  gridIndex Yearly u = k ->
  (let '(year, _, _) := Time_Date u in time_Date (year + 1) 1 1)
  = gridStart Yearly (k + 1).
Proof.
  unfold gridIndex, Calendar.yearIndex, Time_Date, time_Date, gridStart.
  destruct (Calendar.civilFromDays (localDay u)) as [[y m] d].
  intros <-. rewrite monthStart_civil. do 3 f_equal. lia.
Qed.

Lemma rawNext_monthly u k :
  gridIndex Monthly u = k ->
  (let '(year, month, _) := Time_Date u in time_Date year (month + 1) 1)
  = gridStart Monthly (k + 1).
Proof.
  unfold gridIndex, Calendar.monthIndex, Time_Date, time_Date, gridStart.
  destruct (Calendar.civilFromDays (localDay u)) as [[y m] d].
  intros <-. rewrite monthStart_civil. do 3 f_equal. lia.
Qed.

Lemma rawNext_daily u k :
  gridIndex Daily u = k ->
  (let '(year, month, day) := Time_Date u in time_Date year month (day + 1))
  = gridStart Daily (k + 1).
Proof.
  unfold gridIndex, Time_Date, time_Date, gridStart.
  destruct (Calendar.civilFromDays (localDay u)) as [[y m] d] eqn:Hc.
  apply civilFromDays_spec in Hc as (_ & _ & Hn & _).
  intros <-. rewrite daysFromCivil_day in *. lia.
Qed.

Lemma next_grid r t :
  next (resolutionOf r) t = gridStart r (gridIndex r t + 1).
Proof.
  pose proof (apply_grid r t) as Ha.
  destruct r; cbn [resolutionOf next apply yearly monthly daily] in *.
  - unfold yearlyNext. cbv zeta. rewrite Ha.
    apply rawNext_yearly, gridIndex_start.
  - unfold monthlyNext. cbv zeta. rewrite Ha.
    apply rawNext_monthly, gridIndex_start.
  - unfold dailyNext. cbv zeta. rewrite Ha.
    apply rawNext_daily, gridIndex_start.
Qed.

Lemma calcResolution_tier start end_ :
  calcResolution start end_ = resolutionOf (tierOf start end_).
Proof.
  unfold calcResolution, tierOf. cbv zeta.
  destruct (_ <? _); [done|]. destruct (_ <? _); done.
Qed.

Lemma apply_le r t : apply (resolutionOf r) t <= t.
Proof. rewrite apply_grid. apply gridIndex_spec. Qed.

Lemma next_gt r t : t < next (resolutionOf r) t.
Proof. rewrite next_grid. apply gridIndex_spec. Qed.

Lemma apply_idemp r t :
  apply (resolutionOf r) (apply (resolutionOf r) t) = apply (resolutionOf r) t.
Proof. by rewrite !apply_grid, gridIndex_start. Qed.

Lemma apply_mono r t u :
  t <= u -> apply (resolutionOf r) t <= apply (resolutionOf r) u.
Proof.
  intros Htu. rewrite !apply_grid. by apply gridStart_le, gridIndex_mono.
Qed.

Lemma gridStart_sample r :
  gridStart r (gridIndex r (32 * nsPerDay - zone * time.Second))
  = match r with Yearly => 0 | Monthly => 31 | Daily => 32 end * nsPerDay
    - zone * time.Second.
Proof.
  assert (Hy : Calendar.monthStart (12 * Calendar.yearIndex 32) = 0)
    by (vm_compute; reflexivity).
  assert (Hm : Calendar.monthStart (Calendar.monthIndex 32) = 31)
    by (vm_compute; reflexivity).
  destruct r; unfold gridStart, gridIndex; rewrite localDay_gridStart_raw.
  - by rewrite Hy.
  - by rewrite Hm.
  - reflexivity.
Qed.

Lemma resolutionOf_inj r1 r2 : resolutionOf r1 = resolutionOf r2 -> r1 = r2.
Proof.
  intros H.
  assert (Ha : gridStart r1 (gridIndex r1 (32 * nsPerDay - zone * time.Second))
               = gridStart r2 (gridIndex r2 (32 * nsPerDay - zone * time.Second))).
  { rewrite <- !apply_grid. by rewrite H. }
  rewrite !gridStart_sample in Ha. clear H.
  revert Ha. change nsPerDay with 86400000000000.
  destruct r1, r2; intros Ha; first [reflexivity | exfalso; lia].
Qed.

(** ** The empty buckets *)

Lemma gridBuckets_length r k l n : length (gridBuckets r k l n) = n.
Proof. revert k l. induction n as [|n IH]; intros; simpl; [done|]. by rewrite IH. Qed.

Lemma gridBucket_eq r k k' (l l' : nat) :
  k = k' -> l = l' -> gridBucket r k l = gridBucket r k' l'.
Proof. by intros -> ->. Qed.

Lemma gridBuckets_eq r k k' (l l' n n' : nat) :
  k = k' -> l = l' -> n = n' -> gridBuckets r k l n = gridBuckets r k' l' n'.
Proof. by intros -> -> ->. Qed.

Lemma gridBuckets_lookup r k l n (j : nat) :
  (j < n)%nat ->
  gridBuckets r k l n !! j = Some (gridBucket r (k + Z.of_nat j) (l + j)).
Proof.
  revert k l j. induction n as [|n IH]; intros k l j Hj; [lia|].
  destruct j as [|j]; cbn [gridBuckets lookup list_lookup].
  - f_equal. apply gridBucket_eq; lia.
  - rewrite IH by lia. f_equal. apply gridBucket_eq; lia.
Qed.

Lemma gridBuckets_snoc r k l n :
  gridBuckets r k l (S n) =
  gridBuckets r k l n ++ [gridBucket r (k + Z.of_nat n) (l + n)].
Proof.
  revert k l. induction n as [|n IH]; intros k l.
  - cbn [gridBuckets app]. f_equal. apply gridBucket_eq; lia.
  - change (gridBuckets r k l (S (S n)))
      with (gridBucket r k l :: gridBuckets r (k + 1) (S l) (S n)).
    rewrite IH. cbn [gridBuckets app]. do 3 f_equal.
    apply gridBucket_eq; lia.
Qed.

Lemma gridBuckets_drop r k l n (i : nat) :
  drop i (gridBuckets r k l n) =
  gridBuckets r (k + Z.of_nat i) (l + i) (n - i).
Proof.
  revert k l i. induction n as [|n IH]; intros k l i.
  - cbn [gridBuckets Nat.sub]. by rewrite drop_nil.
  - destruct i as [|i]; cbn [drop gridBuckets Nat.sub].
    + symmetry. apply (gridBuckets_eq r _ _ _ _ (S n - 0) (S n)); lia.
    + rewrite IH. apply gridBuckets_eq; lia.
Qed.

Lemma apply_gridStart r k :
  apply (resolutionOf r) (gridStart r k) = gridStart r k.
Proof. by rewrite apply_grid, gridIndex_start. Qed.

Lemma next_gridStart r k :
  next (resolutionOf r) (gridStart r k) = gridStart r (k + 1).
Proof. by rewrite next_grid, gridIndex_start. Qed.

(** The loop that makes the buckets ends, and makes the buckets of the
    grid that start before [end_]. *)
Lemma initBuckets_grid r end_ fuel k bs h :
  (Z.to_nat ((end_ - gridStart r k + nsPerDay - 1) / nsPerDay) + 1 <= fuel)%nat ->
  exists n : nat,
    initBuckets fuel (resolutionOf r) end_ (gridStart r k) bs h
    = Done (bs ++ gridBuckets r k (length h) n, h ++ replicate n ∅)
    /\ (forall j, 0 <= j < Z.of_nat n -> gridStart r (k + j) < end_)
    /\ end_ <= gridStart r (k + Z.of_nat n).
Proof.
  revert k bs h. induction fuel as [|fuel IH]; intros k bs h Hfuel; [lia|].
  simpl. unfold time.After.
  destruct (Z.ltb_spec (gridStart r k) end_) as [Hlt|Hge].
  - rewrite apply_gridStart, next_gridStart.
    pose proof (gridStart_step r k) as Hstep.
    destruct (IH (k + 1)
                (bs ++ [{| Name := label (resolutionOf r) (gridStart r k);
                           Time := gridStart r k;
                           Tally_ := FinalTally_zero;
                           TotalTally := FinalTally_zero;
                           tallies := length h |}])
                (h ++ [∅])) as (n & Hrun & Hin & Hout).
    { revert Hfuel Hstep Hlt. change nsPerDay with 86400000000000.
      generalize (gridStart r (k + 1)) (gridStart r k). intros a b ? ? ?.
      assert ((end_ - a + 86400000000000 - 1) / 86400000000000
              < (end_ - b + 86400000000000 - 1) / 86400000000000) by dlia.
      assert (0 < (end_ - b + 86400000000000 - 1) / 86400000000000) by dlia.
      lia. }
    exists (S n). split; [|split].
    + rewrite Hrun. rewrite length_app. simpl.
      rewrite <- !app_assoc. simpl.
      replace (length h + 1)%nat with (S (length h)) by lia. done.
    + intros j Hj. destruct (Z.eq_dec j 0) as [->|Hne].
      * by rewrite Z.add_0_r.
      * replace (k + j) with (k + 1 + (j - 1)) by lia. apply Hin. lia.
    + replace (k + Z.of_nat (S n)) with (k + 1 + Z.of_nat n) by lia. done.
  - exists 0%nat. split; [|split].
    + simpl. by rewrite !app_nil_r.
    + intros j Hj. lia.
    + by rewrite Z.add_0_r.
Qed.

(** ** The tallying loop *)

Lemma seek_lookup bct i b rest i' b' :
  seek bct i b rest = Done (i', b') ->
  exists j : nat, i' = (i + j)%nat /\ (b :: rest) !! j = Some b'.
Proof.
  revert i b. induction rest as [|b1 rest IH]; intros i b; simpl.
  - destruct (negb _); [done|]. intros [= <- <-]. exists 0%nat. split; [lia|done].
  - destruct (negb _).
    + intros (j & -> & Hj)%IH. exists (S j). split; [lia|done].
    + intros [= <- <-]. exists 0%nat. split; [lia|done].
Qed.

Lemma seek_fuel bct i b rest : seek bct i b rest <> OutOfFuel.
Proof.
  revert i b. induction rest as [|b1 rest IH]; intros i b; simpl;
    destruct (negb _); first [done | apply IH].
Qed.

(** The cursor stops on a bucket of the list: [buckets[i] = bucket] writes
    back what it read. *)
Lemma route_lookup bct (bs : list TimeBucket) i b i' b' :
  bs !! i = Some b ->
  (if time.After bct (Time b) then seek bct i b (drop (S i) bs)
   else Done (i, b)) = Done (i', b') ->
  bs !! i' = Some b'.
Proof.
  intros Hb. destruct (time.After _ _).
  - intros (j & -> & Hj)%seek_lookup.
    rewrite <- Hj. destruct j as [|j].
    + by rewrite Nat.add_0_r.
    + simpl. rewrite lookup_drop. f_equal. lia.
  - by intros [= <- <-].
Qed.

(** The loop leaves the list of buckets as it is: it writes to the maps. *)
Lemma tallyLoop_buckets res opts bs i s h r :
  tallyLoop res opts bs i s h = Done r -> buckets r = bs.
Proof.
  revert i h. induction s as [|[c [e|]] s IH]; intros i h; simpl.
  - by intros [= <-].
  - by intros [= <-].
  - destruct (bs !! i) as [b|] eqn:Hb; [|done].
    destruct (if time.After _ _ then _ else _) as [[i' b']| |] eqn:Hr; try done.
    simpl. apply (route_lookup _ _ _ _ _ _ Hb) in Hr.
    destruct (h !! tallies b') as [m|]; [|done].
    rewrite list_insert_id by done. apply IH.
Qed.

Lemma tallyLoop_fuel res opts bs i s h :
  tallyLoop res opts bs i s h <> OutOfFuel.
Proof.
  revert bs i h. induction s as [|[c [e|]] s IH]; intros bs i h; simpl; try done.
  destruct (bs !! i) as [b|]; [|done].
  destruct (time.After _ _).
  - destruct (seek _ _ _ _) as [[i' b']| |] eqn:Hs; simpl; try done.
    + destruct (h !! tallies b'); [apply IH|done].
    + by apply seek_fuel in Hs.
  - simpl. destruct (h !! tallies b); [apply IH|done].
Qed.

Lemma Time_gridBucket r k l : Time (gridBucket r k l) = gridStart r k.
Proof. reflexivity. Qed.

Lemma seek_grid r ki (m : nat) kb lb i :
  kb <= ki < kb + Z.of_nat (S m) ->
  seek (gridStart r ki) i (gridBucket r kb lb)
       (gridBuckets r (kb + 1) (S lb) m)
  = Done ((i + Z.to_nat (ki - kb))%nat,
          gridBucket r ki (lb + Z.to_nat (ki - kb))).
Proof.
  revert kb lb i. induction m as [|m IH]; intros kb lb i Hk.
  - assert (ki = kb) as -> by lia.
    cbn [seek gridBuckets]. rewrite Time_gridBucket. unfold time.Equal.
    rewrite Z.eqb_refl. cbn [negb]. rewrite Z.sub_diag.
    change (Z.to_nat 0) with 0%nat. by rewrite !Nat.add_0_r.
  - cbn [seek gridBuckets]. rewrite Time_gridBucket. unfold time.Equal.
    destruct (Z.eqb_spec (gridStart r ki) (gridStart r kb)) as [He|Hne];
      cbn [negb].
    + apply gridStart_inj in He as ->. rewrite Z.sub_diag.
      change (Z.to_nat 0) with 0%nat. by rewrite !Nat.add_0_r.
    + assert (ki <> kb) by congruence.
      rewrite IH by lia. do 2 f_equal; [lia|].
      apply gridBucket_eq; lia.
Qed.

(** In a grid, the cursor stops on the bucket of the commit. *)
Lemma route_grid r k l (n i : nat) ki :
  k + Z.of_nat i <= ki < k + Z.of_nat n ->
  (if time.After (gridStart r ki) (Time (gridBucket r (k + Z.of_nat i) (l + i)))
   then seek (gridStart r ki) i (gridBucket r (k + Z.of_nat i) (l + i))
             (drop (S i) (gridBuckets r k l n))
   else Done (i, gridBucket r (k + Z.of_nat i) (l + i)))
  = Done (Z.to_nat (ki - k), gridBucket r ki (l + Z.to_nat (ki - k))).
Proof.
  intros Hk. rewrite Time_gridBucket. unfold time.After.
  destruct (Z.ltb_spec (gridStart r (k + Z.of_nat i)) (gridStart r ki))
    as [Hlt|Hge].
  - rewrite gridBuckets_drop.
    assert (exists m : nat, (n - S i)%nat = m) as [m Hm] by eauto.
    rewrite Hm.
    rewrite (gridBuckets_eq r (k + Z.of_nat (S i)) (k + Z.of_nat i + 1)
               (l + S i) (S (l + i)) m m) by lia.
    rewrite seek_grid by lia. do 2 f_equal; [lia|].
    apply gridBucket_eq; lia.
  - assert (ki = k + Z.of_nat i) as ->.
    { destruct (Z.eq_dec ki (k + Z.of_nat i)); [done|].
      pose proof (gridStart_lt r (k + Z.of_nat i) ki). lia. }
    do 2 f_equal; [lia|]. apply gridBucket_eq; lia.
Qed.

Lemma routeFold_cons opts r c cs k m :
  routeFold opts r (c :: cs) k m =
  routeFold opts r cs k
    (if gridIndex r (git.Date c) =? k then tallyCommit opts c m else m).
Proof. reflexivity. Qed.

(** Commits in the order of their buckets are each tallied in the bucket
    they fall in, and the loop does not panic. *)
Lemma tallyLoop_inOrder r opts k l (n i : nat) s h :
  (l + n <= length h)%nat ->
  inOrder r (k + Z.of_nat i) (k + Z.of_nat n) (okPrefix s) ->
  exists res,
    tallyLoop (resolutionOf r) opts (gridBuckets r k l n) i s h = Done res
    /\ buckets res = gridBuckets r k l n
    /\ err res = fmt_Errorf "error iterating commits: " <$> firstErr s
    /\ unread res = afterErr s
    /\ length (store res) = length h
    /\ forall (a : nat) m, h !! a = Some m ->
         store res !! a =
         Some (if decide (l <= a < l + n)%nat
               then routeFold opts r (okPrefix s) (k + Z.of_nat (a - l)) m
               else m).
Proof.
  intros Hlen. revert i h Hlen.
  induction s as [|[c [e|]] s IH]; intros i h Hlen Hord.
  - eexists. split; [reflexivity|]. repeat split; try done.
    intros a m Ha. cbn [store]. rewrite Ha. by destruct (decide _).
  - eexists. split; [reflexivity|]. repeat split; try done.
    intros a m Ha. cbn [store]. rewrite Ha. by destruct (decide _).
  - cbn [okPrefix inOrder] in Hord. destruct Hord as [Hk Hord].
    set (ki := gridIndex r (git.Date c)) in *.
    set (j := Z.to_nat (ki - k)).
    assert (Hj : ki = k + Z.of_nat j) by lia.
    assert (Hjn : (j < n)%nat) by lia.
    cbn [tallyLoop]. rewrite gridBuckets_lookup by lia.
    rewrite apply_grid. fold ki.
    rewrite route_grid by lia. cbn [bind gridBucket tallies]. fold j.
    destruct (lookup_lt_is_Some_2 h (l + j)) as [m0 Hm0]; [lia|].
    rewrite Hm0.
    rewrite list_insert_id
      by (rewrite gridBuckets_lookup by lia; f_equal;
          apply gridBucket_eq; lia).
    destruct (IH j (<[(l + j)%nat := tallyCommit opts c m0]> h))
      as (res & Hrun & Hbs & Herr & Hun & Hl & Hst).
    { by rewrite length_insert. }
    { by rewrite <- Hj. }
    exists res. split; [done|]. repeat split; try done.
    { by rewrite Hl, length_insert. }
    intros a m Ha. cbn [okPrefix]. rewrite routeFold_cons. fold ki.
    destruct (decide (a = (l + j)%nat)) as [->|Hne].
    + rewrite (Hst (l + j)%nat (tallyCommit opts c m0))
        by (by rewrite list_lookup_insert_eq by lia).
      assert (m = m0) as -> by congruence.
      destruct (decide _) as [_|Hout]; [|lia].
      replace (k + Z.of_nat (l + j - l)) with ki by lia.
      by rewrite Z.eqb_refl.
    + rewrite (Hst a m) by (by rewrite list_lookup_insert_ne).
      destruct (decide _) as [Hin|Hout]; [|done].
      destruct (Z.eqb_spec ki (k + Z.of_nat (a - l))); [lia|done].
Qed.

(** ** TallyCommitsByDate *)

Lemma initFuel_enough end_ t :
  (Z.to_nat ((end_ - t + nsPerDay - 1) / nsPerDay) + 1 <= initFuel end_ t)%nat.
Proof.
  unfold initFuel. change nsPerDay with 86400000000000.
  assert ((end_ - t + 86400000000000 - 1) / 86400000000000
          <= (end_ - t) / 86400000000000 + 1) by dlia.
  lia.
Qed.

(** After a first commit the call makes the buckets of the grid from the
    bucket of that commit to [end_], and runs the tallying loop on the
    rest of the stream. *)
Lemma TallyCommitsByDate_grid c0 rest opts end_ h :
  TallyMode_eqb (Mode opts) LastModifiedMode = false ->
  let r := tierOf (git.Date c0) end_ in
  let k := gridIndex r (git.Date c0) in
  exists n : nat,
    (forall j, 0 <= j < Z.of_nat n -> gridStart r (k + j) < end_)
    /\ end_ <= gridStart r (k + Z.of_nat n)
    /\ TallyCommitsByDate ((c0, None) :: rest) opts end_ h
       = (res ←! tallyLoop (resolutionOf r) opts
                   (gridBuckets r k (length h) n) 0 rest
                   (h ++ replicate n ∅);
          Done (deferred res)).
Proof.
  intros Hmode r k. unfold TallyCommitsByDate. rewrite Hmode.
  rewrite calcResolution_tier. fold r. rewrite apply_grid. fold k.
  destruct (initBuckets_grid r end_ (initFuel end_ (gridStart r k)) k [] h
              (initFuel_enough _ _)) as (n & Hrun & Hin & Hout).
  exists n. split; [done|]. split; [done|]. by rewrite Hrun.
Qed.

Lemma TallyCommitsByDate_fuel s opts end_ h :
  TallyCommitsByDate s opts end_ h <> OutOfFuel.
Proof.
  destruct (TallyMode_eqb (Mode opts) LastModifiedMode) eqn:Hmode.
  - unfold TallyCommitsByDate. by rewrite Hmode.
  - destruct s as [|[c0 [e|]] rest].
    + unfold TallyCommitsByDate. by rewrite Hmode.
    + unfold TallyCommitsByDate. by rewrite Hmode.
    + destruct (TallyCommitsByDate_grid c0 rest opts end_ h Hmode)
        as (n & _ & _ & ->).
      pose proof (tallyLoop_fuel
                    (resolutionOf (tierOf (git.Date c0) end_)) opts
                    (gridBuckets (tierOf (git.Date c0) end_)
                       (gridIndex (tierOf (git.Date c0) end_) (git.Date c0))
                       (length h) n) 0 rest (h ++ replicate n ∅)) as Hf.
      destruct (tallyLoop _ _ _ _ _ _); done.
Qed.

Lemma TallyMode_eqb_eq a b : TallyMode_eqb a b = true <-> a = b.
Proof. destruct a, b; simpl; split; congruence. Qed.

(** C4.  With [opts.Mode == LastModifiedMode] the call returns at once:
    no buckets, the error "Last modified mode not implemented" (wrapped by
    the deferred function), and nothing pulled from the stream; the maps
    are as they were. *)
Theorem C4_last_modified_mode_fails_at_once s opts end_ h :
  Mode opts = LastModifiedMode ->
  TallyCommitsByDate s opts end_ h
  = Done {| buckets := [];
            err := Some (fmt_Errorf "error while tallying commits by date: "
                           (errors_New "Last modified mode not implemented"));
            unread := s;
            store := h |}.
Proof.
  intros Hmode. unfold TallyCommitsByDate. rewrite Hmode. reflexivity.
Qed.

Lemma tallyLoop_error_after res opts bs i cs c e post h :
  tallyLoop res opts bs i (yieldAll cs ++ (c, Some e) :: post) h
  = match tallyLoop res opts bs i (yieldAll cs) h with
    | Done r =>
        Done {| buckets := buckets r;
                err := Some (fmt_Errorf "error iterating commits: " e);
                unread := post;
                store := store r |}
    | other => other
    end.
Proof.
  revert bs i h. induction cs as [|c1 cs IH]; intros bs i h; [done|].
  cbn [yieldAll map app tallyLoop]. fold (yieldAll cs).
  destruct (bs !! i) as [b|]; [|done].
  destruct (if time.After _ _ then _ else _) as [[i' b']| |]; try done.
  cbn [bind]. destruct (h !! tallies b') as [m|]; [|done].
  apply IH.
Qed.

(** C5.  When the stream yields an error after a first commit and the
    commits [cs], the call returns the buckets and maps that tallying
    [cs] alone leaves, with the error wrapped as "error iterating
    commits: " (and by the deferred function). *)
Theorem C5_stream_error_keeps_buckets c0 cs c e post opts end_ h :
  Mode opts <> LastModifiedMode ->
  TallyCommitsByDate ((c0, None) :: yieldAll cs ++ (c, Some e) :: post)
    opts end_ h
  = match TallyCommitsByDate ((c0, None) :: yieldAll cs) opts end_ h with
    | Done r =>
        Done {| buckets := buckets r;
                err := Some (fmt_Errorf "error while tallying commits by date: "
                               (fmt_Errorf "error iterating commits: " e));
                unread := post;
                store := store r |}
    | other => other
    end.
Proof.
  intros Hmode.
  assert (Hm : TallyMode_eqb (Mode opts) LastModifiedMode = false).
  { destruct (TallyMode_eqb _ _) eqn:E; [|done].
    by apply TallyMode_eqb_eq in E. }
  destruct (TallyCommitsByDate_grid c0 (yieldAll cs) opts end_ h Hm)
    as (n & Hin & Hout & ->).
  destruct (TallyCommitsByDate_grid c0 (yieldAll cs ++ (c, Some e) :: post)
              opts end_ h Hm) as (n' & Hin' & Hout' & ->).
  assert (n' = n) as ->.
  { destruct (Nat.lt_trichotomy n' n) as [Hlt|[->|Hlt]]; [|done|].
    - specialize (Hin (Z.of_nat n')). lia.
    - specialize (Hin' (Z.of_nat n)). lia. }
  rewrite tallyLoop_error_after.
  destruct (tallyLoop _ _ _ _ (yieldAll cs) _); done.
Qed.

Lemma iter_next_grid r k (j : nat) :
  Nat.iter j (next (resolutionOf r)) (gridStart r k)
  = gridStart r (k + Z.of_nat j).
Proof.
  induction j as [|j IH].
  - by rewrite Z.add_0_r.
  - cbn [Nat.iter nat_rect]. change (nat_rect _ _ _ j) with
      (Nat.iter j (next (resolutionOf r)) (gridStart r k)).
    rewrite IH, next_gridStart. f_equal. lia.
Qed.

Lemma Unix_gridStart_lt r a b :
  a < b -> time.Unix (gridStart r a) < time.Unix (gridStart r b).
Proof.
  intros Hab. pose proof (gridStart_step r a) as Hstep.
  pose proof (gridStart_le r (a + 1) b ltac:(lia)) as Hle.
  revert Hstep Hle. unfold time.Unix.
  generalize (gridStart r a) (gridStart r (a + 1)) (gridStart r b).
  intros x y z. change nsPerDay with 86400000000000.
  change time.Second with 1000000000. intros. dlia.
Qed.

Lemma gridBuckets_elem r k l n b :
  b ∈ gridBuckets r k l n ->
  exists j : nat, (j < n)%nat /\ b = gridBucket r (k + Z.of_nat j) (l + j).
Proof.
  intros (j & Hj)%list_elem_of_lookup.
  pose proof (lookup_lt_Some _ _ _ Hj) as Hlt.
  rewrite gridBuckets_length in Hlt.
  rewrite gridBuckets_lookup in Hj by done. exists j. split; congruence.
Qed.

Lemma gridBuckets_sorted r (f : time.Time -> Z) k l n :
  (forall a b, a < b -> f (gridStart r a) < f (gridStart r b)) ->
  StronglySorted Z.lt ((fun b => f (Time b)) <$> gridBuckets r k l n).
Proof.
  intros Hf. revert k l. induction n as [|n IH]; intros k l;
    cbn [gridBuckets fmap list_fmap]; constructor.
  - apply IH.
  - apply Forall_fmap, Forall_forall. intros b (j & _ & ->)%gridBuckets_elem.
    cbn [compose]. rewrite !Time_gridBucket. apply Hf. lia.
Qed.

(** C6.  The buckets of a returned series ascend strictly in time, have
    pairwise different time keys, and leave no gap: the first is the
    bucket of the first commit, each next one is [next] of the one before,
    labelled by [label]; all start before [end_], and the bucket after the
    last would not. *)
Theorem C6_buckets_ascending_no_gaps s opts end_ h res :
  TallyCommitsByDate s opts end_ h = Done res ->
  StronglySorted Z.lt (Time <$> buckets res)
  /\ StronglySorted Z.lt (bucketKey <$> buckets res)
  /\ NoDup (bucketKey <$> buckets res)
  /\ forall c0 rest,
       s = (c0, None) :: rest -> Mode opts <> LastModifiedMode ->
       let rs := calcResolution (git.Date c0) end_ in
       (forall (j : nat) b,
           buckets res !! j = Some b ->
           Time b = Nat.iter j (next rs) (apply rs (git.Date c0))
           /\ Name b = label rs (Time b)
           /\ Time b < end_)
       /\ end_ <= Nat.iter (length (buckets res)) (next rs)
                    (apply rs (git.Date c0)).
Proof.
  intros Hrun.
  assert (Hcases :
    (buckets res = []
     /\ forall c0 rest, s = (c0, None) :: rest -> Mode opts = LastModifiedMode)
    \/ exists c0 rest r k (n : nat) l,
         s = (c0, None) :: rest
         /\ r = tierOf (git.Date c0) end_ /\ k = gridIndex r (git.Date c0)
         /\ buckets res = gridBuckets r k l n
         /\ (forall j, 0 <= j < Z.of_nat n -> gridStart r (k + j) < end_)
         /\ end_ <= gridStart r (k + Z.of_nat n)).
  { destruct (TallyMode_eqb (Mode opts) LastModifiedMode) eqn:Hmode.
    - left. unfold TallyCommitsByDate in Hrun. rewrite Hmode in Hrun.
      injection Hrun as <-. split; [done|].
      intros _ _ _. by apply TallyMode_eqb_eq.
    - destruct s as [|[c0 [e|]] rest].
      + left. unfold TallyCommitsByDate in Hrun. rewrite Hmode in Hrun.
        by injection Hrun as <-.
      + left. unfold TallyCommitsByDate in Hrun. rewrite Hmode in Hrun.
        by injection Hrun as <-.
      + right.
        destruct (TallyCommitsByDate_grid c0 rest opts end_ h Hmode)
          as (n & Hin & Hout & Heq).
        rewrite Heq in Hrun.
        destruct (tallyLoop _ _ _ _ _ _) as [r0| |] eqn:Hloop; try done.
        apply tallyLoop_buckets in Hloop. injection Hrun as <-.
        exists c0, rest, (tierOf (git.Date c0) end_),
          (gridIndex (tierOf (git.Date c0) end_) (git.Date c0)), n, (length h).
        repeat split; done. }
  destruct Hcases as [[Hnil Hvac]|(c0 & rest & r & k & n & l & -> & Hr & Hk
                                   & Hbs & Hin & Hout)].
  - rewrite Hnil. do 3 (split; [constructor|]).
    intros c0 rest Hs Hmode. by specialize (Hvac _ _ Hs).
  - rewrite Hbs. split; [|split; [|split]].
    + apply (gridBuckets_sorted r (fun t => t)). apply gridStart_lt.
    + apply (gridBuckets_sorted r time.Unix). apply Unix_gridStart_lt.
    + pose proof (gridBuckets_sorted r time.Unix k l n (Unix_gridStart_lt r))
        as Hs.
      change (bucketKey <$> gridBuckets r k l n)
        with ((fun b => time.Unix (Time b)) <$> gridBuckets r k l n).
      revert Hs. generalize ((fun b => time.Unix (Time b)) <$> gridBuckets r k l n).
      intros ks Hs. induction Hs as [|x ks Hs IH Hall]; constructor; [|done].
      intros Hx. rewrite Forall_forall in Hall. specialize (Hall x Hx). lia.
    + intros c0' rest' [= <- <-] _ rs. subst rs.
      rewrite calcResolution_tier, apply_grid, <- Hr, <- Hk.
      split.
      * intros j b Hj. pose proof (lookup_lt_Some _ _ _ Hj) as Hlt.
        rewrite gridBuckets_length in Hlt.
        rewrite gridBuckets_lookup in Hj by done. injection Hj as <-.
        rewrite iter_next_grid, Time_gridBucket.
        split; [done|]. split; [done|]. apply Hin. lia.
      * by rewrite gridBuckets_length, iter_next_grid.
Qed.

Lemma inOrder_sorted r hi end_ t0 cs :
  Sorted Z.le (t0 :: (git.Date <$> cs)) ->
  Forall (fun c => git.Date c < end_) cs ->
  end_ <= gridStart r hi ->
  inOrder r (gridIndex r t0) hi cs.
Proof.
  intros Hs Hall Hend. revert t0 Hs.
  induction Hall as [|c cs Hc Hall IH]; intros t0 Hs; [done|].
  cbn [fmap list_fmap] in Hs.
  apply Sorted_inv in Hs as [Hs Hhd]. apply HdRel_inv in Hhd.
  cbn [inOrder]. split; [|by apply IH].
  split; [by apply gridIndex_mono|].
  apply (gridStart_lt_inv r). pose proof (gridIndex_spec r (git.Date c)). lia.
Qed.

Lemma inOrder_bounds r lo hi cs c :
  inOrder r lo hi cs -> c ∈ cs -> lo <= gridIndex r (git.Date c) < hi.
Proof.
  revert lo. induction cs as [|c1 cs IH]; intros lo Hord Hc.
  - by apply elem_of_nil in Hc.
  - destruct Hord as [Hb Hord].
    apply elem_of_cons in Hc as [->|Hc]; [done|].
    specialize (IH _ Hord Hc). lia.
Qed.


(** At a fixed offset [calcResolution] returns one of the three tiers and
    only one;
    truncating after advancing is advancing after truncating, for every
    time, and truncation is idempotent and never moves a time forward. *)
Lemma one_tier_apply_next_commute start end_ t :
  let rs := calcResolution start end_ in
  (exists r, rs = resolutionOf r /\ forall r', rs = resolutionOf r' -> r' = r)
  /\ apply rs (next rs t) = next rs (apply rs t)
  /\ apply rs (apply rs t) = apply rs t
  /\ apply rs t <= t < next rs t.
Proof.
  intros rs. subst rs. rewrite calcResolution_tier.
  set (r := tierOf start end_). split; [|split; [|split]].
  - exists r. split; [done|]. intros r' Hr'. symmetry.
    by apply resolutionOf_inj.
  - by rewrite !next_grid, !apply_grid, !gridIndex_start.
  - apply apply_idemp.
  - split; [apply apply_le|apply next_gt].
Qed.

(** ** TimeBucket.Combine *)

Lemma mergeMaps_lookup ma mb key :
  mergeMaps ma mb !! key =
  match ma !! key, mb !! key with
  | Some existing, Some tally => Some (Tally_Combine existing tally)
  | Some existing, None => Some existing
  | None, o => o
  end.
Proof.
  unfold mergeMaps. rewrite lookup_union_with.
  by destruct (ma !! key), (mb !! key).
Qed.

Lemma mergeMaps_empty_r ma : mergeMaps ma ∅ = ma.
Proof.
  apply map_eq. intros key. rewrite mergeMaps_lookup, lookup_empty.
  by destruct (ma !! key).
Qed.

(** The loop over [b.tallies] computes the merge, whatever the order
    of the iteration. *)
Lemma map_fold_mergeEntry ma mb :
  map_fold mergeEntry ma mb = mergeMaps ma mb.
Proof.
  apply (map_fold_weak_ind (fun r m => r = mergeMaps ma m)).
  - by rewrite mergeMaps_empty_r.
  - intros key tally m r Hnone ->. apply map_eq. intros k.
    unfold mergeEntry. rewrite !mergeMaps_lookup, Hnone.
    destruct (decide (k = key)) as [->|Hne].
    + rewrite lookup_insert_eq.
      destruct (ma !! key); by rewrite lookup_insert_eq.
    + rewrite (lookup_insert_ne m) by done.
      destruct (ma !! key);
        by rewrite lookup_insert_ne, mergeMaps_lookup by done.
Qed.

Lemma contents_insert h l m (x : TimeBucket) :
  (l < length h)%nat ->
  contents (<[l := m]> h) x
  = if decide (tallies x = l) then m else contents h x.
Proof.
  intros Hl. unfold contents. destruct (decide _) as [->|Hne].
  - by rewrite list_lookup_insert_eq.
  - by rewrite list_lookup_insert_ne.
Qed.

(** What [a.Combine(b)] returns and leaves in the maps. *)
Lemma TimeBucket_Combine_spec a b h r h' :
  TimeBucket_Combine a b h = Done (r, h') ->
  r = a /\ Name a = Name b /\ Time a = Time b
  /\ length h' = length h
  /\ forall x : TimeBucket,
       contents h' x =
       if decide (tallies x = tallies a)
       then mergeMaps (contents h a) (contents h b)
       else contents h x.
Proof.
  unfold TimeBucket_Combine.
  destruct (String.eqb_spec (Name a) (Name b)) as [Hn|]; [|done].
  destruct (Z.eqb_spec (Time a) (Time b)) as [Ht|]; [|done].
  cbn [negb]. destruct (bool_decide_reflect (contents h b = ∅)) as [He|Hne].
  - intros [= <- <-]. repeat split; try done.
    intros x. rewrite He, mergeMaps_empty_r.
    destruct (decide _) as [E|]; [|done]. unfold contents. by rewrite E.
  - destruct (h !! tallies a) as [ma|] eqn:Ha; [|done].
    intros [= <- <-]. repeat split; try done.
    { by rewrite length_insert. }
    intros x. rewrite contents_insert by (by eapply lookup_lt_Some).
    rewrite map_fold_mergeEntry.
    assert (contents h a = ma) as -> by (unfold contents; by rewrite Ha).
    done.
Qed.

(** C9.  [a.Combine(b)] returns the receiver itself, map and all, and
    writes the merged entries into that map: after the call the receiver
    (and every bucket that holds the same map) has, under each key of [b],
    the combined tally, where it had its own or none before. *)
Theorem C9_Combine_writes_into_receiver a b h r h' :
  TimeBucket_Combine a b h = Done (r, h') ->
  r = a
  /\ tallies r = tallies a
  /\ (forall x : TimeBucket, tallies x = tallies a ->
        contents h' x = mergeMaps (contents h a) (contents h b))
  /\ (forall key tally,
        contents h b !! key = Some tally ->
        contents h' a !! key =
        Some match contents h a !! key with
             | Some existing => Tally_Combine existing tally
             | None => tally
             end)
  /\ (forall key existing,
        contents h b !! key = None ->
        contents h a !! key = Some existing ->
        contents h' a !! key = Some existing).
Proof.
  intros (-> & _ & _ & _ & Hc)%TimeBucket_Combine_spec.
  split; [done|]. split; [done|].
  assert (Ha : contents h' a = mergeMaps (contents h a) (contents h b)).
  { rewrite Hc. by destruct (decide _). }
  split; [|split].
  - intros x Hx. rewrite Hc. by destruct (decide _).
  - intros key tally Hb. rewrite Ha, mergeMaps_lookup, Hb.
    by destruct (contents h a !! key).
  - intros key existing Hb Hex. by rewrite Ha, mergeMaps_lookup, Hb, Hex.
Qed.

(** ** TimeSeries.Combine *)

Lemma byKey_cons y s : byKey (y :: s) = <[bucketKey y := y]> (byKey s).
Proof. reflexivity. Qed.

Lemma byKey_None s k : k ∉ bucketKey <$> s -> byKey s !! k = None.
Proof.
  intros Hk. unfold byKey. apply not_elem_of_list_to_map_1.
  by rewrite <- list_fmap_compose.
Qed.

Lemma byKey_Some s k x :
  distinctKeys s -> byKey s !! k = Some x <-> x ∈ s /\ bucketKey x = k.
Proof.
  intros Hd. unfold byKey. rewrite <- elem_of_list_to_map.
  - rewrite list_elem_of_fmap. split.
    + intros (y & [= -> ->] & Hy). done.
    + intros [Hx <-]. by exists x.
  - by rewrite <- list_fmap_compose.
Qed.

Lemma byKey_Some_1 s k x :
  byKey s !! k = Some x -> x ∈ s /\ bucketKey x = k.
Proof.
  unfold byKey. intros H%elem_of_list_to_map_2.
  apply list_elem_of_fmap in H as (y & [= -> ->] & Hy). done.
Qed.

Lemma putAll_byKey a m : distinctKeys a -> putAll a m = byKey a ∪ m.
Proof.
  revert m. induction a as [|x a IH]; intros m Hd.
  - unfold byKey. simpl. by rewrite (left_id_L ∅ (∪)).
  - apply NoDup_cons in Hd as [Hx Hd].
    change (putAll (x :: a) m) with (putAll a (<[bucketKey x := x]> m)).
    rewrite IH, byKey_cons by done.
    rewrite <- insert_union_l, <- insert_union_r; [done|].
    by apply byKey_None.
Qed.

Lemma TimeBucket_Combine_ok a b h :
  Name a = Name b -> Time a = Time b -> (tallies a < length h)%nat ->
  exists h', TimeBucket_Combine a b h = Done (a, h').
Proof.
  intros Hn Ht Ha. unfold TimeBucket_Combine.
  rewrite Hn, String.eqb_refl, Ht, Z.eqb_refl. cbn [negb].
  destruct (bool_decide _); [by eexists|].
  destruct (lookup_lt_is_Some_2 h (tallies a) Ha) as [ma ->]. by eexists.
Qed.

Lemma contents_same h (x y : TimeBucket) :
  tallies x = tallies y -> contents h x = contents h y.
Proof. unfold contents. by intros ->. Qed.

(** The second loop of [TimeSeries.Combine], from a map [M] of buckets
    whose maps are apart from each other and from those of [b]. *)
Lemma mergeAll_spec b :
  forall (M : gmap Z TimeBucket) (h : heap),
    distinctKeys b -> separate b -> allocated h b ->
    (forall k k' x x', M !! k = Some x -> M !! k' = Some x' ->
                       tallies x = tallies x' -> k = k') ->
    (forall k x, M !! k = Some x -> (tallies x < length h)%nat) ->
    (forall y k x, y ∈ b -> M !! k = Some x -> tallies x <> tallies y) ->
    (forall y x, y ∈ b -> M !! bucketKey y = Some x ->
                 Name x = Name y /\ Time x = Time y) ->
    exists h',
      mergeAll b M h = Done (M ∪ byKey b, h')
      /\ length h' = length h
      /\ (forall k x, M !! k = Some x ->
            contents h' x = mergeMaps (contents h x) (partner h b k))
      /\ (forall z : TimeBucket,
            (forall k x, M !! k = Some x -> tallies x <> tallies z) ->
            contents h' z = contents h z).
Proof.
  induction b as [|y b IH];
    intros M h Hkeys Hsep Halloc Minj Malloc Mdisj Mcompat.
  - exists h. split; [|split; [done|split]].
    + cbn [mergeAll]. unfold byKey. simpl. by rewrite (right_id_L ∅ (∪)).
    + intros k x _. unfold partner, byKey. simpl. rewrite lookup_empty.
      by rewrite mergeMaps_empty_r.
    + done.
  - apply NoDup_cons in Hkeys as [Hky Hkeys].
    apply NoDup_cons in Hsep as [Hty Hsep].
    apply Forall_cons in Halloc as [Hy Halloc].
    pose proof (byKey_None b _ Hky) as Hnone.
    cbn [mergeAll]. destruct (M !! bucketKey y) as [x|] eqn:HM.
    + destruct (Mcompat y x) as [Hn Ht]; [left|done|].
      destruct (TimeBucket_Combine_ok x y h Hn Ht (Malloc _ _ HM))
        as [h1 Hc].
      rewrite Hc. cbn [bind fst snd].
      apply TimeBucket_Combine_spec in Hc as (_ & _ & _ & Hl1 & Hc1).
      rewrite insert_id by done.
      destruct (IH M h1) as (h' & Hrun & Hl & Hcont & Hframe); try done.
      { unfold allocated. by rewrite Hl1. }
      { intros k x0 Hx0. rewrite Hl1. by eapply Malloc. }
      { intros y0 k x0 Hy0. apply Mdisj. by right. }
      { intros y0 x0 Hy0. apply Mcompat. by right. }
      exists h'. split; [|split; [congruence|split]].
      * rewrite Hrun. do 2 f_equal. apply map_eq. intros k.
        rewrite byKey_cons, !lookup_union.
        destruct (decide (k = bucketKey y)) as [->|Hne].
        -- rewrite lookup_insert_eq, HM, Hnone. done.
        -- by rewrite lookup_insert_ne.
      * intros k x0 Hx0. rewrite (Hcont _ _ Hx0). unfold partner.
        rewrite byKey_cons.
        destruct (decide (k = bucketKey y)) as [->|Hne].
        -- assert (x0 = x) as -> by congruence.
           rewrite lookup_insert_eq, Hnone, mergeMaps_empty_r, Hc1.
           by destruct (decide _).
        -- rewrite lookup_insert_ne by done.
           rewrite Hc1. destruct (decide _) as [E|_].
           { exfalso. apply Hne. by eapply Minj. }
           destruct (byKey b !! k) as [y'|] eqn:Hy'; [|done].
           apply byKey_Some_1 in Hy' as [Hy' _].
           rewrite Hc1. destruct (decide _) as [E|_]; [|done].
           exfalso. eapply (Mdisj y' _ x); [by right|done|done].
      * intros z Hz. rewrite Hframe by done. rewrite Hc1.
        destruct (decide _) as [E|_]; [|done].
        exfalso. by eapply Hz.
    + destruct (IH (<[bucketKey y := y]> M) h)
        as (h' & Hrun & Hl & Hcont & Hframe); try done.
      { intros k k' x0 x0' Hx0 Hx0' E.
        apply lookup_insert_Some in Hx0 as [[<- <-]|[Hk Hx0]];
          apply lookup_insert_Some in Hx0' as [[<- <-]|[Hk' Hx0']]; try done.
        - exfalso. eapply (Mdisj y _ x0'); [by left|done|done].
        - exfalso. eapply (Mdisj y _ x0); [by left|done|done].
        - by eapply Minj. }
      { intros k x0 [[<- <-]|[Hk Hx0]]%lookup_insert_Some; [done|].
        by eapply Malloc. }
      { intros y0 k x0 Hy0 [[<- <-]|[Hk Hx0]]%lookup_insert_Some.
        - intros E. apply Hty. rewrite E. apply list_elem_of_fmap. by exists y0.
        - eapply Mdisj; [by right|done]. }
      { intros y0 x0 Hy0 [[E <-]|[Hk Hx0]]%lookup_insert_Some.
        - exfalso. apply Hky. rewrite E. apply list_elem_of_fmap. by exists y0.
        - apply Mcompat; [by right|done]. }
      exists h'. split; [|split; [done|split]].
      * rewrite Hrun. do 2 f_equal. apply map_eq. intros k.
        rewrite byKey_cons, !lookup_union.
        destruct (decide (k = bucketKey y)) as [->|Hne].
        -- rewrite !lookup_insert_eq, HM, Hnone. done.
        -- by rewrite !lookup_insert_ne.
      * intros k x0 Hx0.
        assert (k <> bucketKey y) by congruence.
        rewrite (Hcont k x0) by (by rewrite lookup_insert_ne).
        unfold partner. by rewrite byKey_cons, lookup_insert_ne.
      * intros z Hz. destruct (decide (tallies z = tallies y)) as [E|Hne].
        -- rewrite (contents_same h' z y E), (contents_same h z y E).
           rewrite (Hcont (bucketKey y) y) by (by rewrite lookup_insert_eq).
           unfold partner. by rewrite Hnone, mergeMaps_empty_r.
        -- apply Hframe.
           intros k x0 [[<- <-]|[Hk Hx0]]%lookup_insert_Some; [done|].
           by eapply Hz.
Qed.

Lemma sortedKeys_elem (M : gmap Z TimeBucket) k :
  k ∈ sortedKeys M <-> is_Some (M !! k).
Proof.
  unfold sortedKeys. rewrite merge_sort_Permutation.
  rewrite list_elem_of_fmap. split.
  - intros ([k' x] & -> & Hx%elem_of_map_to_list). by exists x.
  - intros [x Hx]. exists (k, x). split; [done|]. by apply elem_of_map_to_list.
Qed.

Lemma Sorted_le_NoDup_lt (l : list Z) :
  Sorted Z.le l -> NoDup l -> StronglySorted Z.lt l.
Proof.
  intros Hs%Sorted_StronglySorted Hn; [|intros ???; lia].
  induction Hs as [|x l Hs IH Hall]; [constructor|].
  apply NoDup_cons in Hn as [Hx Hn]. constructor; [by apply IH|].
  rewrite Forall_forall in Hall |- *. intros y Hy.
  specialize (Hall y Hy). assert (x <> y) by congruence. lia.
Qed.

Lemma StronglySorted_lt_NoDup (l : list Z) :
  StronglySorted Z.lt l -> NoDup l.
Proof.
  induction 1 as [|x l Hs IH Hall]; constructor; [|done].
  intros Hx. rewrite Forall_forall in Hall. specialize (Hall x Hx). lia.
Qed.

Lemma sortedKeys_sorted (M : gmap Z TimeBucket) :
  StronglySorted Z.lt (sortedKeys M).
Proof.
  apply Sorted_le_NoDup_lt.
  - apply Sorted_merge_sort. intros x y. lia.
  - unfold sortedKeys. rewrite merge_sort_Permutation.
    apply NoDup_fst_map_to_list.
Qed.

(** The last loop lists the buckets of the map in the order of the
    keys. *)
Lemma listing_keys (M : gmap Z TimeBucket) (l : list Z) :
  (forall k x, M !! k = Some x -> bucketKey x = k) ->
  (forall k, k ∈ l -> is_Some (M !! k)) ->
  bucketKey <$> omap (fun key => M !! key) l = l.
Proof.
  intros HM. induction l as [|k l IH]; intros Hl; [done|].
  cbn [omap list_omap]. destruct (Hl k) as [x Hx]; [left|].
  rewrite Hx. cbn [fmap list_fmap]. rewrite (HM _ _ Hx). f_equal.
  apply IH. intros k' Hk'. apply Hl. by right.
Qed.

Lemma listing_elem (M : gmap Z TimeBucket) x :
  (forall k x, M !! k = Some x -> bucketKey x = k) ->
  x ∈ omap (fun key => M !! key) (sortedKeys M) <-> M !! bucketKey x = Some x.
Proof.
  intros HM. rewrite list_elem_of_omap. split.
  - intros (k & _ & Hk). by rewrite (HM _ _ Hk).
  - intros Hx. exists (bucketKey x). split; [|done].
    apply sortedKeys_elem. by exists x.
Qed.

Lemma NoDup_fmap_elem_inj {A B} (f : A -> B) (l : list A) x y :
  NoDup (f <$> l) -> x ∈ l -> y ∈ l -> f x = f y -> x = y.
Proof.
  induction l as [|z l IH]; intros Hn Hx Hy E.
  - by apply elem_of_nil in Hx.
  - cbn [fmap list_fmap] in Hn. apply NoDup_cons in Hn as [Hz Hn].
    apply elem_of_cons in Hx as [->|Hx]; apply elem_of_cons in Hy as [->|Hy].
    + done.
    + exfalso. apply Hz. rewrite E. apply list_elem_of_fmap. by exists y.
    + exfalso. apply Hz. rewrite <- E. apply list_elem_of_fmap. by exists x.
    + by apply IH.
Qed.

(** [a.Combine(b)] on well-formed series: the buckets of [a], and those of
    [b] whose key [a] does not have, in the order of the keys; a bucket of
    [a] has the merge of its map and the map of its partner in [b]; no
    other map changes. *)
Lemma TimeSeries_Combine_spec a b h :
  distinctKeys a -> distinctKeys b ->
  separate (a ++ b) -> allocated h (a ++ b) -> compatible (a ++ b) ->
  exists out h',
    TimeSeries_Combine a b h = Done (out, h')
    /\ length h' = length h
    /\ StronglySorted Z.lt (bucketKey <$> out)
    /\ (forall x, x ∈ out <->
                  x ∈ a \/ (x ∈ b /\ bucketKey x ∉ bucketKey <$> a))
    /\ (forall x, x ∈ a ->
          contents h' x
          = mergeMaps (contents h x) (partner h b (bucketKey x)))
    /\ (forall z : TimeBucket,
          tallies z ∉ tallies <$> a -> contents h' z = contents h z).
Proof.
  intros Hka Hkb Hsep Halloc Hcompat.
  unfold separate in Hsep. rewrite fmap_app in Hsep.
  apply NoDup_app in Hsep as (Hsa & Hab & Hsb).
  apply Forall_app in Halloc as [Haa Hab'].
  assert (HA : forall k x, byKey a !! k = Some x <-> x ∈ a /\ bucketKey x = k)
    by (intros; by apply byKey_Some).
  destruct (mergeAll_spec b (byKey a) h) as (h' & Hrun & Hl & Hcont & Hframe);
    try done.
  { intros k k' x x' [Hx <-]%HA [Hx' <-]%HA E. f_equal.
    by eapply (NoDup_fmap_elem_inj tallies a). }
  { intros k x [Hx _]%HA. rewrite Forall_forall in Haa. by apply Haa. }
  { intros y k x Hy [Hx _]%HA E. apply (Hab (tallies x)).
    - apply list_elem_of_fmap. by exists x.
    - rewrite E. apply list_elem_of_fmap. by exists y. }
  { intros y x Hy [Hx Hk]%HA. apply Hcompat; [|by rewrite ?elem_of_app; auto..].
    apply elem_of_app. by left. }
  assert (HM : forall k x, (byKey a ∪ byKey b) !! k = Some x -> bucketKey x = k).
  { intros k x [Hx|[_ Hx]]%lookup_union_Some_raw.
    - by apply HA in Hx as [_ ?].
    - by apply byKey_Some_1 in Hx as [_ ?]. }
  exists (omap (fun key => (byKey a ∪ byKey b) !! key)
            (sortedKeys (byKey a ∪ byKey b))), h'.
  split; [|split; [done|split; [|split; [|split]]]].
  - unfold TimeSeries_Combine.
    rewrite putAll_byKey, (right_id_L ∅ (∪)) by done.
    by rewrite Hrun.
  - rewrite listing_keys; [apply sortedKeys_sorted|done|].
    intros k. apply sortedKeys_elem.
  - intros x. rewrite listing_elem by done. rewrite lookup_union_Some_raw.
    rewrite HA. split.
    + intros [[Hx _]|[Hn Hx]]; [by left|right].
      apply byKey_Some_1 in Hx as [Hx _]. split; [done|].
      intros Hin. apply list_elem_of_fmap in Hin as (x' & E & Hx').
      assert (byKey a !! bucketKey x = Some x') as Hc by (by apply HA).
      congruence.
    + intros [Hx|[Hx Hn]]; [by left|right]. split.
      * by apply byKey_None.
      * by apply byKey_Some.
  - intros x Hx. apply Hcont. by apply HA.
  - intros z Hz. apply Hframe. intros k x [Hx _]%HA E. apply Hz.
    rewrite <- E. apply list_elem_of_fmap. by exists x.
Qed.

(** ** Counts *)

Lemma wrap_add_l x y : wrap (wrap x + y) = wrap (x + y).
Proof.
  unfold wrap. f_equal.
  replace ((x + 2 ^ 63) mod 2 ^ 64 - 2 ^ 63 + y + 2 ^ 63)
    with ((x + 2 ^ 63) mod 2 ^ 64 + y) by lia.
  rewrite Zplus_mod_idemp_l. f_equal. lia.
Qed.

Lemma int_add_comm a b : int_add a b = int_add b a.
Proof. unfold int_add. f_equal. lia. Qed.

Lemma int_add_assoc a b c :
  int_add (int_add a b) c = int_add a (int_add b c).
Proof.
  unfold int_add. rewrite wrap_add_l.
  rewrite (Z.add_comm a (wrap (b + c))), wrap_add_l. f_equal. lia.
Qed.

Lemma counts_add_comm c1 c2 : counts_add c1 c2 = counts_add c2 c1.
Proof.
  unfold counts_add.
  rewrite (int_add_comm c1.1.1.1), (int_add_comm c1.1.1.2),
    (int_add_comm c1.1.2), (comm_L (∪) c1.2). done.
Qed.

Lemma counts_add_assoc c1 c2 c3 :
  counts_add (counts_add c1 c2) c3 = counts_add c1 (counts_add c2 c3).
Proof.
  unfold counts_add. cbn [fst snd].
  by rewrite !int_add_assoc, (assoc_L (∪)).
Qed.

Lemma mergeCounts_lookup m1 m2 key :
  mergeCounts m1 m2 !! key =
  match m1 !! key, m2 !! key with
  | Some c1, Some c2 => Some (counts_add c1 c2)
  | Some c1, None => Some c1
  | None, o => o
  end.
Proof.
  unfold mergeCounts. rewrite lookup_union_with.
  by destruct (m1 !! key), (m2 !! key).
Qed.

Lemma mergeCounts_comm m1 m2 : mergeCounts m1 m2 = mergeCounts m2 m1.
Proof.
  apply map_eq. intros key. rewrite !mergeCounts_lookup.
  destruct (m1 !! key), (m2 !! key); try done.
  by rewrite counts_add_comm.
Qed.

Lemma mergeCounts_assoc m1 m2 m3 :
  mergeCounts (mergeCounts m1 m2) m3 = mergeCounts m1 (mergeCounts m2 m3).
Proof.
  apply map_eq. intros key. rewrite !mergeCounts_lookup.
  destruct (m1 !! key), (m2 !! key), (m3 !! key); try done.
  by rewrite counts_add_assoc.
Qed.

Lemma mergeCounts_empty_r m : mergeCounts m ∅ = m.
Proof.
  apply map_eq. intros key. rewrite mergeCounts_lookup, lookup_empty.
  by destruct (m !! key).
Qed.

Lemma mergeCounts_empty_l m : mergeCounts ∅ m = m.
Proof. by rewrite mergeCounts_comm, mergeCounts_empty_r. Qed.

Section Sums.

(** [Tally.Combine] sums: what the spec says of it. *)
Hypothesis Combine_sums :
  forall a b, counts (Tally_Combine a b) = counts_add (counts a) (counts b).

Lemma counts_mergeMaps ma mb :
  counts <$> mergeMaps ma mb = mergeCounts (counts <$> ma) (counts <$> mb).
Proof.
  apply map_eq. intros key.
  rewrite lookup_fmap, mergeMaps_lookup, mergeCounts_lookup, !lookup_fmap.
  destruct (ma !! key), (mb !! key); cbn; try done.
  by rewrite Combine_sums.
Qed.

Lemma shownMap_lookup h s k : shownMap h s !! k = shown h <$> byKey s !! k.
Proof. unfold shownMap. by rewrite lookup_fmap. Qed.

Lemma byKey_lookup_None s k : byKey s !! k = None <-> k ∉ bucketKey <$> s.
Proof.
  unfold byKey. rewrite <- not_elem_of_list_to_map.
  by rewrite <- list_fmap_compose.
Qed.

Lemma byKey_union out a b :
  distinctKeys out -> distinctKeys a -> distinctKeys b ->
  (forall x, x ∈ out <-> x ∈ a \/ (x ∈ b /\ bucketKey x ∉ bucketKey <$> a)) ->
  byKey out = byKey a ∪ byKey b.
Proof.
  intros Hko Hka Hkb Hout. apply map_eq. intros k. apply option_eq. intros x.
  rewrite lookup_union_Some_raw, !byKey_Some, byKey_lookup_None, Hout by done.
  split.
  - intros [[Hx|[Hx Hn]] <-]; [by left|by right].
  - intros [[Hx <-]|[Hn [Hx <-]]]; split; auto.
Qed.

(** What the combined series shows is the merge, key by key, of what the
    operands show. *)
Lemma TimeSeries_Combine_shown a b h :
  distinctKeys a -> distinctKeys b ->
  separate (a ++ b) -> allocated h (a ++ b) -> compatible (a ++ b) ->
  exists out h',
    TimeSeries_Combine a b h = Done (out, h')
    /\ length h' = length h
    /\ StronglySorted Z.lt (bucketKey <$> out)
    /\ (forall x, x ∈ out -> x ∈ a ++ b)
    /\ shownMap h' out = union_with mergeShown (shownMap h a) (shownMap h b)
    /\ (forall z : TimeBucket,
          tallies z ∉ tallies <$> a -> contents h' z = contents h z).
Proof.
  intros Hka Hkb Hsep Halloc Hcompat.
  destruct (TimeSeries_Combine_spec a b h)
    as (out & h' & Hrun & Hl & Hsorted & Hout & Hcont & Hframe); try done.
  exists out, h'. split; [done|]. split; [done|]. split; [done|].
  split; [|split; [|done]].
  { intros x [Hx|[Hx _]]%Hout; apply elem_of_app; auto. }
  unfold separate in Hsep. rewrite fmap_app in Hsep.
  apply NoDup_app in Hsep as (_ & Hab & _).
  apply map_eq. intros k.
  rewrite shownMap_lookup, (byKey_union out a b), lookup_union_with,
    !shownMap_lookup, lookup_union; try done.
  2:{ by apply StronglySorted_lt_NoDup. }
  destruct (byKey a !! k) as [x|] eqn:Ha, (byKey b !! k) as [y|] eqn:Hb;
    cbn; try done.
  - apply byKey_Some_1 in Ha as [Hx <-].
    unfold mergeShown, shown. cbn [fst snd]. do 2 f_equal.
    rewrite (Hcont _ Hx), counts_mergeMaps. unfold partner. by rewrite Hb.
  - apply byKey_Some_1 in Ha as [Hx <-].
    unfold shown. do 2 f_equal.
    rewrite (Hcont _ Hx). unfold partner. by rewrite Hb, mergeMaps_empty_r.
  - apply byKey_Some_1 in Hb as [Hy <-].
    unfold shown. do 2 f_equal. rewrite Hframe; [done|].
    intros Hin. apply (Hab _ Hin). apply list_elem_of_fmap. by exists y.
Qed.

Lemma shownMap_cons h x s :
  shownMap h (x :: s) = <[bucketKey x := shown h x]> (shownMap h s).
Proof. unfold shownMap. by rewrite byKey_cons, fmap_insert. Qed.

Lemma shownMap_below h s k :
  Forall (Z.lt k) (bucketKey <$> s) -> shownMap h s !! k = None.
Proof.
  intros Hall. rewrite shownMap_lookup.
  assert (byKey s !! k = None) as ->; [|done].
  apply byKey_lookup_None. intros Hk. rewrite Forall_forall in Hall.
  specialize (Hall _ Hk). lia.
Qed.

Lemma shownMap_nil h : shownMap h [] = ∅.
Proof. unfold shownMap, byKey. cbn. apply fmap_empty. Qed.

(** A series in the order of its keys is known by what it shows by key. *)
Lemma shown_list_unique h1 h2 s1 s2 :
  StronglySorted Z.lt (bucketKey <$> s1) ->
  StronglySorted Z.lt (bucketKey <$> s2) ->
  shownMap h1 s1 = shownMap h2 s2 ->
  shown h1 <$> s1 = shown h2 <$> s2.
Proof.
  revert s2. induction s1 as [|x s1 IH]; intros [|y s2] Hs1 Hs2 E.
  - done.
  - exfalso. rewrite shownMap_cons, shownMap_nil in E.
    apply (f_equal (fun m => m !! bucketKey y)) in E. cbn beta in E.
    by rewrite lookup_insert_eq, lookup_empty in E.
  - exfalso. rewrite shownMap_cons, shownMap_nil in E.
    apply (f_equal (fun m => m !! bucketKey x)) in E. cbn beta in E.
    by rewrite lookup_insert_eq, lookup_empty in E.
  - cbn [fmap list_fmap] in Hs1, Hs2.
    apply StronglySorted_inv in Hs1 as [Hs1 Hx].
    apply StronglySorted_inv in Hs2 as [Hs2 Hy].
    rewrite !shownMap_cons in E.
    pose proof (shownMap_below h1 s1 _ Hx) as Nx.
    pose proof (shownMap_below h2 s2 _ Hy) as Ny.
    assert (Hk : bucketKey x = bucketKey y).
    { pose proof (f_equal (fun m => m !! bucketKey x) E) as E1.
      pose proof (f_equal (fun m => m !! bucketKey y) E) as E2.
      cbn beta in E1, E2.
      rewrite !lookup_insert in E1. rewrite !lookup_insert in E2.
      destruct (Z.eq_dec (bucketKey x) (bucketKey y)) as [|Hne]; [done|].
      exfalso. rewrite decide_True in E1 by done.
      rewrite decide_False in E1 by congruence.
      rewrite decide_False in E2 by done.
      rewrite decide_True in E2 by done.
      destruct (Z.lt_trichotomy (bucketKey x) (bucketKey y)) as [Hlt|[?|Hlt]];
        [|done|].
      - rewrite shownMap_below in E1; [done|].
        eapply Forall_impl; [exact Hy|]. intros; cbn in *; lia.
      - rewrite shownMap_below in E2; [done|].
        eapply Forall_impl; [exact Hx|]. intros; cbn in *; lia. }
    rewrite Hk in E, Nx.
    cbn [fmap list_fmap]. f_equal.
    + pose proof (f_equal (fun m => m !! bucketKey y) E) as E1.
      cbn beta in E1. rewrite !lookup_insert_eq in E1. congruence.
    + apply IH; try done.
      apply (f_equal (delete (bucketKey y))) in E.
      rewrite !delete_insert_eq in E.
      by rewrite !delete_id in E.
Qed.

Lemma mergeShown_assoc_maps
    (A B C : gmap Z (string * time.Time * gmap string Counts)) :
  union_with mergeShown (union_with mergeShown A B) C
  = union_with mergeShown A (union_with mergeShown B C).
Proof.
  apply map_eq. intros k. rewrite !lookup_union_with.
  destruct (A !! k) as [[n1 m1]|], (B !! k) as [[n2 m2]|],
    (C !! k) as [[n3 m3]|]; cbn; try done.
  unfold mergeShown. cbn. by rewrite mergeCounts_assoc.
Qed.

Lemma separate_sub (l l' : list TimeBucket) :
  separate l -> NoDup l' -> (forall x, x ∈ l' -> x ∈ l) -> separate l'.
Proof.
  intros Hs Hn Hsub. apply NoDup_fmap_2_strong; [|done].
  intros x y Hx Hy E. apply (NoDup_fmap_elem_inj tallies l); auto.
Qed.

Lemma allocated_sub h h' (l l' : list TimeBucket) :
  allocated h l -> length h' = length h -> (forall x, x ∈ l' -> x ∈ l) ->
  allocated h' l'.
Proof.
  unfold allocated. rewrite !Forall_forall. intros Ha -> Hsub x Hx.
  apply Ha, Hsub, Hx.
Qed.

Lemma compatible_sub (l l' : list TimeBucket) :
  compatible l -> (forall x, x ∈ l' -> x ∈ l) -> compatible l'.
Proof. intros Hc Hsub x y Hx Hy. apply Hc; auto. Qed.

Lemma distinctKeys_NoDup s : distinctKeys s -> NoDup s.
Proof. apply NoDup_fmap_1. Qed.

Lemma separate_apart (l1 l2 : list TimeBucket) x :
  separate (l1 ++ l2) -> x ∈ l2 -> tallies x ∉ tallies <$> l1.
Proof.
  unfold separate. rewrite fmap_app. intros (_ & Hd & _)%NoDup_app Hx Hin.
  apply (Hd _ Hin). apply list_elem_of_fmap. by exists x.
Qed.

Lemma shownMap_frame h h' s :
  (forall z, z ∈ s -> contents h' z = contents h z) ->
  shownMap h' s = shownMap h s.
Proof.
  intros Hz. apply map_eq. intros k. rewrite !shownMap_lookup.
  destruct (byKey s !! k) as [x|] eqn:Hx; [|done].
  apply byKey_Some_1 in Hx as [Hx _]. cbn. unfold shown.
  by rewrite Hz.
Qed.

Lemma separate_app (l1 l2 : list TimeBucket) :
  separate l1 -> separate l2 ->
  (forall x y, x ∈ l1 -> y ∈ l2 -> tallies x <> tallies y) ->
  separate (l1 ++ l2).
Proof.
  intros H1 H2 Hd. unfold separate. rewrite fmap_app.
  apply NoDup_app. split; [done|]. split; [|done].
  intros t (x & -> & Hx)%list_elem_of_fmap (y & E & Hy)%list_elem_of_fmap.
  by apply (Hd x y).
Qed.

Lemma separate_parts (a b c : list TimeBucket) :
  separate (a ++ b ++ c) ->
  separate a /\ separate b /\ separate c
  /\ (forall x y, x ∈ a -> y ∈ b -> tallies x <> tallies y)
  /\ (forall x y, x ∈ a -> y ∈ c -> tallies x <> tallies y)
  /\ (forall x y, x ∈ b -> y ∈ c -> tallies x <> tallies y).
Proof.
  unfold separate. rewrite !fmap_app.
  intros (Ha & Habc & (Hb & Hbc & Hc)%NoDup_app)%NoDup_app.
  repeat split; try done.
  - intros x y Hx Hy E. apply (Habc (tallies x)).
    + apply list_elem_of_fmap. by exists x.
    + apply elem_of_app. left. rewrite E. apply list_elem_of_fmap. by exists y.
  - intros x y Hx Hy E. apply (Habc (tallies x)).
    + apply list_elem_of_fmap. by exists x.
    + apply elem_of_app. right. rewrite E. apply list_elem_of_fmap. by exists y.
  - intros x y Hx Hy E. apply (Hbc (tallies x)).
    + apply list_elem_of_fmap. by exists x.
    + rewrite E. apply list_elem_of_fmap. by exists y.
Qed.

Lemma not_elem_tallies (l : list TimeBucket) (z : TimeBucket) :
  (forall x, x ∈ l -> tallies x <> tallies z) -> tallies z ∉ tallies <$> l.
Proof.
  intros H (x & E & Hx)%list_elem_of_fmap. by apply (H x).
Qed.

(** C7 (as amended).  On series with pairwise different time keys, whose
    buckets each have a map of their own and agree on name and time where
    they share a key, [Combine] returns: the union of the buckets by time
    key, in ascending order of the key; for a key both have, the bucket of
    the receiver, its map merged per author key with [Tally.Combine]; the
    buckets only one side has with their maps as they were.  With a
    [Tally.Combine] that sums, what the result shows (names, times and
    counts by author) is the same for [a.Combine(b)] and [b.Combine(a)],
    and for [a.Combine(b).Combine(c)] and [a.Combine(b.Combine(c))]. *)
Theorem C7_Combine_on_wellformed_series a b c h :
  distinctKeys a -> distinctKeys b -> distinctKeys c ->
  separate (a ++ b ++ c) -> allocated h (a ++ b ++ c) ->
  compatible (a ++ b ++ c) ->
  exists ab h1,
    TimeSeries_Combine a b h = Done (ab, h1)
    /\ StronglySorted Z.lt (bucketKey <$> ab)
    /\ (forall x, x ∈ ab <->
                  x ∈ a \/ (x ∈ b /\ bucketKey x ∉ bucketKey <$> a))
    /\ (forall x, x ∈ a ->
          contents h1 x
          = mergeMaps (contents h x) (partner h b (bucketKey x)))
    /\ (forall y, y ∈ b -> contents h1 y = contents h y)
    /\ (exists ba h2,
          TimeSeries_Combine b a h = Done (ba, h2)
          /\ shown h2 <$> ba = shown h1 <$> ab)
    /\ (exists abc h3 bc h4 abc' h5,
          TimeSeries_Combine ab c h1 = Done (abc, h3)
          /\ TimeSeries_Combine b c h = Done (bc, h4)
          /\ TimeSeries_Combine a bc h4 = Done (abc', h5)
          /\ shown h3 <$> abc = shown h5 <$> abc').
Proof.
  intros Hka Hkb Hkc Hsep Halloc Hcompat.
  destruct (separate_parts a b c Hsep)
    as (Sa & Sb & Sc & Aab & Aac & Abc).
  assert (Hsub_ab : forall x, x ∈ a ++ b -> x ∈ a ++ b ++ c).
  { intros x. rewrite !elem_of_app. tauto. }
  assert (Hsub_ba : forall x, x ∈ b ++ a -> x ∈ a ++ b ++ c).
  { intros x. rewrite !elem_of_app. tauto. }
  assert (Hsub_bc : forall x, x ∈ b ++ c -> x ∈ a ++ b ++ c).
  { intros x. rewrite !elem_of_app. tauto. }
  assert (Sab : separate (a ++ b)) by (by apply separate_app).
  assert (Sba : separate (b ++ a)).
  { apply separate_app; try done. intros x y Hx Hy E.
    by apply (Aab y x). }
  assert (Sbc : separate (b ++ c)) by (by apply separate_app).
  destruct (TimeSeries_Combine_spec a b h)
    as (ab & h1 & Hrun & Hl1 & Hsorted & Hout & Hcont & Hframe); try done.
  { by eapply allocated_sub. }
  { by eapply compatible_sub. }
  destruct (TimeSeries_Combine_shown a b h)
    as (ab' & h1' & Hrun' & _ & _ & Hin1 & HS1 & _); try done.
  { by eapply allocated_sub. }
  { by eapply compatible_sub. }
  rewrite Hrun in Hrun'. injection Hrun' as <- <-.
  exists ab, h1. split; [done|]. split; [done|]. split; [done|].
  split; [done|]. split; [|split].
  - intros y Hy. apply Hframe, not_elem_tallies.
    intros x Hx. by apply Aab.
  - destruct (TimeSeries_Combine_shown b a h)
      as (ba & h2 & Hrun2 & _ & Hsorted2 & _ & HS2 & _); try done.
    { by eapply allocated_sub. }
    { by eapply compatible_sub. }
    exists ba, h2. split; [done|].
    apply shown_list_unique; try done.
    rewrite HS1, HS2. apply map_eq. intros k.
    rewrite !lookup_union_with, !shownMap_lookup.
    destruct (byKey b !! k) as [y|] eqn:Hy;
      destruct (byKey a !! k) as [x|] eqn:Hx; cbn; try done.
    apply byKey_Some_1 in Hy as [Hy <-].
    apply byKey_Some_1 in Hx as [Hx Hk].
    destruct (Hcompat x y) as [Hn Ht]; [rewrite !elem_of_app; auto..|done|].
    unfold mergeShown, shown. cbn [fst snd].
    by rewrite Hn, Ht, mergeCounts_comm.
  - assert (Hkab : distinctKeys ab) by (by apply StronglySorted_lt_NoDup).
    assert (Hsub1 : forall x, x ∈ ab ++ c -> x ∈ a ++ b ++ c).
    { intros x [Hx%Hin1|Hx]%elem_of_app; [by apply Hsub_ab|].
      rewrite !elem_of_app. tauto. }
    assert (Hab_c : forall x y, x ∈ ab -> y ∈ c -> tallies x <> tallies y).
    { intros x y [Hx|Hx]%Hin1%elem_of_app Hy; [by apply Aac|by apply Abc]. }
    destruct (TimeSeries_Combine_shown ab c h1)
      as (abc & h3 & Hrun3 & _ & Hsorted3 & _ & HS3 & _); try done.
    { apply separate_app; try done.
      eapply separate_sub; [exact Sab| |done]. by apply distinctKeys_NoDup. }
    { by eapply allocated_sub. }
    { by eapply compatible_sub. }
    destruct (TimeSeries_Combine_shown b c h)
      as (bc & h4 & Hrun4 & Hl4 & Hsorted4 & Hin4 & HS4 & Hframe4); try done.
    { by eapply allocated_sub. }
    { by eapply compatible_sub. }
    assert (Hkbc : distinctKeys bc) by (by apply StronglySorted_lt_NoDup).
    assert (Hsub4 : forall x, x ∈ a ++ bc -> x ∈ a ++ b ++ c).
    { intros x [Hx|Hx%Hin4]%elem_of_app; [|by apply Hsub_bc].
      rewrite !elem_of_app. tauto. }
    assert (Ha_bc : forall x y, x ∈ a -> y ∈ bc -> tallies x <> tallies y).
    { intros x y Hx [Hy|Hy]%Hin4%elem_of_app; [by apply Aab|by apply Aac]. }
    destruct (TimeSeries_Combine_shown a bc h4)
      as (abc' & h5 & Hrun5 & _ & Hsorted5 & _ & HS5 & _); try done.
    { apply separate_app; try done.
      eapply separate_sub; [exact Sbc| |done]. by apply distinctKeys_NoDup. }
    { by eapply allocated_sub. }
    { by eapply compatible_sub. }
    exists abc, h3, bc, h4, abc', h5. do 3 (split; [done|]).
    apply shown_list_unique; try done.
    rewrite HS3, HS5, HS1, HS4.
    rewrite (shownMap_frame h h1 c), (shownMap_frame h h4 a).
    + apply mergeShown_assoc_maps.
    + intros z Hz. apply Hframe4, not_elem_tallies.
      intros x Hx E. by apply (Aab z x).
    + intros z Hz. apply Hframe, not_elem_tallies.
      intros x Hx. by apply Aac.
Qed.

(** ** What the tallying loop counts *)

Lemma wrap_add_r x y : wrap (x + wrap y) = wrap (x + y).
Proof. by rewrite Z.add_comm, wrap_add_l, Z.add_comm. Qed.

Lemma wrap_idemp x : wrap (wrap x) = wrap x.
Proof.
  replace (wrap x) with (wrap x + 0) at 1 by lia.
  rewrite wrap_add_l. f_equal. lia.
Qed.

Lemma counts_addDiff t ds :
  counts (foldl addDiff t ds) =
  (wrap (numTallied t),
   wrap (added t + foldr Z.add 0 (git.LinesAdded <$> ds)),
   wrap (removed t + foldr Z.add 0 (git.LinesRemoved <$> ds)),
   dom (fileset t) ∪ list_to_set (git.Path <$> ds)).
Proof.
  revert t. induction ds as [|d ds IH]; intros t.
  - cbn [foldl fmap list_fmap foldr list_to_set]. unfold counts.
    rewrite !Z.add_0_r. by rewrite (right_id_L ∅ (∪)).
  - cbn [foldl fmap list_fmap foldr list_to_set]. rewrite IH.
    cbn [addDiff numTallied added removed fileset]. unfold int_add.
    rewrite !wrap_add_l, dom_insert_L.
    rewrite (comm_L (∪) {[git.Path d]} (dom (fileset t))).
    rewrite <- (assoc_L (∪)).
    repeat (apply pair_equal_spec; split); try done; f_equal; lia.
Qed.

Lemma counts_tallyCommit opts c m :
  counts <$> tallyCommit opts c m
  = mergeCounts (counts <$> m) {[Key opts c := commitCounts c]}.
Proof.
  apply map_eq. intros key. unfold tallyCommit. cbv zeta.
  rewrite lookup_fmap, mergeCounts_lookup, lookup_fmap.
  destruct (decide (key = Key opts c)) as [->|Hne].
  - rewrite lookup_insert_eq, lookup_singleton_eq. cbn [fmap option_fmap option_map].
    rewrite counts_addDiff. cbn [numTallied added removed fileset].
    destruct (m !! Key opts c) as [t|];
      cbn [fmap option_fmap option_map numTallied added removed fileset].
    + unfold counts_add, commitCounts, counts, int_add. cbn [fst snd].
      by rewrite !wrap_add_l, !wrap_add_r, wrap_idemp.
    + unfold commitCounts. rewrite dom_empty_L, (left_id_L ∅ (∪)).
      by rewrite !Z.add_0_l.
  - rewrite lookup_insert_ne, lookup_singleton_ne by done.
    by destruct (m !! key).
Qed.

Lemma counts_routeFold opts r cs k m :
  counts <$> routeFold opts r cs k m
  = mergeCounts (counts <$> m) (total opts r k cs).
Proof.
  revert m. induction cs as [|c cs IH]; intros m.
  - cbn. by rewrite mergeCounts_empty_r.
  - rewrite routeFold_cons, IH. cbn [total foldr]. fold (total opts r k cs).
    unfold contrib. destruct (_ =? _).
    + by rewrite counts_tallyCommit, mergeCounts_assoc.
    + by rewrite mergeCounts_empty_l.
Qed.

Lemma total_cons opts r k c cs :
  total opts r k (c :: cs) = mergeCounts (contrib opts r k c) (total opts r k cs).
Proof. reflexivity. Qed.

Lemma total_app opts r k cs1 cs2 :
  total opts r k (cs1 ++ cs2)
  = mergeCounts (total opts r k cs1) (total opts r k cs2).
Proof.
  induction cs1 as [|c cs1 IH].
  - cbn [app]. unfold total at 2. cbn. by rewrite mergeCounts_empty_l.
  - cbn [app]. by rewrite !total_cons, IH, mergeCounts_assoc.
Qed.

(** The counts of a bucket do not depend on the order of the commits. *)
Lemma total_perm opts r k cs1 cs2 :
  cs1 ≡ₚ cs2 -> total opts r k cs1 = total opts r k cs2.
Proof.
  induction 1 as [|c cs1 cs2 _ IH|c1 c2 cs|cs1 cs2 cs3 _ IH1 _ IH2].
  - done.
  - by rewrite !total_cons, IH.
  - rewrite !total_cons, <- !mergeCounts_assoc.
    by rewrite (mergeCounts_comm (contrib opts r k c2)).
  - congruence.
Qed.

Lemma total_none opts r k cs :
  Forall (fun c => gridIndex r (git.Date c) <> k) cs -> total opts r k cs = ∅.
Proof.
  induction 1 as [|c cs Hc _ IH]; [done|].
  rewrite total_cons, IH, mergeCounts_empty_r. unfold contrib.
  by destruct (Z.eqb_spec (gridIndex r (git.Date c)) k).
Qed.

Lemma okPrefix_yieldAll cs : okPrefix (yieldAll cs) = cs.
Proof.
  induction cs as [|c cs IH]; [done|].
  cbn [yieldAll map okPrefix]. f_equal. exact IH.
Qed.

Lemma firstErr_yieldAll cs : firstErr (yieldAll cs) = None.
Proof. induction cs as [|c cs IH]; [done|]. exact IH. Qed.

Lemma afterErr_yieldAll cs : afterErr (yieldAll cs) = [].
Proof. induction cs as [|c cs IH]; [done|]. exact IH. Qed.

(** What the call returns on commits in the order of their dates, all
    before [end_]: the buckets of the grid from the bucket of the first
    commit to [end_], each with the tallies of the commits after the first
    that fall in it; the maps that were there before stay as they were. *)
Lemma TallyCommitsByDate_inOrder c0 rest opts end_ h :
  Mode opts <> LastModifiedMode ->
  Sorted Z.le (git.Date <$> c0 :: okPrefix rest) ->
  Forall (fun c => git.Date c < end_) (okPrefix rest) ->
  let r := tierOf (git.Date c0) end_ in
  let k := gridIndex r (git.Date c0) in
  exists (n : nat) res,
    (forall j, 0 <= j < Z.of_nat n -> gridStart r (k + j) < end_)
    /\ end_ <= gridStart r (k + Z.of_nat n)
    /\ inOrder r k (k + Z.of_nat n) (okPrefix rest)
    /\ TallyCommitsByDate ((c0, None) :: rest) opts end_ h = Done res
    /\ buckets res = gridBuckets r k (length h) n
    /\ err res = (fun e => fmt_Errorf "error while tallying commits by date: "
                             (fmt_Errorf "error iterating commits: " e))
                 <$> firstErr rest
    /\ unread res = afterErr rest
    /\ length (store res) = (length h + n)%nat
    /\ (forall (a : nat) m, h !! a = Some m -> store res !! a = Some m)
    /\ (forall j : nat, (j < n)%nat ->
          store res !! (length h + j)%nat
          = Some (routeFold opts r (okPrefix rest) (k + Z.of_nat j) ∅)).
Proof.
  intros Hmode Hs Hall r k.
  assert (Hm : TallyMode_eqb (Mode opts) LastModifiedMode = false).
  { destruct (TallyMode_eqb _ _) eqn:E; [|done].
    by apply TallyMode_eqb_eq in E. }
  destruct (TallyCommitsByDate_grid c0 rest opts end_ h Hm)
    as (n & Hin & Hout & Heq).
  fold r k in Hin, Hout, Heq.
  pose proof (inOrder_sorted r (k + Z.of_nat n) end_ (git.Date c0)
                (okPrefix rest) Hs Hall Hout) as Hord.
  fold k in Hord.
  destruct (tallyLoop_inOrder r opts k (length h) n 0 rest
              (h ++ replicate n ∅))
    as (res & Hrun & Hbs & Herr & Hun & Hlen & Hst).
  { rewrite length_app, length_replicate. lia. }
  { by rewrite Z.add_0_r. }
  rewrite length_app, length_replicate in Hlen.
  exists n, (deferred res). split; [done|]. split; [done|]. split; [done|].
  split; [by rewrite Heq, Hrun|].
  split; [done|]. split.
  { cbn [deferred err]. rewrite Herr. by destruct (firstErr rest). }
  split; [done|]. split; [done|]. split.
  - intros a m Ha. cbn [deferred store].
    rewrite (Hst a m) by (by apply lookup_app_l_Some).
    pose proof (lookup_lt_Some _ _ _ Ha).
    destruct (decide _) as [Hr|]; [lia|done].
  - intros j Hj. cbn [deferred store].
    rewrite (Hst (length h + j)%nat ∅).
    + destruct (decide _) as [_|Hr]; [|lia]. do 3 f_equal. lia.
    + rewrite lookup_app_r by lia.
      apply lookup_replicate_2. lia.
Qed.

Lemma tallies_gridBuckets r k l n : tallies <$> gridBuckets r k l n = seq l n.
Proof.
  revert k l. induction n as [|n IH]; intros k l; [done|].
  cbn [gridBuckets fmap list_fmap seq]. by rewrite IH.
Qed.

Lemma bucketKey_gridBucket_inj r k k' l l' :
  bucketKey (gridBucket r k l) = bucketKey (gridBucket r k' l') -> k = k'.
Proof.
  unfold bucketKey. rewrite !Time_gridBucket. intros E.
  destruct (Z.lt_trichotomy k k') as [Hlt|[->|Hlt]]; [|done|];
    apply (Unix_gridStart_lt r) in Hlt; lia.
Qed.

Lemma gridBuckets_distinctKeys r k l n : distinctKeys (gridBuckets r k l n).
Proof.
  apply StronglySorted_lt_NoDup.
  apply (gridBuckets_sorted r time.Unix), Unix_gridStart_lt.
Qed.

Lemma gridBuckets_compatible r k1 l1 n1 k2 l2 n2 :
  compatible (gridBuckets r k1 l1 n1 ++ gridBuckets r k2 l2 n2).
Proof.
  assert (H : forall x, x ∈ gridBuckets r k1 l1 n1 ++ gridBuckets r k2 l2 n2 ->
                        exists kx lx, x = gridBucket r kx lx).
  { intros x [(j & _ & ->)%gridBuckets_elem|(j & _ & ->)%gridBuckets_elem]%elem_of_app;
      eauto. }
  intros x y (kx & lx & ->)%H (ky & ly & ->)%H E.
  apply bucketKey_gridBucket_inj in E as ->. done.
Qed.

(** Series in the order of their keys with the same buckets are equal. *)
Lemma sorted_keys_unique (l1 l2 : list TimeBucket) :
  StronglySorted Z.lt (bucketKey <$> l1) ->
  StronglySorted Z.lt (bucketKey <$> l2) ->
  (forall x, x ∈ l1 <-> x ∈ l2) -> l1 = l2.
Proof.
  revert l2. induction l1 as [|x l1 IH]; intros [|y l2] H1 H2 E.
  - done.
  - exfalso. eapply not_elem_of_nil, E. left.
  - exfalso. eapply not_elem_of_nil, E. left.
  - cbn [fmap list_fmap] in H1, H2.
    apply StronglySorted_inv in H1 as [H1 Hx].
    apply StronglySorted_inv in H2 as [H2 Hy].
    rewrite Forall_fmap, Forall_forall in Hx, Hy. cbn in Hx, Hy.
    assert (x = y) as ->.
    { pose proof (proj1 (E x) ltac:(left)) as [->|Hx2]%elem_of_cons; [done|].
      pose proof (proj2 (E y) ltac:(left)) as [->|Hy1]%elem_of_cons; [done|].
      specialize (Hx _ Hy1). specialize (Hy _ Hx2). lia. }
    f_equal. apply IH; try done. intros z. split; intros Hz.
    + pose proof (proj1 (E z) ltac:(by right)) as [->|?]%elem_of_cons; [|done].
      specialize (Hx _ Hz). lia.
    + pose proof (proj2 (E z) ltac:(by right)) as [->|?]%elem_of_cons; [|done].
      specialize (Hy _ Hz). lia.
Qed.

Lemma TallyCommitsByDate_commits c0 cs opts end_ h :
  Mode opts <> LastModifiedMode ->
  Sorted Z.le (git.Date <$> c0 :: cs) ->
  Forall (fun c => git.Date c < end_) cs ->
  let r := tierOf (git.Date c0) end_ in
  let k := gridIndex r (git.Date c0) in
  exists (n : nat) res,
    (forall j, 0 <= j < Z.of_nat n -> gridStart r (k + j) < end_)
    /\ end_ <= gridStart r (k + Z.of_nat n)
    /\ inOrder r k (k + Z.of_nat n) cs
    /\ TallyCommitsByDate (yieldAll (c0 :: cs)) opts end_ h = Done res
    /\ buckets res = gridBuckets r k (length h) n
    /\ err res = None
    /\ length (store res) = (length h + n)%nat
    /\ (forall (a : nat) m, h !! a = Some m -> store res !! a = Some m)
    /\ (forall j : nat, (j < n)%nat ->
          store res !! (length h + j)%nat
          = Some (routeFold opts r cs (k + Z.of_nat j) ∅)).
Proof.
  intros Hmode Hs Hall r k.
  pose proof (TallyCommitsByDate_inOrder c0 (yieldAll cs) opts end_ h Hmode)
    as H.
  rewrite okPrefix_yieldAll, firstErr_yieldAll in H.
  destruct (H Hs Hall)
    as (n & res & Hin & Hout & Hord & Hrun & Hbs & Herr & _ & Hl & Hold & Hnew).
  exists n, res. repeat split; done.
Qed.

Lemma grid_end_unique r end_ k1 (n1 : nat) k2 (n2 : nat) t2 :
  k1 <= k2 -> gridStart r k2 <= t2 -> t2 < end_ ->
  (forall j, 0 <= j < Z.of_nat n1 -> gridStart r (k1 + j) < end_) ->
  end_ <= gridStart r (k1 + Z.of_nat n1) ->
  (forall j, 0 <= j < Z.of_nat n2 -> gridStart r (k2 + j) < end_) ->
  end_ <= gridStart r (k2 + Z.of_nat n2) ->
  k1 + Z.of_nat n1 = k2 + Z.of_nat n2.
Proof.
  intros Hk Ht Hend Hin1 Hout1 Hin2 Hout2.
  assert (k2 < k1 + Z.of_nat n1) by (apply (gridStart_lt_inv r); lia).
  destruct (Z.lt_trichotomy (k1 + Z.of_nat n1) (k2 + Z.of_nat n2))
    as [Hlt|[?|Hlt]]; [|done|].
  - specialize (Hin2 (k1 + Z.of_nat n1 - k2)).
    replace (k2 + (k1 + Z.of_nat n1 - k2)) with (k1 + Z.of_nat n1) in Hin2
      by lia. lia.
  - specialize (Hin1 (k2 + Z.of_nat n2 - k1)).
    replace (k1 + (k2 + Z.of_nat n2 - k1)) with (k2 + Z.of_nat n2) in Hin1
      by lia. lia.
Qed.

Lemma Sorted_le_head (t0 : Z) (ts : list Z) t :
  Sorted Z.le (t0 :: ts) -> t ∈ ts -> t0 <= t.
Proof.
  intros Hs%Sorted_StronglySorted Ht; [|intros ???; lia].
  apply StronglySorted_inv in Hs as [_ Hall].
  rewrite Forall_forall in Hall. by apply Hall.
Qed.

(** At a fixed offset: commits in the order of their dates, all before
    [end_], are split in two parts, each in order, that choose the same
    tier as the whole; [f1], the first commit of all, leads the first
    part, [f2] leads the second.  With a [Tally.Combine] that sums, tallying
    the parts and combining the series gives the buckets of tallying the
    whole, by name and time, and in every bucket the same counts under
    every author key; the key of [f2] in the bucket of [f2] is excepted. *)
Lemma partition_merge_same_tier f1 r1 f2 r2 w opts end_ h h0 :
  Mode opts <> LastModifiedMode ->
  w ≡ₚ r1 ++ f2 :: r2 ->
  Sorted Z.le (git.Date <$> f1 :: w) ->
  Sorted Z.le (git.Date <$> f1 :: r1) ->
  Sorted Z.le (git.Date <$> f2 :: r2) ->
  Forall (fun c => git.Date c < end_) w ->
  tierOf (git.Date f2) end_ = tierOf (git.Date f1) end_ ->
  exists res1 res2 out h3 resw,
    TallyCommitsByDate (yieldAll (f1 :: r1)) opts end_ h = Done res1
    /\ TallyCommitsByDate (yieldAll (f2 :: r2)) opts end_ (store res1)
       = Done res2
    /\ TimeSeries_Combine (buckets res1) (buckets res2) (store res2)
       = Done (out, h3)
    /\ TallyCommitsByDate (yieldAll (f1 :: w)) opts end_ h0 = Done resw
    /\ err res1 = None /\ err res2 = None /\ err resw = None
    /\ length out = length (buckets resw)
    /\ forall (j : nat) bo bw,
         out !! j = Some bo -> buckets resw !! j = Some bw ->
         Name bo = Name bw /\ Time bo = Time bw
         /\ forall key,
              ~ (Time bw = apply (calcResolution (git.Date f1) end_)
                             (git.Date f2)
                 /\ key = Key opts f2) ->
              (counts <$> contents h3 bo) !! key
              = (counts <$> contents (store resw) bw) !! key.
Proof.
  intros Hmode Hperm Hsw Hs1 Hs2 Hall Htier.
  set (r := tierOf (git.Date f1) end_) in *.
  set (k1 := gridIndex r (git.Date f1)).
  set (k2 := gridIndex r (git.Date f2)).
  assert (Hall' : Forall (fun c => git.Date c < end_) (r1 ++ f2 :: r2))
    by (by rewrite <- Hperm).
  apply Forall_app in Hall' as [Hall1 [Hf2 Hall2]%Forall_cons].
  assert (Hf12 : git.Date f1 <= git.Date f2).
  { apply (Sorted_le_head _ (git.Date <$> w)); [done|].
    apply list_elem_of_fmap. exists f2. split; [done|].
    rewrite Hperm. apply elem_of_app. right. left. }
  assert (Hk12 : k1 <= k2) by (by apply gridIndex_mono).
  destruct (TallyCommitsByDate_commits f1 r1 opts end_ h Hmode Hs1 Hall1)
    as (n1 & res1 & Hin1 & Hout1 & Hord1 & Hrun1 & Hbs1 & Herr1 & Hl1
        & Hold1 & Hnew1).
  destruct (TallyCommitsByDate_commits f2 r2 opts end_ (store res1)
              Hmode Hs2 Hall2)
    as (n2 & res2 & Hin2 & Hout2 & Hord2 & Hrun2 & Hbs2 & Herr2 & Hl2
        & Hold2 & Hnew2).
  destruct (TallyCommitsByDate_commits f1 w opts end_ h0 Hmode Hsw Hall)
    as (nw & resw & Hinw & Houtw & Hordw & Hrunw & Hbsw & Herrw & Hlw
        & Holdw & Hneww).
  rewrite Htier in Hin2, Hout2, Hord2, Hbs2, Hnew2.
  fold r k1 k2 in Hin1, Hout1, Hord1, Hbs1, Hnew1, Hin2, Hout2, Hord2, Hbs2,
    Hnew2, Hinw, Houtw, Hordw, Hbsw, Hneww.
  assert (nw = n1) as ->.
  { destruct (Nat.lt_trichotomy nw n1) as [Hlt|[->|Hlt]]; [|done|].
    - specialize (Hin1 (Z.of_nat nw)). lia.
    - specialize (Hinw (Z.of_nat n1)). lia. }
  assert (HK : k1 + Z.of_nat n1 = k2 + Z.of_nat n2).
  { apply (grid_end_unique r end_ k1 n1 k2 n2 (git.Date f2)); try done.
    apply gridIndex_spec. }
  set (l1 := length h) in *. set (l2 := length (store res1)) in *.
  set (B1 := gridBuckets r k1 l1 n1) in *.
  set (B2 := gridBuckets r k2 l2 n2) in *.
  destruct (TimeSeries_Combine_spec B1 B2 (store res2))
    as (out & h3 & Hrun3 & Hl3 & Hsorted3 & Hout3 & Hcont3 & _).
  { apply gridBuckets_distinctKeys. }
  { apply gridBuckets_distinctKeys. }
  { unfold separate, B1, B2. rewrite fmap_app, !tallies_gridBuckets.
    replace l2 with (l1 + n1)%nat by lia. rewrite <- seq_app. apply NoDup_seq. }
  { unfold allocated. apply Forall_app. split; apply Forall_forall;
      intros x (j & Hj & ->)%gridBuckets_elem; cbn [gridBucket tallies]; lia. }
  { apply gridBuckets_compatible. }
  assert (Hout_eq : out = B1).
  { apply sorted_keys_unique; [done| |].
    - apply (gridBuckets_sorted r time.Unix), Unix_gridStart_lt.
    - intros x. rewrite Hout3. split; [|by left].
      intros [Hx|[(j & Hj & ->)%gridBuckets_elem Hn]]; [done|].
      exfalso. apply Hn. apply list_elem_of_fmap.
      exists (gridBucket r (k2 + Z.of_nat j)
                (l1 + Z.to_nat (k2 + Z.of_nat j - k1))).
      split; [done|]. apply list_elem_of_lookup.
      exists (Z.to_nat (k2 + Z.of_nat j - k1)).
      unfold B1. rewrite gridBuckets_lookup by lia. f_equal.
      apply gridBucket_eq; lia. }
  subst out.
  exists res1, res2, B1, h3, resw.
  split; [exact Hrun1|]. split; [exact Hrun2|].
  split; [rewrite Hbs1, Hbs2; exact Hrun3|].
  split; [exact Hrunw|]. split; [exact Herr1|]. split; [exact Herr2|].
  split; [exact Herrw|].
  rewrite Hbsw. split; [unfold B1; by rewrite !gridBuckets_length|].
  intros j bo bw Hbo Hbw.
  pose proof (lookup_lt_Some _ _ _ Hbo) as Hj.
  unfold B1 in Hj. rewrite gridBuckets_length in Hj.
  unfold B1 in Hbo. rewrite gridBuckets_lookup in Hbo, Hbw by done.
  injection Hbo as <-. injection Hbw as <-.
  split; [done|]. split; [done|]. intros key Hkey.
  set (kk := k1 + Z.of_nat j) in *.
  (* the whole *)
  assert (Hw : counts <$> contents (store resw) (gridBucket r kk (length h0 + j))
               = total opts r kk w).
  { unfold contents. cbn [gridBucket tallies]. rewrite Hneww by done.
    cbn [from_option id]. rewrite counts_routeFold, fmap_empty.
    by rewrite mergeCounts_empty_l. }
  (* the first part, after both parts were tallied *)
  assert (H1 : counts <$> contents (store res2) (gridBucket r kk (l1 + j))
               = total opts r kk r1).
  { unfold contents. cbn [gridBucket tallies].
    rewrite (Hold2 _ _ (Hnew1 j Hj)). cbn [from_option id].
    rewrite counts_routeFold, fmap_empty. by rewrite mergeCounts_empty_l. }
  (* the partner in the second part *)
  assert (H2 : counts <$> partner (store res2) B2
                 (bucketKey (gridBucket r kk (l1 + j)))
               = total opts r kk r2).
  { unfold partner.
    destruct (byKey B2 !! _) as [y|] eqn:Hy.
    - apply byKey_Some_1 in Hy as [(j2 & Hj2 & ->)%gridBuckets_elem Hk%bucketKey_gridBucket_inj].
      unfold contents. cbn [gridBucket tallies]. rewrite Hnew2 by done.
      cbn [from_option id]. rewrite counts_routeFold, fmap_empty, Hk.
      by rewrite mergeCounts_empty_l.
    - apply byKey_lookup_None in Hy. rewrite fmap_empty. symmetry.
      apply total_none, Forall_forall. intros c Hc E.
      pose proof (inOrder_bounds _ _ _ _ _ Hord2 Hc) as Hb.
      apply Hy. apply list_elem_of_fmap.
      exists (gridBucket r kk (l2 + Z.to_nat (kk - k2))).
      split; [done|]. apply list_elem_of_lookup.
      exists (Z.to_nat (kk - k2)).
      unfold B2. rewrite gridBuckets_lookup by lia. f_equal.
      apply gridBucket_eq; lia. }
  rewrite Hcont3 by (apply list_elem_of_lookup; exists j; unfold B1;
                     by rewrite gridBuckets_lookup).
  rewrite counts_mergeMaps, H1, H2, Hw.
  rewrite (total_perm opts r kk w _ Hperm), total_app, total_cons.
  rewrite !mergeCounts_lookup.
  assert (Hnone : contrib opts r kk f2 !! key = None).
  { unfold contrib. fold k2.
    destruct (Z.eqb_spec k2 kk) as [E|]; [|done].
    apply lookup_singleton_ne. intros Ek. apply Hkey. split; [|done].
    rewrite calcResolution_tier, apply_grid, Time_gridBucket.
    fold r k2. by rewrite E. }
  rewrite Hnone.
  by destruct (total opts r kk r1 !! key), (total opts r kk r2 !! key).
Qed.

End Sums.

(** ** The first commit, and the example of the spec *)

Lemma contents_gridBuckets r k l n (h : heap) b :
  b ∈ gridBuckets r k l n ->
  exists j : nat, (j < n)%nat /\ b = gridBucket r (k + Z.of_nat j) (l + j)
                  /\ contents h b = default ∅ (h !! (l + j)%nat).
Proof. intros (j & Hj & ->)%gridBuckets_elem. by exists j. Qed.

(** C1 (what the code does).  The first commit is pulled to choose the
    resolution and is not tallied: on a stream of one commit the call
    returns buckets that all have empty maps, the bucket of that commit
    among them when the commit is before [end_]. *)
Theorem C1_first_commit_is_not_tallied c opts end_ h :
  Mode opts <> LastModifiedMode ->
  exists res,
    TallyCommitsByDate [(c, None)] opts end_ h = Done res
    /\ err res = None
    /\ (forall b, b ∈ buckets res -> contents (store res) b = ∅)
    /\ (git.Date c < end_ ->
        exists b, buckets res !! 0%nat = Some b
                  /\ Time b = apply (calcResolution (git.Date c) end_)
                                 (git.Date c)).
Proof.
  intros Hmode.
  destruct (TallyCommitsByDate_commits c [] opts end_ h Hmode)
    as (n & res & Hin & Hout & _ & Hrun & Hbs & Herr & _ & _ & Hnew).
  { cbn. repeat constructor. }
  { constructor. }
  exists res. split; [exact Hrun|]. split; [exact Herr|]. split.
  - intros b Hb. rewrite Hbs in Hb.
    apply (contents_gridBuckets _ _ _ _ (store res)) in Hb
      as (j & Hj & _ & ->).
    by rewrite Hnew.
  - intros Hc. rewrite Hbs, calcResolution_tier, apply_grid.
    destruct n as [|n].
    + exfalso. rewrite Z.add_0_r in Hout.
      pose proof (gridIndex_spec (tierOf (git.Date c) end_) (git.Date c)).
      lia.
    + eexists. split; [reflexivity|]. by rewrite Time_gridBucket.
Qed.

Lemma time_Date_grid y m d :
  time_Date y m d = gridStart Daily (Calendar.daysFromCivil y m d).
Proof. reflexivity. Qed.

Lemma tierOf_days a b :
  tierOf (gridStart Daily a) (gridStart Daily b)
  = if 1825 <? b - a then Yearly else if 60 <? b - a then Monthly else Daily.
Proof.
  unfold tierOf, time.Sub, gridStart. cbv zeta.
  replace (b * nsPerDay - zone * time.Second
           - (a * nsPerDay - zone * time.Second))
    with ((b - a) * 86400000000000) by (change nsPerDay with 86400000000000; lia).
  change (time.Hour * 24 * 365 * 5) with (1825 * 86400000000000).
  change (time.Hour * 24 * 60) with (60 * 86400000000000).
  change time.maxDuration with 9223372036854775807.
  change time.minDuration with (-9223372036854775808).
  destruct (Z.ltb_spec 1825 (b - a)), (Z.ltb_spec 60 (b - a));
    try lia;
    destruct (Z.ltb_spec (1825 * 86400000000000)
                (Z.max (-9223372036854775808)
                   (Z.min 9223372036854775807 ((b - a) * 86400000000000))));
    try lia;
    destruct (Z.ltb_spec (60 * 86400000000000)
                (Z.max (-9223372036854775808)
                   (Z.min 9223372036854775807 ((b - a) * 86400000000000))));
    try lia; done.
Qed.

Lemma Name_gridBucket_daily k l :
  Name (gridBucket Daily k l) = formatDateOnly (Calendar.civilFromDays k).
Proof.
  cbn [gridBucket Name resolutionOf label daily]. unfold dailyLabel.
  pose proof (apply_gridStart Daily k) as Ha.
  cbn [resolutionOf apply daily] in Ha. rewrite Ha.
  unfold Format_DateOnly, Time_Date, gridStart.
  by rewrite localDay_gridStart_raw.
Qed.

Lemma Names_gridBuckets_daily k l n :
  Name <$> gridBuckets Daily k l n = dayNames k n.
Proof.
  revert k l. induction n as [|n IH]; intros k l; [done|].
  cbn [gridBuckets fmap list_fmap dayNames].
  by rewrite Name_gridBucket_daily, IH.
Qed.

Lemma numTallied_addDiff t ds :
  numTallied (foldl addDiff t ds) = numTallied t.
Proof. revert t. induction ds as [|d ds IH]; intros t; [done|]. cbn. by rewrite IH. Qed.

(** A bucket that got one commit holds one tally, of one commit. *)
Lemma numTallied_tallyCommit_empty opts c :
  numTallied <$> tallyCommit opts c ∅ = {[Key opts c := 1]}.
Proof.
  unfold tallyCommit. cbv zeta. rewrite lookup_empty, fmap_insert, fmap_empty.
  by rewrite numTallied_addDiff.
Qed.

Lemma routeFold_two opts r c2 c3 k :
  routeFold opts r [c2; c3] k ∅ =
  let m := if gridIndex r (git.Date c2) =? k then tallyCommit opts c2 ∅ else ∅ in
  if gridIndex r (git.Date c3) =? k then tallyCommit opts c3 m else m.
Proof. reflexivity. Qed.

(** C3 (as amended).  Commits on 2024-01-05, 2024-01-20 and 2024-02-02
    with [end] = 2024-02-10 span 36 days, which is not more than 60: the
    resolution is the daily one, and the call returns 36 buckets,
    "2024-01-05" to "2024-02-09"; the buckets "2024-01-20" and
    "2024-02-02" each hold one tally of one commit, and the buckets other
    than these and the first are empty. *)
Theorem C3_example_selects_daily_buckets c1 c2 c3 opts h :
  Mode opts <> LastModifiedMode ->
  git.Date c1 = time_Date 2024 1 5 ->
  git.Date c2 = time_Date 2024 1 20 ->
  git.Date c3 = time_Date 2024 2 2 ->
  exists res,
    TallyCommitsByDate (yieldAll [c1; c2; c3]) opts (time_Date 2024 2 10) h
    = Done res
    /\ err res = None
    /\ calcResolution (git.Date c1) (time_Date 2024 2 10) = daily
    /\ Name <$> buckets res =
       ["2024-01-05"; "2024-01-06"; "2024-01-07"; "2024-01-08";
        "2024-01-09"; "2024-01-10"; "2024-01-11"; "2024-01-12";
        "2024-01-13"; "2024-01-14"; "2024-01-15"; "2024-01-16";
        "2024-01-17"; "2024-01-18"; "2024-01-19"; "2024-01-20";
        "2024-01-21"; "2024-01-22"; "2024-01-23"; "2024-01-24";
        "2024-01-25"; "2024-01-26"; "2024-01-27"; "2024-01-28";
        "2024-01-29"; "2024-01-30"; "2024-01-31"; "2024-02-01";
        "2024-02-02"; "2024-02-03"; "2024-02-04"; "2024-02-05";
        "2024-02-06"; "2024-02-07"; "2024-02-08"; "2024-02-09"]%string
    /\ (forall b, buckets res !! 15%nat = Some b ->
          Name b = "2024-01-20"%string
          /\ numTallied <$> contents (store res) b = {[Key opts c2 := 1]})
    /\ (forall b, buckets res !! 28%nat = Some b ->
          Name b = "2024-02-02"%string
          /\ numTallied <$> contents (store res) b = {[Key opts c3 := 1]})
    /\ (forall (j : nat) b, buckets res !! j = Some b ->
          j <> 0%nat -> j <> 15%nat -> j <> 28%nat ->
          contents (store res) b = ∅).
Proof.
  intros Hmode H1 H2 H3.
  assert (D1 : Calendar.daysFromCivil 2024 1 5 = 19727) by (vm_compute; reflexivity).
  assert (D2 : Calendar.daysFromCivil 2024 1 20 = 19742) by (vm_compute; reflexivity).
  assert (D3 : Calendar.daysFromCivil 2024 2 2 = 19755) by (vm_compute; reflexivity).
  assert (D4 : Calendar.daysFromCivil 2024 2 10 = 19763) by (vm_compute; reflexivity).
  rewrite time_Date_grid, D1 in H1. rewrite time_Date_grid, D2 in H2.
  rewrite time_Date_grid, D3 in H3.
  rewrite time_Date_grid, D4.
  destruct (TallyCommitsByDate_commits c1 [c2; c3] opts
              (gridStart Daily 19763) h Hmode)
    as (n & res & Hin & Hout & _ & Hrun & Hbs & Herr & _ & _ & Hnew).
  { cbn [fmap list_fmap]. rewrite H1, H2, H3.
    repeat constructor; apply gridStart_le; lia. }
  { rewrite !Forall_cons, H2, H3. repeat split; [..|constructor];
      apply gridStart_lt; lia. }
  assert (Ht : tierOf (git.Date c1) (gridStart Daily 19763) = Daily).
  { rewrite H1, tierOf_days. reflexivity. }
  rewrite Ht in Hin, Hout, Hbs, Hnew.
  rewrite H1, gridIndex_start in Hin, Hout, Hbs, Hnew.
  assert (n = 36%nat) as ->.
  { assert (19763 <= 19727 + Z.of_nat n).
    { destruct (Z_lt_le_dec (19727 + Z.of_nat n) 19763) as [Hlt|]; [|done].
      apply (gridStart_lt Daily) in Hlt. lia. }
    destruct (decide (36 < n)%nat) as [Hgt|]; [|lia].
    specialize (Hin 36). change (19727 + 36) with 19763 in Hin. lia. }
  assert (Hcell : forall j : nat, (j < 36)%nat ->
            contents (store res) (gridBucket Daily (19727 + Z.of_nat j)
                                    (length h + j))
            = (let m := if 19742 =? 19727 + Z.of_nat j
                        then tallyCommit opts c2 ∅ else ∅ in
               if 19755 =? 19727 + Z.of_nat j
               then tallyCommit opts c3 m else m)).
  { intros j Hj. unfold contents. cbn [gridBucket tallies].
    rewrite Hnew by done. cbn [from_option id].
    by rewrite routeFold_two, H2, H3, !gridIndex_start. }
  exists res. split; [exact Hrun|]. split; [exact Herr|]. split.
  { by rewrite calcResolution_tier, Ht. }
  rewrite Hbs. split.
  { rewrite Names_gridBuckets_daily. vm_compute. reflexivity. }
  split; [|split].
  - intros b Hb. rewrite gridBuckets_lookup in Hb by lia. injection Hb as <-.
    split.
    + rewrite Name_gridBucket_daily. vm_compute. reflexivity.
    + rewrite Hcell by lia. cbv zeta.
      change (19742 =? 19727 + Z.of_nat 15) with true.
      change (19755 =? 19727 + Z.of_nat 15) with false.
      apply numTallied_tallyCommit_empty.
  - intros b Hb. rewrite gridBuckets_lookup in Hb by lia. injection Hb as <-.
    split.
    + rewrite Name_gridBucket_daily. vm_compute. reflexivity.
    + rewrite Hcell by lia. cbv zeta.
      change (19742 =? 19727 + Z.of_nat 28) with false.
      change (19755 =? 19727 + Z.of_nat 28) with true.
      apply numTallied_tallyCommit_empty.
  - intros j b Hb Hj0 Hj15 Hj28.
    pose proof (lookup_lt_Some _ _ _ Hb) as Hj.
    rewrite gridBuckets_length in Hj.
    rewrite gridBuckets_lookup in Hb by lia. injection Hb as <-.
    rewrite Hcell by lia. cbv zeta.
    destruct (Z.eqb_spec 19742 (19727 + Z.of_nat j)); [lia|].
    destruct (Z.eqb_spec 19755 (19727 + Z.of_nat j)); [lia|]. done.
Qed.

End Bucket.

(** * Part III: the program over Go's times *)

(** ** At a fixed offset the dates are those of the offset *)

Section Located.

Variable zone : Z.
Variable Local : Zoned.time.Location.
Hypothesis Local_fixed : Zoned.fixedOffset Local zone.

Lemma unix_localDay (i : Z) :
  (i / time.Second + zone) / 86400 = localDay zone i.
Proof.
  unfold localDay, nsPerDay, time.Hour, time.Second.
  rewrite <- (Z.div_add i zone 1000000000) by lia.
  rewrite Z.div_div by lia. f_equal.
Qed.

Lemma plain_readsLocal t : Zoned.plain Local t -> readsLocal zone t.
Proof. intros [Hl _]. unfold readsLocal. rewrite Hl. apply Local_fixed. Qed.

Lemma atInstant_plain i : Zoned.plain Local (Zoned.atInstant Local i).
Proof. by split. Qed.

Lemma plain_atInstant t :
  Zoned.plain Local t -> t = Zoned.atInstant Local (Zoned.time.inst t).
Proof. destruct t as [i m l]. intros [Hl Hm]. cbn in *. by subst. Qed.

Lemma Time_Date_fixed t :
  readsLocal zone t -> Zoned.time.Time_Date t = Time_Date zone (Zoned.time.inst t).
Proof.
  unfold readsLocal, Zoned.time.Time_Date, Time_Date. intros H.
  destruct (Zoned.time.lookup _ _) as [[offset start] end_].
  cbn [fst] in H. subst offset. f_equal. apply unix_localDay.
Qed.

Lemma Date_fixed year month day :
  Zoned.time.Date year month day Local
  = Zoned.atInstant Local (time_Date zone year month day).
Proof.
  unfold Zoned.time.Date, time_Date, Zoned.atInstant.
  set (d := Calendar.daysFromCivil year month day).
  pose proof (Local_fixed (d * 86400)) as H1.
  destruct (Zoned.time.lookup Local (d * 86400)) as [[offset start] end_].
  cbn [fst] in H1. subst offset.
  pose proof (Local_fixed (d * 86400 - zone)) as H2.
  f_equal. unfold Zoned.time.Second, nsPerDay, time.Hour, time.Second.
  destruct (Z.eqb_spec zone 0) as [->|_]; cbn [negb]; [lia|].
  destruct (_ || _); [rewrite H2|]; lia.
Qed.


Lemma Time_Date_atInstant i :
  Zoned.time.Time_Date (Zoned.atInstant Local i) = Time_Date zone i.
Proof. apply (Time_Date_fixed (Zoned.atInstant Local i)), Local_fixed. Qed.

Lemma apply_fixed r t :
  readsLocal zone t ->
  Zoned.apply (Zoned.resolutionOf Local r) t
  = Zoned.atInstant Local (apply (resolutionOf zone r) (Zoned.time.inst t)).
Proof.
  intros Ht.
  destruct r; cbn [Zoned.resolutionOf Zoned.apply Zoned.yearly Zoned.monthly
                     Zoned.daily resolutionOf apply yearly monthly daily];
    unfold Zoned.yearlyApply, Zoned.monthlyApply, Zoned.dailyApply,
      yearlyApply, monthlyApply, dailyApply;
    rewrite (Time_Date_fixed t Ht);
    destruct (Time_Date zone _) as [[year month] day]; apply Date_fixed.
Qed.

Lemma next_fixed r t :
  readsLocal zone t ->
  Zoned.next (Zoned.resolutionOf Local r) t
  = Zoned.atInstant Local (next (resolutionOf zone r) (Zoned.time.inst t)).
Proof.
  intros Ht.
  pose proof (apply_fixed Yearly t Ht) as Hy.
  pose proof (apply_fixed Monthly t Ht) as Hm.
  pose proof (apply_fixed Daily t Ht) as Hd.
  cbn [Zoned.resolutionOf Zoned.apply Zoned.yearly Zoned.monthly
         Zoned.daily resolutionOf apply yearly monthly daily] in Hy, Hm, Hd.
  destruct r; cbn [Zoned.resolutionOf Zoned.next Zoned.yearly Zoned.monthly
                     Zoned.daily resolutionOf next yearly monthly daily];
    unfold Zoned.yearlyNext, Zoned.monthlyNext, Zoned.dailyNext,
      yearlyNext, monthlyNext, dailyNext;
    rewrite ?Hy, ?Hm, ?Hd, Time_Date_atInstant;
    destruct (Time_Date zone _) as [[year month] day]; apply Date_fixed.
Qed.

Lemma label_fixed r t :
  readsLocal zone t ->
  Zoned.label (Zoned.resolutionOf Local r) t
  = label (resolutionOf zone r) (Zoned.time.inst t).
Proof.
  intros Ht.
  pose proof (apply_fixed Yearly t Ht) as Hy.
  pose proof (apply_fixed Monthly t Ht) as Hm.
  pose proof (apply_fixed Daily t Ht) as Hd.
  cbn [Zoned.resolutionOf Zoned.apply Zoned.yearly Zoned.monthly
         Zoned.daily resolutionOf apply yearly monthly daily] in Hy, Hm, Hd.
  destruct r; cbn [Zoned.resolutionOf Zoned.label Zoned.yearly Zoned.monthly
                     Zoned.daily resolutionOf label yearly monthly daily];
    unfold Zoned.yearlyLabel, Zoned.monthlyLabel, Zoned.dailyLabel,
      yearlyLabel, monthlyLabel, dailyLabel,
      Zoned.time.Format_2006, Zoned.time.Format_Jan_2006,
      Zoned.time.Format_DateOnly, Format_2006, Format_Jan_2006,
      Format_DateOnly;
    by rewrite ?Hy, ?Hm, ?Hd, Time_Date_atInstant.
Qed.






Lemma apply_atInstant r i :
  Zoned.apply (Zoned.resolutionOf Local r) (Zoned.atInstant Local i)
  = Zoned.atInstant Local (apply (resolutionOf zone r) i).
Proof. apply (apply_fixed r (Zoned.atInstant Local i)), Local_fixed. Qed.

Lemma next_atInstant r i :
  Zoned.next (Zoned.resolutionOf Local r) (Zoned.atInstant Local i)
  = Zoned.atInstant Local (next (resolutionOf zone r) i).
Proof. apply (next_fixed r (Zoned.atInstant Local i)), Local_fixed. Qed.

Lemma label_atInstant r i :
  Zoned.label (Zoned.resolutionOf Local r) (Zoned.atInstant Local i)
  = label (resolutionOf zone r) i.
Proof. apply (label_fixed r (Zoned.atInstant Local i)), Local_fixed. Qed.


End Located.

(** ** calcResolution over Go's times *)

Lemma Zoned_calcResolution_tier Local start end_ :
  Zoned.calcResolution Local start end_
  = Zoned.resolutionOf Local (Zoned.tierOf start end_).
Proof.
  unfold Zoned.calcResolution, Zoned.tierOf.
  do 2 (destruct (_ <? _); [reflexivity|]). reflexivity.
Qed.


(** ** At a fixed offset the loops are those over instants *)

Section Simulation.

Variable zone : Z.
Variable Local : Zoned.time.Location.
Hypothesis Local_fixed : Zoned.fixedOffset Local zone.

Lemma After_atInstant t i :
  Zoned.time.After t (Zoned.atInstant Local i)
  = time.After (Zoned.time.inst t) i.
Proof. unfold Zoned.time.After. cbn. by destruct (Zoned.time.mono t). Qed.

Lemma atInstant_After i u :
  Zoned.time.After (Zoned.atInstant Local i) u
  = time.After i (Zoned.time.inst u).
Proof. reflexivity. Qed.

Lemma atInstant_Equal i u :
  Zoned.time.Equal (Zoned.atInstant Local i) u
  = time.Equal i (Zoned.time.inst u).
Proof. reflexivity. Qed.

Lemma initBuckets_fixed fuel r end_ i gbs h :
  outcome_map (fun bh => (eraseBucket <$> bh.1, bh.2))
    (Zoned.initBuckets fuel (Zoned.resolutionOf Local r) end_
       (Zoned.atInstant Local i) gbs h)
  = initBuckets fuel (resolutionOf zone r) (Zoned.time.inst end_) i
      (eraseBucket <$> gbs) h.
Proof.
  revert i gbs h. induction fuel as [|fuel IH]; intros i gbs h; [done|].
  cbn [Zoned.initBuckets initBuckets]. rewrite After_atInstant.
  destruct (time.After _ _); [|done].
  unfold Zoned.newBucket, newBucket, newMap.
  rewrite (next_atInstant zone Local Local_fixed), IH, fmap_app.
  cbn [fmap list_fmap]. unfold eraseBucket at 2.
  cbn [Zoned.Name Zoned.Time Zoned.Tally_ Zoned.TotalTally Zoned.tallies].
  rewrite (label_atInstant zone Local Local_fixed),
    (apply_atInstant zone Local Local_fixed).
  cbn [Zoned.atInstant Zoned.time.inst]. reflexivity.
Qed.

Lemma seek_fixed x i gb grest :
  outcome_map (fun ib => (ib.1, eraseBucket ib.2))
    (Zoned.seek (Zoned.atInstant Local x) i gb grest)
  = seek x i (eraseBucket gb) (eraseBucket <$> grest).
Proof.
  revert i gb. induction grest as [|gb' grest IH]; intros i gb;
    cbn [Zoned.seek seek fmap list_fmap]; rewrite atInstant_Equal;
    cbn [eraseBucket Time];
    destruct (time.Equal _ _); cbn [negb]; first [done | apply IH].
Qed.

Lemma liftCommit_eraseCommit c :
  datedLocal Local c -> liftCommit Local (eraseCommit c) = c.
Proof.
  destruct c as [an ae [i m l] fd]. intros [Hl Hm]. cbn in Hl, Hm. subst.
  reflexivity.
Qed.

Lemma tallyCommit_fixed opts c m :
  datedLocal Local c ->
  Zoned.tallyCommit opts c m
  = tallyCommit (eraseOpts Local opts) (eraseCommit c) m.
Proof.
  intros Hc. unfold Zoned.tallyCommit, tallyCommit.
  cbn [eraseOpts Key]. rewrite (liftCommit_eraseCommit c Hc). reflexivity.
Qed.

Lemma tallyLoop_fixed r opts gbs i gs h :
  Forall (datedLocal Local) (Zoned.okPrefix gs) ->
  outcome_map eraseResult
    (Zoned.tallyLoop (Zoned.resolutionOf Local r) opts gbs i gs h)
  = tallyLoop (resolutionOf zone r) (eraseOpts Local opts)
      (eraseBucket <$> gbs) i (eraseStream gs) h.
Proof.
  revert gbs i h. induction gs as [|[c [e|]] gs IH]; intros gbs i h Hall;
    [done|done|].
  cbn [Zoned.okPrefix] in Hall. apply Forall_cons in Hall as [Hc Hall].
  cbn [Zoned.tallyLoop eraseStream map tallyLoop fst snd].
  fold (eraseStream gs). rewrite list_lookup_fmap.
  destruct (gbs !! i) as [gb|]; cbn [fmap option_fmap option_map]; [|done].
  rewrite (apply_fixed zone Local Local_fixed r _
             (plain_readsLocal zone Local Local_fixed _ Hc)).
  rewrite atInstant_After. cbn [eraseCommit git.Date eraseBucket Time].
  fold (dateOf c).
  destruct (time.After _ _).
  - rewrite <- fmap_drop, <- seek_fixed. fold (eraseBucket gb).
    destruct (Zoned.seek _ _ _ _) as [[i' gb']| |]; cbn [outcome_map bind];
      [|done|done].
    cbn [fst snd eraseBucket tallies].
    destruct (h !! Zoned.tallies gb'); [|done].
    rewrite (IH _ _ _ Hall), list_fmap_insert.
    by rewrite (tallyCommit_fixed opts c _ Hc).
  - cbn [bind eraseBucket tallies]. destruct (h !! Zoned.tallies gb); [|done].
    rewrite (IH _ _ _ Hall), list_fmap_insert.
    by rewrite (tallyCommit_fixed opts c _ Hc).
Qed.

End Simulation.

(** ** Fuel, and the times of the buckets, in any Location *)

Lemma Zoned_initBuckets_more fuel fuel' res end_ t bs h x :
  Zoned.initBuckets fuel res end_ t bs h = Done x ->
  (fuel <= fuel')%nat ->
  Zoned.initBuckets fuel' res end_ t bs h = Done x.
Proof.
  revert fuel' t bs h. induction fuel as [|fuel IH]; intros fuel' t bs h;
    [done|].
  intros Hrun Hle. destruct fuel' as [|fuel']; [lia|].
  cbn [Zoned.initBuckets] in *. destruct (Zoned.time.After end_ t); [|done].
  destruct (Zoned.newBucket _ _ _) as [bucket h'].
  apply IH; [done|lia].
Qed.

Lemma Zoned_initBuckets_no_panic fuel res end_ t bs h msg :
  Zoned.initBuckets fuel res end_ t bs h <> Panic msg.
Proof.
  revert t bs h. induction fuel as [|fuel IH]; intros t bs h; [done|].
  cbn [Zoned.initBuckets]. destruct (Zoned.time.After end_ t); [|done].
  destruct (Zoned.newBucket _ _ _) as [bucket h']. apply IH.
Qed.

Lemma Zoned_tallyLoop_fuel res opts bs i s h :
  Zoned.tallyLoop res opts bs i s h <> OutOfFuel.
Proof.
  revert bs i h. induction s as [|[c [e|]] s IH]; intros bs i h; [done|done|].
  cbn [Zoned.tallyLoop]. destruct (bs !! i) as [b|]; [|done].
  assert (Hseek : forall x j b0 rest, Zoned.seek x j b0 rest <> OutOfFuel).
  { intros x j b0 rest. revert j b0.
    induction rest as [|b1 rest IHr]; intros j b0; cbn [Zoned.seek];
      destruct (negb _); first [done | apply IHr]. }
  destruct (if Zoned.time.After _ _ then _ else _) as [[i' b']| |] eqn:E;
    cbn [bind]; [|done|].
  - destruct (h !! Zoned.tallies b'); [apply IH|done].
  - destruct (Zoned.time.After _ _); [by apply Hseek in E|done].
Qed.

Lemma Zoned_TallyCommitsByDate_more Local fuel fuel' s opts end_ h :
  Zoned.TallyCommitsByDate Local fuel s opts end_ h <> OutOfFuel ->
  (fuel <= fuel')%nat ->
  Zoned.TallyCommitsByDate Local fuel' s opts end_ h
  = Zoned.TallyCommitsByDate Local fuel s opts end_ h.
Proof.
  unfold Zoned.TallyCommitsByDate. intros Hrun Hle.
  destruct (TallyMode_eqb _ _); [done|].
  destruct s as [|[c0 [e|]] rest]; [done|done|].
  destruct (Zoned.initBuckets fuel _ _ _ _ _) as [x| |] eqn:E.
  - by rewrite (Zoned_initBuckets_more _ fuel' _ _ _ _ _ _ E Hle).
  - by apply Zoned_initBuckets_no_panic in E.
  - done.
Qed.

Lemma Zoned_Date_plain Local year month day :
  Zoned.plain Local (Zoned.time.Date year month day Local).
Proof.
  unfold Zoned.time.Date. by destruct (Zoned.time.lookup _ _) as [[? ?] ?].
Qed.

Lemma Zoned_apply_plain Local r t :
  Zoned.plain Local (Zoned.apply (Zoned.resolutionOf Local r) t).
Proof.
  destruct r; cbn [Zoned.resolutionOf Zoned.apply Zoned.yearly Zoned.monthly
                     Zoned.daily];
    unfold Zoned.yearlyApply, Zoned.monthlyApply, Zoned.dailyApply;
    destruct (Zoned.time.Time_Date t) as [[year month] day];
    apply Zoned_Date_plain.
Qed.

Lemma Zoned_initBuckets_plain Local fuel r end_ t bs h bs' h' :
  Forall (fun b => Zoned.plain Local (Zoned.Time b)) bs ->
  Zoned.initBuckets fuel (Zoned.resolutionOf Local r) end_ t bs h
  = Done (bs', h') ->
  Forall (fun b => Zoned.plain Local (Zoned.Time b)) bs'.
Proof.
  revert t bs h. induction fuel as [|fuel IH]; intros t bs h Hbs; [done|].
  cbn [Zoned.initBuckets]. destruct (Zoned.time.After end_ t).
  - unfold Zoned.newBucket, newMap. apply IH.
    apply Forall_app. split; [done|]. constructor; [|constructor].
    apply Zoned_apply_plain.
  - by intros [= <- <-].
Qed.

Lemma Zoned_seek_elem x i b rest i' b' :
  Zoned.seek x i b rest = Done (i', b') -> b' = b \/ b' ∈ rest.
Proof.
  revert i b. induction rest as [|b1 rest IH]; intros i b;
    cbn [Zoned.seek]; destruct (negb _); try done.
  - intros [= _ <-]. by left.
  - intros [->|H]%IH; right; [left|by right].
  - intros [= _ <-]. by left.
Qed.

Lemma Zoned_tallyLoop_plain Local res opts bs i s h r :
  Forall (fun b => Zoned.plain Local (Zoned.Time b)) bs ->
  Zoned.tallyLoop res opts bs i s h = Done r ->
  Forall (fun b => Zoned.plain Local (Zoned.Time b)) (Zoned.buckets r).
Proof.
  revert bs i h. induction s as [|[c [e|]] s IH]; intros bs i h Hbs.
  - by intros [= <-].
  - by intros [= <-].
  - cbn [Zoned.tallyLoop]. destruct (bs !! i) as [b|] eqn:Hb; [|done].
    assert (Hin : forall i' b',
              (if Zoned.time.After (Zoned.apply res (Zoned.git.Date c))
                    (Zoned.Time b)
               then Zoned.seek (Zoned.apply res (Zoned.git.Date c)) i b
                      (drop (S i) bs)
               else Done (i, b)) = Done (i', b') -> b' ∈ bs).
    { intros i' b'. destruct (Zoned.time.After _ _).
      - intros [->|H]%Zoned_seek_elem.
        + by eapply list_elem_of_lookup_2.
        + apply list_elem_of_lookup in H as [j Hj].
          rewrite lookup_drop in Hj. by eapply list_elem_of_lookup_2.
      - intros [= _ <-]. by eapply list_elem_of_lookup_2. }
    destruct (if Zoned.time.After _ _ then _ else _) as [[i' b']| |];
      cbn [bind]; [|done|done].
    destruct (h !! Zoned.tallies b'); [|done].
    apply IH. apply Forall_insert; [done|].
    rewrite Forall_forall in Hbs. apply Hbs. by eapply Hin.
Qed.

(** The buckets of a returned series carry [time.Local] and no monotonic
    reading, in every Location. *)
Lemma Zoned_buckets_plain Local fuel s opts end_ h res :
  Zoned.TallyCommitsByDate Local fuel s opts end_ h = Done res ->
  Forall (fun b => Zoned.plain Local (Zoned.Time b)) (Zoned.buckets res).
Proof.
  unfold Zoned.TallyCommitsByDate.
  destruct (TallyMode_eqb _ _); [intros [= <-]; constructor|].
  destruct s as [|[c0 [e|]] rest]; try (intros [= <-]; constructor).
  rewrite Zoned_calcResolution_tier.
  destruct (Zoned.initBuckets _ _ _ _ _ _) as [[bs h']| |] eqn:E;
    cbn [bind]; [|done|done].
  apply Zoned_initBuckets_plain in E; [|constructor].
  destruct (Zoned.tallyLoop _ _ _ _ _ _) as [r| |] eqn:E2; cbn [bind];
    [|done|done].
  intros [= <-]. cbn [Zoned.deferred Zoned.buckets].
  by eapply Zoned_tallyLoop_plain.
Qed.

(** ** At a fixed offset the program is the one over instants *)

Section Agreement.

Variable zone : Z.
Variable Local : Zoned.time.Location.
Hypothesis Local_fixed : Zoned.fixedOffset Local zone.

Lemma Zoned_tierOf_fixed start end_ :
  Zoned.time.mono start = None ->
  Zoned.tierOf start end_
  = tierOf (Zoned.time.inst start) (Zoned.time.inst end_).
Proof.
  intros Hm. unfold Zoned.tierOf, tierOf, Zoned.time.Sub. rewrite Hm.
  by destruct (Zoned.time.mono end_).
Qed.

Lemma eraseResult_deferred r :
  eraseResult (Zoned.deferred r) = deferred (eraseResult r).
Proof. reflexivity. Qed.

Lemma TallyCommitsByDate_fixed gs opts end_ h :
  Forall (datedLocal Local) (Zoned.okPrefix gs) ->
  exists n : nat, forall fuel, (n <= fuel)%nat ->
    outcome_map eraseResult
      (Zoned.TallyCommitsByDate Local fuel gs opts end_ h)
    = TallyCommitsByDate zone (eraseStream gs) (eraseOpts Local opts)
        (Zoned.time.inst end_) h.
Proof.
  intros Hall.
  assert (Hat : exists n : nat,
             outcome_map eraseResult
               (Zoned.TallyCommitsByDate Local n gs opts end_ h)
             = TallyCommitsByDate zone (eraseStream gs) (eraseOpts Local opts)
                 (Zoned.time.inst end_) h).
  { unfold Zoned.TallyCommitsByDate, TallyCommitsByDate.
    cbn [eraseOpts Mode].
    destruct (TallyMode_eqb _ _); [by exists 0%nat|].
    destruct gs as [|[c0 [e|]] rest]; [by exists 0%nat|by exists 0%nat|].
    cbn [Zoned.okPrefix] in Hall. apply Forall_cons in Hall as [Hc Hall].
    cbn [eraseStream map fst snd]. fold (eraseStream rest).
    cbn [eraseCommit git.Date]. fold (dateOf c0).
    rewrite Zoned_calcResolution_tier, calcResolution_tier.
    rewrite (Zoned_tierOf_fixed _ _ (proj2 Hc)). fold (dateOf c0).
    set (r := tierOf (dateOf c0) (Zoned.time.inst end_)).
    rewrite (apply_fixed zone Local Local_fixed r _
               (plain_readsLocal zone Local Local_fixed _ Hc)).
    fold (dateOf c0).
    exists (initFuel (Zoned.time.inst end_)
              (apply (resolutionOf zone r) (dateOf c0))).
    pose proof (initBuckets_fixed zone Local Local_fixed
                  (initFuel (Zoned.time.inst end_)
                     (apply (resolutionOf zone r) (dateOf c0)))
                  r end_ (apply (resolutionOf zone r) (dateOf c0)) [] h)
      as Hinit.
    cbn [fmap list_fmap] in Hinit. rewrite <- Hinit.
    destruct (Zoned.initBuckets _ _ _ _ _ _) as [[gbs h']| |];
      cbn [outcome_map bind fst snd]; [|done|done].
    rewrite <- (tallyLoop_fixed zone Local Local_fixed r opts gbs 0 rest h' Hall).
    by destruct (Zoned.tallyLoop _ _ _ _ _ _). }
  destruct Hat as [n Hn]. exists n. intros fuel Hle.
  rewrite Zoned_TallyCommitsByDate_more with (fuel := n); [done| |done].
  intros E. rewrite E in Hn. symmetry in Hn.
  by apply TallyCommitsByDate_fuel in Hn.
Qed.

(** A result of the program, from the result of the program at a fixed
    offset. *)
Lemma TallyCommitsByDate_transfer gs opts end_ h res :
  Forall (datedLocal Local) (Zoned.okPrefix gs) ->
  TallyCommitsByDate zone (eraseStream gs) (eraseOpts Local opts)
    (Zoned.time.inst end_) h = Done res ->
  exists (n : nat) gres,
    (forall fuel, (n <= fuel)%nat ->
       Zoned.TallyCommitsByDate Local fuel gs opts end_ h = Done gres)
    /\ eraseResult gres = res
    /\ Forall (fun b => Zoned.plain Local (Zoned.Time b)) (Zoned.buckets gres).
Proof.
  intros Hall Hrun.
  destruct (TallyCommitsByDate_fixed gs opts end_ h Hall) as [n Hn].
  pose proof (Hn n (le_n n)) as Hat. rewrite Hrun in Hat.
  destruct (Zoned.TallyCommitsByDate Local n gs opts end_ h)
    as [gres| |] eqn:E; try done.
  injection Hat as Hres. exists n, gres. split; [|split; [done|]].
  - intros fuel Hle. specialize (Hn fuel Hle). rewrite Hrun in Hn.
    rewrite Zoned_TallyCommitsByDate_more with (fuel := n); [done| |done].
    by rewrite E.
  - by eapply Zoned_buckets_plain.
Qed.

End Agreement.

(** ** The cursor, and the parts of a history *)


Lemma eraseStream_yieldAll cs :
  eraseStream (Zoned.yieldAll cs) = yieldAll (eraseCommit <$> cs).
Proof.
  induction cs as [|c cs IH]; [done|].
  cbn [Zoned.yieldAll eraseStream map yieldAll fmap list_fmap fst snd].
  f_equal. exact IH.
Qed.

Lemma Zoned_okPrefix_yieldAll cs : Zoned.okPrefix (Zoned.yieldAll cs) = cs.
Proof.
  induction cs as [|c cs IH]; [done|].
  cbn [Zoned.yieldAll map Zoned.okPrefix]. f_equal. exact IH.
Qed.

Lemma Date_eraseCommit (cs : list Zoned.git.Commit) :
  git.Date <$> (eraseCommit <$> cs) = dateOf <$> cs.
Proof. by rewrite <- list_fmap_compose. Qed.


(** ** The merges, on buckets whose times carry [time.Local] *)

Section Merges.

Variable Local : Zoned.time.Location.
Variable Tally_Combine : Tally -> Tally -> Tally.

Lemma eqb_plain t u :
  Zoned.plain Local t -> Zoned.plain Local u ->
  Zoned.time.eqb t u = (Zoned.time.inst t =? Zoned.time.inst u).
Proof.
  intros Ht%plain_atInstant Hu%plain_atInstant. rewrite Ht, Hu.
  unfold Zoned.time.eqb. cbn [Zoned.atInstant Zoned.time.inst
    Zoned.time.mono Zoned.time.loc].
  by rewrite Nat.eqb_refl, !andb_true_r.
Qed.

Lemma TimeBucket_Combine_fixed a b h :
  Zoned.plainBucket Local a -> Zoned.plainBucket Local b ->
  outcome_map (fun p => (eraseBucket p.1, p.2))
    (Zoned.TimeBucket_Combine Tally_Combine a b h)
  = TimeBucket_Combine Tally_Combine (eraseBucket a) (eraseBucket b) h.
Proof.
  intros Ha Hb. unfold Zoned.TimeBucket_Combine, TimeBucket_Combine.
  cbn [eraseBucket Name Time tallies]. rewrite (eqb_plain _ _ Ha Hb).
  destruct (negb (String.eqb _ _)); [done|].
  destruct (negb (_ =? _)); [done|].
  change (contents h (eraseBucket b)) with (Zoned.contents h b).
  destruct (bool_decide _); [done|].
  by destruct (h !! Zoned.tallies a).
Qed.

Lemma TimeBucket_Combine_receiver a b h r h' :
  Zoned.TimeBucket_Combine Tally_Combine a b h = Done (r, h') -> r = a.
Proof.
  unfold Zoned.TimeBucket_Combine.
  destruct (negb (String.eqb _ _)); [done|].
  destruct (negb (Zoned.time.eqb _ _)); [done|].
  destruct (bool_decide _); [by intros [= <- _]|].
  destruct (h !! Zoned.tallies a); [by intros [= <- _]|done].
Qed.

Lemma putAll_fixed a m :
  eraseBucket <$> Zoned.putAll a m
  = putAll (eraseBucket <$> a) (eraseBucket <$> m).
Proof.
  revert m. induction a as [|x a IH]; intros m; [done|].
  cbn [Zoned.putAll putAll foldl fmap list_fmap].
  fold (Zoned.putAll a (<[Zoned.bucketKey x := x]> m)).
  fold (putAll (eraseBucket <$> a)
          (<[bucketKey (eraseBucket x) := eraseBucket x]> (eraseBucket <$> m))).
  by rewrite IH, fmap_insert.
Qed.

Lemma putAll_plain a m :
  Forall (Zoned.plainBucket Local) a -> map_Forall (fun _ => Zoned.plainBucket Local) m ->
  map_Forall (fun _ => Zoned.plainBucket Local) (Zoned.putAll a m).
Proof.
  revert m. induction a as [|x a IH]; intros m Ha Hm; [done|].
  apply Forall_cons in Ha as [Hx Ha]. cbn [Zoned.putAll foldl].
  apply IH; [done|]. by apply map_Forall_insert_2.
Qed.

Lemma mergeAll_fixed b m h :
  Forall (Zoned.plainBucket Local) b -> map_Forall (fun _ => Zoned.plainBucket Local) m ->
  outcome_map (fun p => (eraseBucket <$> p.1, p.2))
    (Zoned.mergeAll Tally_Combine b m h)
  = mergeAll Tally_Combine (eraseBucket <$> b) (eraseBucket <$> m) h.
Proof.
  revert m h. induction b as [|x b IH]; intros m h Hb Hm; [done|].
  apply Forall_cons in Hb as [Hx Hb].
  cbn [Zoned.mergeAll mergeAll fmap list_fmap].
  change (bucketKey (eraseBucket x)) with (Zoned.bucketKey x).
  rewrite lookup_fmap.
  destruct (m !! Zoned.bucketKey x) as [existing|] eqn:E;
    cbn [fmap option_fmap option_map].
  - rewrite <- (TimeBucket_Combine_fixed existing x h (Hm _ _ E) Hx).
    destruct (Zoned.TimeBucket_Combine _ _ _ _) as [[r h']| |] eqn:Ec;
      cbn [outcome_map bind fst snd]; [|done|done].
    apply TimeBucket_Combine_receiver in Ec as ->.
    rewrite <- fmap_insert. apply IH; [done|].
    by apply map_Forall_insert_2; [eapply Hm|].
  - rewrite <- fmap_insert. apply IH; [done|].
    by apply map_Forall_insert_2.
Qed.

Lemma mergeAll_plain b m h m' h' :
  Forall (Zoned.plainBucket Local) b -> map_Forall (fun _ => Zoned.plainBucket Local) m ->
  Zoned.mergeAll Tally_Combine b m h = Done (m', h') ->
  map_Forall (fun _ => Zoned.plainBucket Local) m'.
Proof.
  revert m h. induction b as [|x b IH]; intros m h Hb Hm.
  - by intros [= <- <-].
  - apply Forall_cons in Hb as [Hx Hb]. cbn [Zoned.mergeAll].
    destruct (m !! Zoned.bucketKey x) as [existing|] eqn:E.
    + destruct (Zoned.TimeBucket_Combine _ _ _ _) as [[r h1]| |] eqn:Ec;
        cbn [bind fst snd]; [|done|done].
      apply TimeBucket_Combine_receiver in Ec as ->.
      apply IH; [done|]. by apply map_Forall_insert_2; [eapply Hm|].
    + apply IH; [done|]. by apply map_Forall_insert_2.
Qed.

Lemma map_fmap_list {A B} (f : A -> B) (l : list A) : map f l = f <$> l.
Proof. induction l as [|x l IH]; [done|]. cbn. by rewrite IH. Qed.

Lemma sortedKeys_fixed (m : gmap Z Zoned.TimeBucket) :
  sortedKeys (eraseBucket <$> m) = Zoned.sortedKeys m.
Proof.
  unfold sortedKeys, Zoned.sortedKeys.
  assert (Hle : Transitive Z.le) by (intros ???; lia).
  assert (Htot : Total Z.le) by (intros x y; lia).
  assert (Hanti : AntiSymm eq Z.le) by (intros x y; lia).
  apply (StronglySorted_unique Z.le);
    try (apply StronglySorted_merge_sort; done).
  rewrite !merge_sort_Permutation, !map_fmap_list, map_to_list_fmap.
  rewrite <- list_fmap_compose. done.
Qed.

Lemma omap_lookup_fixed (m : gmap Z Zoned.TimeBucket) (keys : list Z) :
  omap (fun key => (eraseBucket <$> m) !! key) keys
  = eraseBucket <$> omap (fun key => m !! key) keys.
Proof.
  induction keys as [|k keys IH]; [done|].
  cbn [omap list_omap]. rewrite lookup_fmap, IH.
  by destruct (m !! k).
Qed.

Lemma TimeSeries_Combine_fixed a b h :
  Forall (Zoned.plainBucket Local) a -> Forall (Zoned.plainBucket Local) b ->
  outcome_map (fun p => (eraseBucket <$> p.1, p.2))
    (Zoned.TimeSeries_Combine Tally_Combine a b h)
  = TimeSeries_Combine Tally_Combine (eraseBucket <$> a) (eraseBucket <$> b) h.
Proof.
  intros Ha Hb. unfold Zoned.TimeSeries_Combine, TimeSeries_Combine.
  pose proof (putAll_fixed a ∅) as Hput. rewrite fmap_empty in Hput.
  rewrite <- Hput, <- mergeAll_fixed;
    [|done|by apply putAll_plain; [|apply map_Forall_empty]].
  destruct (Zoned.mergeAll _ _ _ _) as [[m' h']| |];
    cbn [outcome_map bind fst snd]; [|done|done].
  by rewrite sortedKeys_fixed, omap_lookup_fixed.
Qed.

Lemma TimeSeries_Combine_plain a b h out h' :
  Forall (Zoned.plainBucket Local) a -> Forall (Zoned.plainBucket Local) b ->
  Zoned.TimeSeries_Combine Tally_Combine a b h = Done (out, h') ->
  Forall (Zoned.plainBucket Local) out.
Proof.
  intros Ha Hb. unfold Zoned.TimeSeries_Combine.
  destruct (Zoned.mergeAll _ _ _ _) as [[m' h1]| |] eqn:E;
    cbn [bind fst snd]; [|done|done].
  apply mergeAll_plain in E;
    [|done|by apply putAll_plain; [|apply map_Forall_empty]].
  intros [= <- <-]. apply Forall_forall. intros x Hx.
  apply list_elem_of_omap in Hx as (k & _ & Hk). by eapply E.
Qed.

End Merges.

Lemma plain_inst_eq Local t u :
  Zoned.plain Local t -> Zoned.plain Local u ->
  Zoned.time.inst t = Zoned.time.inst u -> t = u.
Proof.
  intros Ht%plain_atInstant Hu%plain_atInstant E. rewrite Ht, Hu. by rewrite E.
Qed.

(** C2 (as amended).  [time.Local] has a fixed offset; the commits, whose
    dates carry [time.Local] and no monotonic reading, come in the order
    of their dates, all before [end_], and are split in two parts, each in
    order, that choose the same tier as the whole; [f1], the first commit
    of all, leads the first part, [f2] leads the second.  With a
    [Tally.Combine] that sums, the three calls return, given fuel enough,
    and combining the series of the parts does not panic: it gives the
    buckets of tallying the whole, by name and time, and in every bucket
    the same counts under every author key; the key of [f2] in the bucket
    of [f2] is excepted. *)
Theorem C2_partition_merge_at_fixed_offset
    Local zone Tally_Combine f1 r1 f2 r2 w opts end_ h h0 :
  (forall a b, counts (Tally_Combine a b) = counts_add (counts a) (counts b)) ->
  Zoned.fixedOffset Local zone ->
  Forall (datedLocal Local) (f1 :: w) ->
  Zoned.Mode opts <> LastModifiedMode ->
  w ≡ₚ r1 ++ f2 :: r2 ->
  Sorted Z.le (dateOf <$> f1 :: w) ->
  Sorted Z.le (dateOf <$> f1 :: r1) ->
  Sorted Z.le (dateOf <$> f2 :: r2) ->
  Forall (fun c => dateOf c < Zoned.time.inst end_) w ->
  Zoned.tierOf (Zoned.git.Date f2) end_ = Zoned.tierOf (Zoned.git.Date f1) end_ ->
  exists (n : nat) res1 res2 out h3 resw,
    (forall fuel, (n <= fuel)%nat ->
       Zoned.TallyCommitsByDate Local fuel (Zoned.yieldAll (f1 :: r1))
         opts end_ h = Done res1
       /\ Zoned.TallyCommitsByDate Local fuel (Zoned.yieldAll (f2 :: r2))
            opts end_ (Zoned.store res1) = Done res2
       /\ Zoned.TallyCommitsByDate Local fuel (Zoned.yieldAll (f1 :: w))
            opts end_ h0 = Done resw)
    /\ Zoned.TimeSeries_Combine Tally_Combine (Zoned.buckets res1)
         (Zoned.buckets res2) (Zoned.store res2) = Done (out, h3)
    /\ Zoned.err res1 = None /\ Zoned.err res2 = None
    /\ Zoned.err resw = None
    /\ length out = length (Zoned.buckets resw)
    /\ forall (j : nat) bo bw,
         out !! j = Some bo -> Zoned.buckets resw !! j = Some bw ->
         Zoned.Name bo = Zoned.Name bw /\ Zoned.Time bo = Zoned.Time bw
         /\ forall key,
              ~ (Zoned.Time bw
                 = Zoned.apply
                     (Zoned.calcResolution Local (Zoned.git.Date f1) end_)
                     (Zoned.git.Date f2)
                 /\ key = Zoned.Key opts f2) ->
              (counts <$> Zoned.contents h3 bo) !! key
              = (counts <$> Zoned.contents (Zoned.store resw) bw) !! key.
Proof.
  intros Hsums Hfixed Hloc Hmode Hperm Hsw Hs1 Hs2 Hall Htier.
  apply Forall_cons in Hloc as [Hf1 Hw].
  assert (Hparts : Forall (datedLocal Local) (r1 ++ f2 :: r2))
    by (by rewrite <- Hperm).
  apply Forall_app in Hparts as [Hr1 [Hf2 Hr2]%Forall_cons].
  destruct (partition_merge_same_tier zone Tally_Combine Hsums
              (eraseCommit f1) (eraseCommit <$> r1) (eraseCommit f2)
              (eraseCommit <$> r2) (eraseCommit <$> w) (eraseOpts Local opts)
              (Zoned.time.inst end_) h h0)
    as (res1 & res2 & out & h3 & resw & E1 & E2 & E3 & Ew & Herr1 & Herr2
        & Herrw & Hlen & Hsame).
  { exact Hmode. }
  { rewrite Hperm, fmap_app. reflexivity. }
  { by rewrite <- fmap_cons, Date_eraseCommit. }
  { by rewrite <- fmap_cons, Date_eraseCommit. }
  { by rewrite <- fmap_cons, Date_eraseCommit. }
  { by apply Forall_fmap. }
  { cbn [eraseCommit git.Date].
    by rewrite <- !Zoned_tierOf_fixed by (apply Hf1 || apply Hf2). }
  rewrite <- !fmap_cons, <- !eraseStream_yieldAll in E1, E2, Ew.
  destruct (TallyCommitsByDate_transfer zone Local Hfixed
              (Zoned.yieldAll (f1 :: r1)) opts end_ h res1)
    as (n1 & g1 & Hg1 & Hres1 & Hp1); [|exact E1|].
  { rewrite Zoned_okPrefix_yieldAll. by constructor. }
  assert (Hst1 : store res1 = Zoned.store g1) by (by rewrite <- Hres1).
  rewrite Hst1 in E2.
  destruct (TallyCommitsByDate_transfer zone Local Hfixed
              (Zoned.yieldAll (f2 :: r2)) opts end_ (Zoned.store g1) res2)
    as (n2 & g2 & Hg2 & Hres2 & Hp2); [|exact E2|].
  { rewrite Zoned_okPrefix_yieldAll. by constructor. }
  destruct (TallyCommitsByDate_transfer zone Local Hfixed
              (Zoned.yieldAll (f1 :: w)) opts end_ h0 resw)
    as (nw & gw & Hgw & Hresw & Hpw); [|exact Ew|].
  { rewrite Zoned_okPrefix_yieldAll. by constructor. }
  pose proof (TimeSeries_Combine_fixed Local Tally_Combine
                (Zoned.buckets g1) (Zoned.buckets g2) (Zoned.store g2)
                Hp1 Hp2) as Hc.
  assert (Hb1 : eraseBucket <$> Zoned.buckets g1 = buckets res1)
    by (by rewrite <- Hres1).
  assert (Hb2 : eraseBucket <$> Zoned.buckets g2 = buckets res2)
    by (by rewrite <- Hres2).
  assert (Hst2 : Zoned.store g2 = store res2) by (by rewrite <- Hres2).
  rewrite Hb1, Hb2, Hst2, E3 in Hc.
  destruct (Zoned.TimeSeries_Combine _ _ _ _) as [[gout gh3]| |] eqn:Eg;
    try done.
  cbn [outcome_map fst snd] in Hc. injection Hc as Hout Hh3.
  rewrite <- Hst2 in Eg.
  pose proof (TimeSeries_Combine_plain Local Tally_Combine _ _ _ _ _
                Hp1 Hp2 Eg) as Hpo.
  exists (n1 `max` (n2 `max` nw))%nat, g1, g2, gout, gh3, gw.
  split; [|split; [exact Eg|]].
  { intros fuel Hle. split; [apply Hg1; lia|]. split; [apply Hg2|apply Hgw]; lia. }
  split; [by rewrite <- Hres1 in Herr1|].
  split; [by rewrite <- Hres2 in Herr2|].
  split; [by rewrite <- Hresw in Herrw|].
  split.
  { rewrite <- Hout, <- Hresw in Hlen. cbn [eraseResult buckets] in Hlen.
    by rewrite !length_fmap in Hlen. }
  intros j bo bw Hbo Hbw.
  destruct (Hsame j (eraseBucket bo) (eraseBucket bw)) as (Hn & Ht & Hk).
  { by rewrite <- Hout, list_lookup_fmap, Hbo. }
  { rewrite <- Hresw. cbn [eraseResult buckets].
    by rewrite list_lookup_fmap, Hbw. }
  rewrite Forall_forall in Hpo, Hpw.
  pose proof (Hpo bo (list_elem_of_lookup_2 _ _ _ Hbo)) as Hpbo.
  pose proof (Hpw bw (list_elem_of_lookup_2 _ _ _ Hbw)) as Hpbw.
  split; [exact Hn|]. split; [by apply (plain_inst_eq Local)|].
  intros key Hne. rewrite <- Hh3, <- Hresw in Hk. apply Hk.
  intros [Etime Ekey]. apply Hne. split.
  - rewrite (plain_atInstant Local _ Hpbw), Zoned_calcResolution_tier,
      (Zoned_tierOf_fixed _ _ (proj2 Hf1)),
      (apply_fixed zone Local Hfixed _ _
         (plain_readsLocal zone Local Hfixed _ Hf2)).
    f_equal. cbn [eraseBucket Time eraseCommit git.Date] in Etime.
    by rewrite Etime, calcResolution_tier.
  - rewrite Ekey. cbn [eraseOpts Key].
    by rewrite (liftCommit_eraseCommit Local f2 Hf2).
Qed.

(** ** Further properties of the program over Go's times *)

Lemma Zoned_initBuckets_maps fuel res end_ t bs h bs' h' (l0 : nat) :
  Zoned.tallies <$> bs = seq l0 (length bs) ->
  length h = (l0 + length bs)%nat ->
  Zoned.initBuckets fuel res end_ t bs h = Done (bs', h') ->
  Zoned.tallies <$> bs' = seq l0 (length bs')
  /\ length h' = (l0 + length bs')%nat
  /\ exists k : nat, h' = h ++ replicate k ∅.
Proof.
  revert t bs h. induction fuel as [|fuel IH]; intros t bs h Hbs Hh; [done|].
  cbn [Zoned.initBuckets]. destruct (Zoned.time.After end_ t).
  - unfold Zoned.newBucket, newMap. intros Hrun.
    apply IH in Hrun as (Hbs' & Hh' & k & ->).
    + split; [done|]. split; [done|]. exists (S k).
      by rewrite <- app_assoc.
    + rewrite fmap_app, length_app, seq_app, Hbs. cbn. by rewrite Hh.
    + rewrite !length_app. cbn. lia.
  - intros [= <- <-]. split; [done|]. split; [done|]. exists 0%nat.
    by rewrite app_nil_r.
Qed.

Lemma Zoned_seek_lookup x i b rest i' b' :
  Zoned.seek x i b rest = Done (i', b') ->
  exists j : nat, i' = (i + j)%nat /\ (b :: rest) !! j = Some b'.
Proof.
  revert i b. induction rest as [|b1 rest IH]; intros i b; cbn [Zoned.seek].
  - destruct (negb _); [done|]. intros [= <- <-]. exists 0%nat. split; [lia|done].
  - destruct (negb _).
    + intros (j & -> & Hj)%IH. exists (S j). split; [lia|done].
    + intros [= <- <-]. exists 0%nat. split; [lia|done].
Qed.

Lemma Zoned_tallyLoop_maps res opts bs i s h r :
  Zoned.tallyLoop res opts bs i s h = Done r ->
  Zoned.buckets r = bs
  /\ length (Zoned.store r) = length h
  /\ forall a : nat, a ∉ Zoned.tallies <$> bs -> Zoned.store r !! a = h !! a.
Proof.
  revert i h. induction s as [|[c [e|]] s IH]; intros i h.
  - by intros [= <-].
  - by intros [= <-].
  - cbn [Zoned.tallyLoop]. destruct (bs !! i) as [b|] eqn:Hb; [|done].
    destruct (if Zoned.time.After _ _ then _ else _) as [[i' b']| |] eqn:Hr;
      cbn [bind]; [|done|done].
    assert (Hb' : bs !! i' = Some b').
    { destruct (Zoned.time.After _ _).
      - apply Zoned_seek_lookup in Hr as (j & -> & Hj).
        destruct j as [|j]; [by rewrite Nat.add_0_r; injection Hj as <-|].
        change ((b :: drop (S i) bs) !! S j) with (drop (S i) bs !! j) in Hj.
        rewrite lookup_drop in Hj.
        by replace (i + S j)%nat with (S i + j)%nat by lia.
      - by injection Hr as <- <-. }
    destruct (h !! Zoned.tallies b') as [m|]; [|done].
    rewrite list_insert_id by done. intros (Hbs & Hlen & Hout)%IH.
    split; [done|]. rewrite length_insert in Hlen. split; [done|].
    intros a Ha. rewrite Hout by done. apply list_lookup_insert_ne.
    intros <-. apply Ha, list_elem_of_fmap. exists b'. split; [done|].
    by eapply list_elem_of_lookup_2.
Qed.

(** Whatever [time.Local] is: when the call returns, every bucket has a
    map of its own that the call has made, at the addresses after those of
    the maps there were, in the order of the buckets; and the maps there
    were are as they were. *)
Theorem TallyCommitsByDate_makes_new_maps Local fuel s opts end_ h res :
  Zoned.TallyCommitsByDate Local fuel s opts end_ h = Done res ->
  Zoned.tallies <$> Zoned.buckets res
  = seq (length h) (length (Zoned.buckets res))
  /\ NoDup (Zoned.tallies <$> Zoned.buckets res)
  /\ length (Zoned.store res) = (length h + length (Zoned.buckets res))%nat
  /\ forall (a : nat) m, h !! a = Some m -> Zoned.store res !! a = Some m.
Proof.
  assert (Hnone : forall r : Zoned.TallyResult,
            Zoned.buckets r = [] -> Zoned.store r = h ->
            Zoned.tallies <$> Zoned.buckets r
            = seq (length h) (length (Zoned.buckets r))
            /\ NoDup (Zoned.tallies <$> Zoned.buckets r)
            /\ length (Zoned.store r)
               = (length h + length (Zoned.buckets r))%nat
            /\ forall (a : nat) m, h !! a = Some m ->
                 Zoned.store r !! a = Some m).
  { intros r -> ->. cbn. split; [done|]. split; [constructor|].
    split; [lia|done]. }
  unfold Zoned.TallyCommitsByDate.
  destruct (TallyMode_eqb _ _); [intros [= <-]; by apply Hnone|].
  destruct s as [|[c0 [e|]] rest]; try (intros [= <-]; by apply Hnone).
  destruct (Zoned.initBuckets _ _ _ _ _ _) as [[bs h1]| |] eqn:E;
    cbn [bind fst snd]; [|done|done].
  apply (Zoned_initBuckets_maps _ _ _ _ _ _ _ _ (length h)) in E
    as (Hbs & Hlen & k & ->); [|done|cbn; lia].
  destruct (Zoned.tallyLoop _ _ _ _ _ _) as [r| |] eqn:E2; cbn [bind];
    [|done|done].
  apply Zoned_tallyLoop_maps in E2 as (Hr & Hlen2 & Hout).
  intros [= <-]. cbn [Zoned.deferred Zoned.buckets Zoned.store].
  rewrite Hr. split; [done|]. split; [rewrite Hbs; apply NoDup_seq|].
  split; [lia|]. intros a m Ha. rewrite Hout.
  - by apply lookup_app_l_Some.
  - rewrite Hbs, elem_of_seq. apply lookup_lt_Some in Ha. lia.
Qed.

(** Whatever [time.Local] is: the times of the buckets of a returned
    series carry [time.Local] and no monotonic reading, so that [==] on
    them, as [TimeBucket.Combine] has it, is equality of instants. *)
Theorem bucket_times_carry_Local Local fuel s opts end_ h res :
  Zoned.TallyCommitsByDate Local fuel s opts end_ h = Done res ->
  Forall (Zoned.plainBucket Local) (Zoned.buckets res)
  /\ forall a b, a ∈ Zoned.buckets res -> b ∈ Zoned.buckets res ->
       Zoned.time.eqb (Zoned.Time a) (Zoned.Time b)
       = Zoned.time.Equal (Zoned.Time a) (Zoned.Time b).
Proof.
  intros Hrun%Zoned_buckets_plain. split; [exact Hrun|].
  rewrite Forall_forall in Hrun. intros a b Ha%Hrun Hb%Hrun.
  rewrite (eqb_plain Local _ _ Ha Hb). unfold Zoned.time.Equal.
  by rewrite (proj2 Ha).
Qed.

(** The loop that makes the buckets ends only if [next] moves on: from a
    time before [end] that [next] leaves where it is, it does not return,
    whatever the fuel. *)
Theorem initBuckets_stuck fuel res end_ t bs h :
  Zoned.time.After end_ t = true ->
  Zoned.next res t = t ->
  Zoned.initBuckets fuel res end_ t bs h = OutOfFuel.
Proof.
  intros Hafter Hnext. revert bs h.
  induction fuel as [|fuel IH]; intros bs h; [done|].
  cbn [Zoned.initBuckets]. rewrite Hafter, Hnext.
  unfold Zoned.newBucket, newMap. apply IH.
Qed.

(** When [time.Local] has a fixed offset and the dates of the commits
    carry it, the program over Go's times is, given fuel enough, the
    program over instants: the same outcome, and in a result the same
    buckets, error, rest of the stream and maps. *)
Theorem Zoned_is_Bucket_at_fixed_offset Local zone gs opts end_ h :
  Zoned.fixedOffset Local zone ->
  Forall (datedLocal Local) (Zoned.okPrefix gs) ->
  exists n : nat, forall fuel, (n <= fuel)%nat ->
    outcome_map eraseResult
      (Zoned.TallyCommitsByDate Local fuel gs opts end_ h)
    = TallyCommitsByDate zone (eraseStream gs) (eraseOpts Local opts)
        (Zoned.time.inst end_) h.
Proof. intros Hfixed. by apply TallyCommitsByDate_fixed. Qed.

(** At a fixed offset truncation is monotone on the times that carry
    [time.Local]: a later commit is never truncated to an earlier bucket. *)
Theorem apply_monotone_at_fixed_offset Local zone start end_ t u :
  Zoned.fixedOffset Local zone ->
  Zoned.time.loc t = Local -> Zoned.time.loc u = Local ->
  Zoned.time.inst t <= Zoned.time.inst u ->
  Zoned.time.inst (Zoned.apply (Zoned.calcResolution Local start end_) t)
  <= Zoned.time.inst (Zoned.apply (Zoned.calcResolution Local start end_) u).
Proof.
  intros Hfixed Ht Hu Htu. rewrite Zoned_calcResolution_tier.
  assert (Hrt : readsLocal zone t)
    by (unfold readsLocal; rewrite Ht; apply Hfixed).
  assert (Hru : readsLocal zone u)
    by (unfold readsLocal; rewrite Hu; apply Hfixed).
  rewrite (apply_fixed zone Local Hfixed _ t Hrt),
    (apply_fixed zone Local Hfixed _ u Hru).
  cbn [Zoned.atInstant Zoned.time.inst]. by apply apply_mono.
Qed.

(** An empty stream gives an empty series and no error; an error as the
    first item of the stream is returned with no buckets, wrapped by the
    deferred function only, and nothing more is pulled.  No map is made
    or written. *)
Theorem TallyCommitsByDate_without_first_commit
    Local fuel c e rest opts end_ h :
  Zoned.Mode opts <> LastModifiedMode ->
  Zoned.TallyCommitsByDate Local fuel [] opts end_ h
  = Done {| Zoned.buckets := []; Zoned.err := None; Zoned.unread := [];
            Zoned.store := h |}
  /\ Zoned.TallyCommitsByDate Local fuel ((c, Some e) :: rest) opts end_ h
     = Done {| Zoned.buckets := [];
               Zoned.err :=
                 Some (fmt_Errorf "error while tallying commits by date: " e);
               Zoned.unread := rest; Zoned.store := h |}.
Proof.
  intros Hmode. unfold Zoned.TallyCommitsByDate.
  destruct (TallyMode_eqb _ _) eqn:E; [by apply TallyMode_eqb_eq in E|].
  by split.
Qed.

(** [a.Combine(a)] passes both checks, whatever the time of [a], and
    leaves in the map of [a], under every key, the tally combined with
    itself. *)
Theorem Combine_with_itself Tally_Combine a h :
  (Zoned.tallies a < length h)%nat ->
  exists h',
    Zoned.TimeBucket_Combine Tally_Combine a a h = Done (a, h')
    /\ length h' = length h
    /\ Zoned.contents h' a
       = (fun tally => Tally_Combine tally tally) <$> Zoned.contents h a
    /\ forall b, Zoned.tallies b <> Zoned.tallies a ->
         Zoned.contents h' b = Zoned.contents h b.
Proof.
  intros Ha. unfold Zoned.TimeBucket_Combine.
  rewrite String.eqb_refl.
  assert (Zoned.time.eqb (Zoned.Time a) (Zoned.Time a) = true) as ->.
  { unfold Zoned.time.eqb. rewrite Z.eqb_refl, Nat.eqb_refl.
    destruct (Zoned.time.mono _); [by rewrite Z.eqb_refl|done]. }
  cbn [negb].
  destruct (lookup_lt_is_Some_2 h _ Ha) as [ma Hma].
  assert (Hc : Zoned.contents h a = ma)
    by (unfold Zoned.contents; by rewrite Hma).
  destruct (bool_decide_reflect (Zoned.contents h a = ∅)) as [He|Hne].
  - exists h. split; [done|]. split; [done|]. split; [|done].
    by rewrite He, fmap_empty.
  - rewrite Hma. eexists. split; [done|]. split; [by rewrite length_insert|].
    change (Zoned.mergeEntry Tally_Combine) with (mergeEntry Tally_Combine).
    rewrite map_fold_mergeEntry, Hc. split.
    + unfold Zoned.contents. rewrite list_lookup_insert_eq by done.
      cbn [from_option id]. apply map_eq. intros key.
      rewrite mergeMaps_lookup, lookup_fmap. by destruct (ma !! key).
    + intros b Hb. unfold Zoned.contents.
      by rewrite list_lookup_insert_ne.
Qed.


(** * Part IV: the theorems at sample inputs *)

Lemma Tally_Combine_sum_sums a b :
  counts (Tally_Combine_sum a b) = counts_add (counts a) (counts b).
Proof.
  unfold counts, counts_add, Tally_Combine_sum, int_add. cbn [fst snd
    numTallied added removed fileset].
  by rewrite !wrap_add_l, !wrap_add_r, !wrap_idemp, dom_union_L.
Qed.

Lemma time_Date_utc y m d : time_Date 0 y m d = utc y m d.
Proof. unfold time_Date, utc. lia. Qed.

(** The first commit of a one-commit stream is not tallied. *)
Lemma C1_witness :
  Mode (byEmail CommitMode) <> LastModifiedMode
  /\ exists res,
      TallyCommitsByDate 0 [(jan05, None)] (byEmail CommitMode)
        (utc 2024 1 7) [] = Done res
      /\ err res = None
      /\ (forall b, b ∈ buckets res -> contents (store res) b = ∅)
      /\ (git.Date jan05 < utc 2024 1 7 ->
          exists b, buckets res !! 0%nat = Some b
                    /\ Time b = apply (calcResolution 0 (git.Date jan05)
                                         (utc 2024 1 7)) (git.Date jan05)).
Proof.
  split; [discriminate|].
  apply (C1_first_commit_is_not_tallied 0 jan05 (byEmail CommitMode)
           (utc 2024 1 7) []).
  discriminate.
Defined.

(** Parts that choose different tiers do not combine: the monthly bucket
    "Apr 2024" and the daily bucket "2024-04-01" share a time key. *)
Lemma C2_counterexample :
  exists res1 res2 resw,
    TallyCommitsByDate 0 (yieldAll partA) (byEmail CommitMode)
      (utc 2024 4 10) [] = Done res1
    /\ TallyCommitsByDate 0 (yieldAll partB) (byEmail CommitMode)
         (utc 2024 4 10) (store res1) = Done res2
    /\ TallyCommitsByDate 0 (yieldAll (partA ++ partB)) (byEmail CommitMode)
         (utc 2024 4 10) [] = Done resw
    /\ Name <$> buckets resw
       = ["Jan 2024"; "Feb 2024"; "Mar 2024"; "Apr 2024"]%string
    /\ TimeSeries_Combine Tally_Combine_sum (buckets res1) (buckets res2)
         (store res2)
       = Panic "cannot combine buckets whose names do not match".
Proof.
  eexists _, _, _.
  split; [vm_compute; reflexivity|].
  split; [vm_compute; reflexivity|].
  split; [vm_compute; reflexivity|].
  split; vm_compute; reflexivity.
Qed.

(** The example of the spec: 36 daily buckets, not two monthly ones. *)
Lemma C3_counterexample :
  tierOf (git.Date jan05) (utc 2024 2 10) = Daily
  /\ time.Sub (utc 2024 2 10) (git.Date jan05) = 36 * 24 * time.Hour
  /\ exists res,
      TallyCommitsByDate 0 (yieldAll [jan05; jan20; feb02])
        (byEmail CommitMode) (utc 2024 2 10) [] = Done res
      /\ length (buckets res) = 36%nat
      /\ Name <$> buckets res <> ["Jan 2024"; "Feb 2024"]%string
      /\ (Name <$> buckets res) !! 0%nat = Some "2024-01-05"%string
      /\ (Name <$> buckets res) !! 35%nat = Some "2024-02-09"%string.
Proof.
  split; [vm_compute; reflexivity|]. split; [vm_compute; reflexivity|].
  eexists. split; [vm_compute; reflexivity|].
  split; [vm_compute; reflexivity|].
  split; [vm_compute; discriminate|].
  split; vm_compute; reflexivity.
Qed.

Lemma C3_witness :
  Mode (byEmail CommitMode) <> LastModifiedMode
  /\ git.Date jan05 = time_Date 0 2024 1 5
  /\ git.Date jan20 = time_Date 0 2024 1 20
  /\ git.Date feb02 = time_Date 0 2024 2 2
  /\ exists res,
      TallyCommitsByDate 0 (yieldAll [jan05; jan20; feb02])
        (byEmail CommitMode) (time_Date 0 2024 2 10) [] = Done res
      /\ err res = None
      /\ calcResolution 0 (git.Date jan05) (time_Date 0 2024 2 10) = daily 0
      /\ length (buckets res) = 36%nat
      /\ (forall b, buckets res !! 15%nat = Some b ->
            Name b = "2024-01-20"%string
            /\ numTallied <$> contents (store res) b
               = {[ "bob@example.com"%string := 1 ]}).
Proof.
  assert (D1 : git.Date jan05 = time_Date 0 2024 1 5)
    by (symmetry; apply time_Date_utc).
  assert (D2 : git.Date jan20 = time_Date 0 2024 1 20)
    by (symmetry; apply time_Date_utc).
  assert (D3 : git.Date feb02 = time_Date 0 2024 2 2)
    by (symmetry; apply time_Date_utc).
  split; [discriminate|]. split; [exact D1|]. split; [exact D2|].
  split; [exact D3|].
  destruct (C3_example_selects_daily_buckets 0 jan05 jan20 feb02
              (byEmail CommitMode) [])
    as (res & Hrun & Herr & Hres & Hnames & H15 & _);
    [discriminate | exact D1 | exact D2 | exact D3 |].
  exists res. split; [exact Hrun|]. split; [exact Herr|].
  split; [exact Hres|]. split; [|exact H15].
  rewrite <- (length_fmap Name), Hnames. reflexivity.
Defined.

Lemma C4_witness :
  Mode (byEmail LastModifiedMode) = LastModifiedMode
  /\ TallyCommitsByDate 0 (yieldAll [jan05; jan20])
       (byEmail LastModifiedMode) (utc 2024 2 10) sampleHeap
     = Done {| buckets := [];
               err := Some (fmt_Errorf
                              "error while tallying commits by date: "
                              (errors_New
                                 "Last modified mode not implemented"));
               unread := yieldAll [jan05; jan20];
               store := sampleHeap |}.
Proof.
  split; [reflexivity|].
  apply (C4_last_modified_mode_fails_at_once 0 (yieldAll [jan05; jan20])
           (byEmail LastModifiedMode) (utc 2024 2 10) sampleHeap).
  reflexivity.
Defined.

Lemma C5_witness :
  Mode (byEmail LinesMode) <> LastModifiedMode
  /\ exists res,
      TallyCommitsByDate 0
        ((jan05, None) :: yieldAll [jan20]
           ++ (feb02, Some (errors_New "broken pipe")) :: yieldAll [feb02])
        (byEmail LinesMode) (utc 2024 2 10) [] = Done res
      /\ err res
         = Some (fmt_Errorf "error while tallying commits by date: "
                   (fmt_Errorf "error iterating commits: "
                      (errors_New "broken pipe")))
      /\ length (buckets res) = 36%nat
      /\ unread res = yieldAll [feb02].
Proof.
  split; [discriminate|].
  eexists. split.
  - rewrite (C5_stream_error_keeps_buckets 0 jan05 [jan20] feb02
               (errors_New "broken pipe") (yieldAll [feb02])
               (byEmail LinesMode) (utc 2024 2 10) []) by discriminate.
    vm_compute. reflexivity.
  - split; [reflexivity|]. split; reflexivity.
Defined.

Lemma C6_witness :
  exists res,
    TallyCommitsByDate 0 (yieldAll partA) (byEmail CommitMode)
      (utc 2024 4 10) [] = Done res
    /\ StronglySorted Z.lt (Time <$> buckets res)
    /\ NoDup (bucketKey <$> buckets res)
    /\ Name <$> buckets res
       = ["Jan 2024"; "Feb 2024"; "Mar 2024"; "Apr 2024"]%string.
Proof.
  eexists. split; [vm_compute; reflexivity|].
  match goal with
  | |- StronglySorted _ (Time <$> buckets ?r) /\ _ =>
      destruct (C6_buckets_ascending_no_gaps 0 (yieldAll partA)
                  (byEmail CommitMode) (utc 2024 4 10) [] r)
        as (Hsorted & _ & Hnodup & _); [vm_compute; reflexivity|]
  end.
  split; [exact Hsorted|]. split; [exact Hnodup|]. reflexivity.
Defined.


(** Two ranked buckets of one day: the combined series is the receiver's
    bucket, cached winner and all, so the two orders give different
    series, while the maps they hold are the same. *)
Lemma C7_counterexample :
  exists h1 h2,
    TimeSeries_Combine Tally_Combine_sum [rankedA] [rankedB] sampleHeap
    = Done ([rankedA], h1)
    /\ TimeSeries_Combine Tally_Combine_sum [rankedB] [rankedA] sampleHeap
       = Done ([rankedB], h2)
    /\ contents h1 rankedA = contents h2 rankedB
    /\ Name rankedA = Name rankedB /\ Time rankedA = Time rankedB
    /\ Tally_ rankedA <> Tally_ rankedB
    /\ TimeBucket_Value rankedA CommitMode = Done 2
    /\ TimeBucket_Value rankedB CommitMode = Done 4.
Proof.
  eexists _, _.
  do 5 (split; [reflexivity|]). split; [discriminate|].
  split; reflexivity.
Qed.

Lemma sample_compatible : compatible (seriesA ++ seriesB ++ seriesC).
Proof.
  intros x y Hx Hy Hk. unfold seriesA, seriesB, seriesC in Hx, Hy.
  cbn [app] in Hx, Hy.
  repeat (apply elem_of_cons in Hx as [->|Hx]);
    try (by apply elem_of_nil in Hx);
    repeat (apply elem_of_cons in Hy as [->|Hy]);
    try (by apply elem_of_nil in Hy);
    first [split; reflexivity | vm_compute in Hk; discriminate].
Qed.

Lemma C7_witness :
  distinctKeys seriesA /\ distinctKeys seriesB /\ distinctKeys seriesC
  /\ separate (seriesA ++ seriesB ++ seriesC)
  /\ allocated sampleHeap (seriesA ++ seriesB ++ seriesC)
  /\ compatible (seriesA ++ seriesB ++ seriesC)
  /\ exists ab h1 ba h2,
       TimeSeries_Combine Tally_Combine_sum seriesA seriesB sampleHeap
       = Done (ab, h1)
       /\ TimeSeries_Combine Tally_Combine_sum seriesB seriesA sampleHeap
          = Done (ba, h2)
       /\ StronglySorted Z.lt (bucketKey <$> ab)
       /\ shown h2 <$> ba = shown h1 <$> ab.
Proof.
  assert (Ha : distinctKeys seriesA)
    by (apply (bool_decide_unpack _); by vm_compute).
  assert (Hb : distinctKeys seriesB)
    by (apply (bool_decide_unpack _); by vm_compute).
  assert (Hc : distinctKeys seriesC)
    by (apply (bool_decide_unpack _); by vm_compute).
  assert (Hsep : separate (seriesA ++ seriesB ++ seriesC))
    by (apply (bool_decide_unpack _); by vm_compute).
  assert (Hal : allocated sampleHeap (seriesA ++ seriesB ++ seriesC))
    by (repeat constructor; cbn; lia).
  pose proof sample_compatible as Hco.
  do 5 (split; [assumption|]). split; [exact Hco|].
  destruct (C7_Combine_on_wellformed_series Tally_Combine_sum
              Tally_Combine_sum_sums seriesA seriesB seriesC sampleHeap
              Ha Hb Hc Hsep Hal Hco)
    as (ab & h1 & Hab & Hsorted & _ & _ & _ & (ba & h2 & Hba & Hsame) & _).
  exists ab, h1, ba, h2.
  split; [exact Hab|]. split; [exact Hba|]. split; [exact Hsorted|].
  exact Hsame.
Defined.

Lemma C9_witness :
  exists h',
    TimeBucket_Combine Tally_Combine_sum rankedA rankedB sampleHeap
    = Done (rankedA, h')
    /\ numTallied <$> contents h' rankedA
       = {[ "ann@example.com"%string := 3; "bob@example.com"%string := 4 ]}
    /\ forall x : TimeBucket, tallies x = tallies rankedA ->
         contents h' x
         = mergeMaps Tally_Combine_sum (contents sampleHeap rankedA)
             (contents sampleHeap rankedB).
Proof.
  eexists. split; [reflexivity|]. split; [reflexivity|].
  match goal with
  | |- forall x, _ -> contents ?h' x = _ =>
      destruct (C9_Combine_writes_into_receiver Tally_Combine_sum
                  rankedA rankedB sampleHeap rankedA h')
        as (_ & _ & Hall & _); [reflexivity|]
  end.
  exact Hall.
Defined.

(** ** Over Go's times *)

Lemma mountain_fixed : Zoned.fixedOffset mountain (-25200).
Proof. intros sec. reflexivity. Qed.





Lemma C2_witness :
  Zoned.fixedOffset mountain (-25200)
  /\ Forall (datedLocal mountain) (liftCommit mountain <$> first1 :: whole)
  /\ whole ≡ₚ rest1 ++ first2 :: rest2
  /\ exists (n : nat) res1 res2 out h3 resw,
      (forall fuel, (n <= fuel)%nat ->
         Zoned.TallyCommitsByDate mountain fuel
           (Zoned.yieldAll (liftCommit mountain <$> first1 :: rest1))
           (keyedByEmail CommitMode) (timeIn mountain (utc 2024 1 5)) []
         = Done res1
         /\ Zoned.TallyCommitsByDate mountain fuel
              (Zoned.yieldAll (liftCommit mountain <$> first2 :: rest2))
              (keyedByEmail CommitMode) (timeIn mountain (utc 2024 1 5))
              (Zoned.store res1)
            = Done res2
         /\ Zoned.TallyCommitsByDate mountain fuel
              (Zoned.yieldAll (liftCommit mountain <$> first1 :: whole))
              (keyedByEmail CommitMode) (timeIn mountain (utc 2024 1 5)) []
            = Done resw)
      /\ Zoned.TimeSeries_Combine Tally_Combine_sum (Zoned.buckets res1)
           (Zoned.buckets res2) (Zoned.store res2) = Done (out, h3)
      /\ length out = length (Zoned.buckets resw)
      /\ forall (j : nat) bo bw,
           out !! j = Some bo -> Zoned.buckets resw !! j = Some bw ->
           Zoned.Name bo = Zoned.Name bw /\ Zoned.Time bo = Zoned.Time bw.
Proof.
  assert (Hloc : Forall (datedLocal mountain)
                   (liftCommit mountain <$> first1 :: whole))
    by (repeat constructor).
  assert (Hperm : whole ≡ₚ rest1 ++ first2 :: rest2) by apply perm_swap.
  split; [exact mountain_fixed|]. split; [exact Hloc|]. split; [exact Hperm|].
  destruct (C2_partition_merge_at_fixed_offset mountain (-25200)
              Tally_Combine_sum (liftCommit mountain first1)
              (liftCommit mountain <$> rest1) (liftCommit mountain first2)
              (liftCommit mountain <$> rest2) (liftCommit mountain <$> whole)
              (keyedByEmail CommitMode) (timeIn mountain (utc 2024 1 5))
              [] [])
    as (n & res1 & res2 & out & h3 & resw & Hruns & Hout & _ & _ & _
        & Hlen & Hsame).
  { exact Tally_Combine_sum_sums. }
  { intros sec. reflexivity. }
  { exact Hloc. }
  { discriminate. }
  { apply perm_swap. }
  { repeat constructor; by vm_compute. }
  { repeat constructor; by vm_compute. }
  { repeat constructor; by vm_compute. }
  { repeat constructor; by vm_compute. }
  { reflexivity. }
  exists n, res1, res2, out, h3, resw.
  split; [exact Hruns|]. split; [exact Hout|]. split; [exact Hlen|].
  intros j bo bw Ho Hw. destruct (Hsame j bo bw Ho Hw) as (Hn & Ht & _).
  by split.
Defined.

(** ** The further properties *)

Lemma makes_new_maps_witness :
  Zoned.TallyCommitsByDate mountain 8
    (Zoned.yieldAll (liftCommit mountain <$> [jan05; jan05]))
    (keyedByEmail CommitMode) (timeIn mountain (utc 2024 1 6)) sampleHeap
  = Done {| Zoned.buckets :=
              [zonedBucketAt "2024-01-04"
                 (timeIn mountain (utc 2024 1 4 + 7 * time.Hour)) 4;
               zonedBucketAt "2024-01-05"
                 (timeIn mountain (utc 2024 1 5 + 7 * time.Hour)) 5];
            Zoned.err := None; Zoned.unread := [];
            Zoned.store :=
              sampleHeap
              ++ [tallyCommit (byEmail CommitMode) jan05 ∅; ∅] |}
  /\ forall (a : nat) m,
       sampleHeap !! a = Some m ->
       (sampleHeap ++ [tallyCommit (byEmail CommitMode) jan05 ∅; ∅]) !! a
       = Some m.
Proof.
  assert (Hrun : Zoned.TallyCommitsByDate mountain 8
            (Zoned.yieldAll (liftCommit mountain <$> [jan05; jan05]))
            (keyedByEmail CommitMode) (timeIn mountain (utc 2024 1 6))
            sampleHeap
          = Done {| Zoned.buckets :=
                      [zonedBucketAt "2024-01-04"
                         (timeIn mountain (utc 2024 1 4 + 7 * time.Hour)) 4;
                       zonedBucketAt "2024-01-05"
                         (timeIn mountain (utc 2024 1 5 + 7 * time.Hour)) 5];
                    Zoned.err := None; Zoned.unread := [];
                    Zoned.store :=
                      sampleHeap
                      ++ [tallyCommit (byEmail CommitMode) jan05 ∅; ∅] |})
    by reflexivity.
  split; [exact Hrun|].
  apply (TallyCommitsByDate_makes_new_maps mountain 8 _ _ _ _ _ Hrun).
Defined.

Lemma bucket_times_witness :
  Zoned.TallyCommitsByDate santiago 8
    (Zoned.yieldAll [commitIn Zoned.time.UTC "ann"
                       (Zoned.time.inst (santiagoDay 6))])
    (keyedByEmail CommitMode) (santiagoDay 7) []
  = Done {| Zoned.buckets := [zonedBucketAt "2024-09-06" (santiagoDay 6) 0];
            Zoned.err := None; Zoned.unread := []; Zoned.store := [∅] |}
  /\ Forall (Zoned.plainBucket santiago)
       [zonedBucketAt "2024-09-06" (santiagoDay 6) 0].
Proof.
  assert (Hrun : Zoned.TallyCommitsByDate santiago 8
            (Zoned.yieldAll [commitIn Zoned.time.UTC "ann"
                               (Zoned.time.inst (santiagoDay 6))])
            (keyedByEmail CommitMode) (santiagoDay 7) []
          = Done {| Zoned.buckets :=
                      [zonedBucketAt "2024-09-06" (santiagoDay 6) 0];
                    Zoned.err := None; Zoned.unread := [];
                    Zoned.store := [∅] |})
    by reflexivity.
  split; [exact Hrun|].
  apply (bucket_times_carry_Local santiago 8 _ _ _ _ _ Hrun).
Defined.

Lemma initBuckets_stuck_witness :
  Zoned.time.After santiagoEnd santiagoLastHour = true
  /\ Zoned.next (Zoned.resolutionOf santiago Daily) santiagoLastHour
     = santiagoLastHour
  /\ Zoned.initBuckets 1000 (Zoned.resolutionOf santiago Daily) santiagoEnd
       santiagoLastHour [] [] = OutOfFuel.
Proof.
  split; [reflexivity|]. split; [reflexivity|].
  apply (initBuckets_stuck 1000 (Zoned.resolutionOf santiago Daily)
           santiagoEnd santiagoLastHour [] []); reflexivity.
Defined.

Lemma Zoned_is_Bucket_witness :
  Zoned.fixedOffset mountain (-25200)
  /\ exists n : nat, forall fuel, (n <= fuel)%nat ->
       outcome_map eraseResult
         (Zoned.TallyCommitsByDate mountain fuel
            (Zoned.yieldAll (liftCommit mountain <$> [jan05; jan20; feb02]))
            (keyedByEmail LinesMode) (timeIn mountain (utc 2024 2 10)) [])
       = TallyCommitsByDate (-25200)
           (eraseStream
              (Zoned.yieldAll (liftCommit mountain <$> [jan05; jan20; feb02])))
           (eraseOpts mountain (keyedByEmail LinesMode)) (utc 2024 2 10) [].
Proof.
  split; [exact mountain_fixed|].
  apply (Zoned_is_Bucket_at_fixed_offset mountain (-25200)
           (Zoned.yieldAll (liftCommit mountain <$> [jan05; jan20; feb02]))
           (keyedByEmail LinesMode) (timeIn mountain (utc 2024 2 10)) []).
  - intros sec. reflexivity.
  - repeat constructor.
Defined.

Lemma apply_monotone_witness :
  Zoned.time.inst (timeIn mountain (utc 2024 1 5))
  <= Zoned.time.inst (timeIn mountain (utc 2024 3 9))
  /\ Zoned.time.inst
       (Zoned.apply
          (Zoned.calcResolution mountain (timeIn mountain (utc 2024 1 5))
             (timeIn mountain (utc 2024 6 1)))
          (timeIn mountain (utc 2024 1 5)))
     <= Zoned.time.inst
          (Zoned.apply
             (Zoned.calcResolution mountain (timeIn mountain (utc 2024 1 5))
                (timeIn mountain (utc 2024 6 1)))
             (timeIn mountain (utc 2024 3 9))).
Proof.
  assert (H : Zoned.time.inst (timeIn mountain (utc 2024 1 5))
              <= Zoned.time.inst (timeIn mountain (utc 2024 3 9)))
    by (by vm_compute).
  split; [exact H|].
  apply (apply_monotone_at_fixed_offset mountain (-25200)
           (timeIn mountain (utc 2024 1 5)) (timeIn mountain (utc 2024 6 1))
           (timeIn mountain (utc 2024 1 5)) (timeIn mountain (utc 2024 3 9)));
    [intros sec; reflexivity|reflexivity|reflexivity|exact H].
Defined.

Lemma without_first_commit_witness :
  Zoned.TallyCommitsByDate santiago 0 [] (keyedByEmail FilesMode)
    santiagoEnd sampleHeap
  = Done {| Zoned.buckets := []; Zoned.err := None; Zoned.unread := [];
            Zoned.store := sampleHeap |}
  /\ Zoned.TallyCommitsByDate santiago 0
       ((utcNoon, Some (errors_New "broken pipe")) :: Zoned.yieldAll [utcNight])
       (keyedByEmail FilesMode) santiagoEnd sampleHeap
     = Done {| Zoned.buckets := [];
               Zoned.err :=
                 Some (fmt_Errorf "error while tallying commits by date: "
                         (errors_New "broken pipe"));
               Zoned.unread := Zoned.yieldAll [utcNight];
               Zoned.store := sampleHeap |}.
Proof.
  apply (TallyCommitsByDate_without_first_commit santiago 0 utcNoon
           (errors_New "broken pipe") (Zoned.yieldAll [utcNight])
           (keyedByEmail FilesMode) santiagoEnd sampleHeap).
  discriminate.
Defined.

Lemma Combine_with_itself_witness :
  exists h',
    Zoned.TimeBucket_Combine Tally_Combine_sum
      (zonedBucketAt "2024-01-01" (timeIn santiago (utc 2024 1 1)) 1)
      (zonedBucketAt "2024-01-01" (timeIn santiago (utc 2024 1 1)) 1)
      sampleHeap
    = Done (zonedBucketAt "2024-01-01" (timeIn santiago (utc 2024 1 1)) 1, h')
    /\ numTallied
       <$> Zoned.contents h'
             (zonedBucketAt "2024-01-01" (timeIn santiago (utc 2024 1 1)) 1)
       = {[ "ann@example.com"%string := 2; "bob@example.com"%string := 8 ]}.
Proof.
  destruct (Combine_with_itself Tally_Combine_sum
              (zonedBucketAt "2024-01-01" (timeIn santiago (utc 2024 1 1)) 1)
              sampleHeap)
    as (h' & Hrun & _ & Hmap & _).
  { cbn. lia. }
  exists h'. split; [exact Hrun|]. rewrite Hmap. reflexivity.
Defined.
